(** * Endpoint-constrained white noise: generator and PCM/WAV encoder

    A shallow embedding of [src/lib/noise.ts] (the seeded generator
    [generateEndpointConstrainedWhiteNoise] and its helpers) and of the
    encoder of the single-file web app ([floatToPCM16], [makeWavBlob],
    [makeRawPCMBlob]).

    JavaScript numbers are IEEE 754 binary64 values and the elements of a
    [Float32Array] are binary32 values; both are modelled with the
    executable specification of the Standard Library ([SpecFloat]), so the
    arithmetic below rounds exactly as the program does.  The three
    transcendental functions of the host ([Math.log], [Math.cos] and the
    general case of [Math.pow]) are implementation-approximated in
    ECMAScript: they are a parameter of the model, and every result holds
    for all of them.  Typed-array allocation is modelled up to the
    [RangeError] of [ToIndex]; exhaustion of memory is not modelled in
    [generateEndpointConstrainedWhiteNoise], and is a parameter of
    [generateNoise] (an [Allocator]). *)

From Stdlib Require Import ZArith List Bool Lia SpecFloat QArith Qminmax String Ascii.
From stdpp Require Import base option list.

Local Open Scope Z_scope.

(* ================================================================== *)
(** * Numbers *)
(* ================================================================== *)

Module Num.

(** A JavaScript Number is a binary64 value and an element of a
    [Float32Array] a binary32 value; both are [spec_float]s, and the two
    names say which format a value is in. *)
Abbreviation number := spec_float.
Abbreviation float32 := spec_float.

Definition prec64 : Z := 53.
Definition emax64 : Z := 1024.
Definition prec32 : Z := 24.
Definition emax32 : Z := 128.

(** The Number denoted by an integer literal (rounded when it does not fit). *)
Definition of_Z (z : Z) : number := binary_normalize prec64 emax64 z 0 false.
Definition of_nat (n : nat) : number := of_Z (Z.of_nat n).

Definition zero : number := S754_zero false.
Definition one : number := of_Z 1.
Definition two : number := of_Z 2.

Definition fadd : number -> number -> number := SFadd prec64 emax64.
Definition fsub : number -> number -> number := SFsub prec64 emax64.
Definition fmul : number -> number -> number := SFmul prec64 emax64.
Definition fdiv : number -> number -> number := SFdiv prec64 emax64.

(** [a < b], [a <= b], [a === b] on Numbers ([false] as soon as one is NaN). *)
Definition flt (a b : number) : bool := SFltb a b.
Definition fle (a b : number) : bool := SFleb a b.
Definition strict_eq (a b : number) : bool := SFeqb a b.

Definition isNaN (x : number) : bool :=
  match x with S754_nan => true | _ => false end.

(** [Number.isFinite] *)
Definition Number_isFinite (x : number) : bool :=
  match x with
  | S754_zero _ | S754_finite _ _ _ => true
  | S754_infinity _ | S754_nan => false
  end.

Definition Math_abs (x : number) : number := SFabs x.
Definition Math_sqrt (x : number) : number := SFsqrt prec64 emax64 x.

(** [Math.min] and [Math.max]: NaN is contagious and [-0 < +0]. *)
Definition Math_min (a b : number) : number :=
  match a, b with
  | S754_nan, _ | _, S754_nan => S754_nan
  | S754_zero sa, S754_zero sb => S754_zero (sa || sb)
  | _, _ => if flt b a then b else a
  end.

Definition Math_max (a b : number) : number :=
  match a, b with
  | S754_nan, _ | _, S754_nan => S754_nan
  | S754_zero sa, S754_zero sb => S754_zero (sa && sb)
  | _, _ => if flt a b then b else a
  end.

(** [Math.PI], the binary64 value 0x400921FB54442D18. *)
Definition Math_PI : number := S754_finite false 7074237752028440 (-51).

(** Storing a Number into a [Float32Array] rounds it to binary32
    (round to nearest, ties to even; overflow gives an infinity). *)
Definition fround (x : number) : float32 :=
  match x with
  | S754_finite s m e => binary_round prec32 emax32 s m e
  | _ => x
  end.

(** Reading an element of a [Float32Array] gives the same value as a Number. *)
Definition widen (x : float32) : number :=
  match x with
  | S754_finite s m e => binary_round prec64 emax64 s m e
  | _ => x
  end.

(** An integral Number, as [Math.floor] returns it: NaN, an infinity or
    an integer (the sign of a zero is dropped: nothing below observes it). *)
Inductive integral :=
| IntNaN
| IntInf (negative : bool)
| IntVal (z : Z).

(** [Math.floor]: a shift to the right of a negative mantissa rounds down. *)
Definition Math_floor (x : number) : integral :=
  match x with
  | S754_nan => IntNaN
  | S754_infinity s => IntInf s
  | S754_zero _ => IntVal 0
  | S754_finite s m e => IntVal (Z.shiftl (cond_Zopp s (Zpos m)) e)
  end.

(** [Math.max(0, n)] on an integral Number. *)
Definition Math_max0 (n : integral) : integral :=
  match n with
  | IntNaN => IntNaN
  | IntInf true => IntVal 0
  | IntInf false => IntInf false
  | IntVal z => IntVal (Z.max 0 z)
  end.

(** [ToIndex], which the typed-array constructors apply to a length:
    NaN counts as 0, and a length outside [0, 2^53 - 1] is a [RangeError]
    ([None]). *)
Definition ToIndex (n : integral) : option nat :=
  match n with
  | IntNaN => Some 0%nat
  | IntInf _ => None
  | IntVal z => if (0 <=? z) && (z <=? 2 ^ 53 - 1) then Some (Z.to_nat z) else None
  end.

(** The integer part of a finite Number (truncation toward zero). *)
Definition truncate (x : number) : Z :=
  match x with
  | S754_finite s m e => cond_Zopp s (Z.shiftl (Zpos m) e)
  | _ => 0
  end.

(** 32-bit and 16-bit integers, with their wrap-around. *)
Definition ToInt32 (z : Z) : Z := (z + 2 ^ 31) mod 2 ^ 32 - 2 ^ 31.
Definition ToUint32 (z : Z) : Z := z mod 2 ^ 32.
Definition ToInt16 (z : Z) : Z := (z + 2 ^ 15) mod 2 ^ 16 - 2 ^ 15.

(** [x | 0] and [x >>> 0] on a Number. *)
Definition Number_ToInt32 (x : number) : Z := ToInt32 (truncate x).
Definition Number_ToUint32 (x : number) : Z := ToUint32 (truncate x).

(** [Math.imul] and [a >>> k] on 32-bit integers. *)
Definition imul (a b : Z) : Z := ToInt32 (a * b).
Definition ushr (a k : Z) : Z := Z.shiftr (ToUint32 a) k.

End Num.
Import Num.

(* ================================================================== *)
(** * The host *)
(* ================================================================== *)

(** The implementation-approximated functions of the host. *)
Record Libm := {
  libm_log : number -> number;
  libm_cos : number -> number;
  libm_pow : number -> number -> number
}.

(** [Math.pow]: ECMAScript fixes the result for a NaN, zero or infinite
    exponent and for a NaN base; the host approximates the rest. *)
Definition Math_pow (m : Libm) (base exponent : number) : number :=
  match exponent with
  | S754_nan => S754_nan
  | S754_zero _ => one
  | S754_infinity negative =>
      if isNaN base then S754_nan
      else if flt one (Math_abs base) then (if negative then zero else S754_infinity false)
      else if strict_eq (Math_abs base) one then S754_nan
      else (if negative then S754_infinity false else zero)
  | S754_finite _ _ _ =>
      if isNaN base then S754_nan else libm_pow m base exponent
  end.

(* ================================================================== *)
(** * The random source ([createRng]) *)
(* ================================================================== *)

(** The state of the closure [createRng] returns: the counter [a] of
    mulberry32, or [Math.random] itself, whose successive results are the
    values of a stream the host supplies. *)
Inductive Rng :=
| Mulberry32 (a : Z)
| MathRandom (calls : nat).

Definition createRng (seed : option number) : Rng :=
  match seed with
  | None => MathRandom 0
  | Some s => Mulberry32 (Number_ToUint32 s)
  end.

(** One call of the mulberry32 closure: the value returned and the new [a]. *)
Definition mulberry32 (a : Z) : number * Z :=
  let a := ToInt32 a in
  let a := ToInt32 (a + 0x6D2B79F5) in
  let t := imul (Z.lxor a (ushr a 15)) (Z.lor 1 a) in
  let t := Z.lxor (ToInt32 (t + imul (Z.lxor t (ushr t 7)) (Z.lor 61 t))) t in
  (fdiv (of_Z (ToUint32 (Z.lxor t (ushr t 14)))) (of_Z 4294967296), a).

Definition rng_call (entropy : nat -> number) (r : Rng) : number * Rng :=
  match r with
  | Mulberry32 a => let '(x, a') := mulberry32 a in (x, Mulberry32 a')
  | MathRandom k => (entropy k, MathRandom (S k))
  end.

(** [while (u === 0) u = rng();] with at most [fuel] calls of [rng];
    [None] when the fuel runs out. *)
Fixpoint draw_nonzero (entropy : nat -> number) (fuel : nat) (u : number) (r : Rng)
  : option (number * Rng) :=
  if strict_eq u zero then
    match fuel with
    | O => None
    | S fuel' => let '(u', r') := rng_call entropy r in draw_nonzero entropy fuel' u' r'
    end
  else Some (u, r).

(** Box-Muller transform. *)
Definition randomGaussian (m : Libm) (entropy : nat -> number) (fuel : nat) (r : Rng)
  : option (number * Rng) :=
  '(u, r1) ← draw_nonzero entropy fuel zero r;
  '(v, r2) ← draw_nonzero entropy fuel zero r1;
  Some (fmul (Math_sqrt (fmul (of_Z (-2)) (libm_log m u)))
            (libm_cos m (fmul (fmul two Math_PI) v)), r2).

(** [rng() * 2 - 1] *)
Definition randomUniform (entropy : nat -> number) (r : Rng) : option (number * Rng) :=
  let '(x, r') := rng_call entropy r in
  Some (fsub (fmul x two) one, r').

(** [for (let i = 0; i < n; i++) out[i] = sample();] on a fresh array. *)
Fixpoint fill (sample : Rng -> option (number * Rng)) (n : nat) (r : Rng)
  : option (list float32 * Rng) :=
  match n with
  | O => Some ([], r)
  | S n' =>
      '(x, r1) ← sample r;
      '(xs, r2) ← fill sample n' r1;
      Some (fround x :: xs, r2)
  end.

(* ================================================================== *)
(** * The pipeline of [noise.ts] *)
(* ================================================================== *)

(** [data[i]] as an operand of arithmetic ([undefined] out of range gives NaN). *)
Definition read (data : list float32) (i : nat) : number :=
  match data !! i with
  | Some x => widen x
  | None => S754_nan
  end.

Definition detrendLinearInPlace (data : list float32) : list float32 :=
  let n := length data in
  if (n <? 2)%nat then
    (if (n =? 1)%nat then <[0%nat := zero]> data else data)
  else
    let a := read data 0 in
    let b := read data (n - 1) in
    let denom := of_nat (n - 1) in
    let data :=
      imap (fun i x =>
              let li := fadd a (fdiv (fmul (fsub b a) (of_nat i)) denom) in
              fround (fsub (widen x) li)) data in
    <[(n - 1)%nat := zero]> (<[0%nat := zero]> data).

Definition removeMeanInPlace (data : list float32) : list float32 :=
  let n := length data in
  if (n =? 0)%nat then data
  else
    let sum := fold_left (fun sum x => fadd sum (widen x)) data zero in
    let mean := fdiv sum (of_nat n) in
    (fun x => fround (fsub (widen x) mean)) <$> data.

Definition rms (data : list float32) : number :=
  let n := length data in
  if (n =? 0)%nat then zero
  else
    let acc := fold_left (fun acc x => fadd acc (fmul (widen x) (widen x))) data zero in
    Math_sqrt (fdiv acc (of_nat n)).

Inductive Distribution := gaussian | uniform.

Record NoiseOptions := {
  sampleRate : number;
  sampleCount : number;
  distribution : option Distribution;
  targetRmsDbfs : option number;
  zeroEndpoints : option bool;
  dcRemoval : option bool;
  seed : option number
}.

Inductive Exception :=
| Error (message : string)
| RangeError.

(** How a call ends: it returns, it throws, or (in the model only) the
    fuel of a [while] loop of [randomGaussian] runs out. *)
Inductive outcome (A : Type) :=
| Returned (a : A)
| Threw (e : Exception)
| OutOfFuel.
Arguments Returned {A} a.
Arguments Threw {A} e.
Arguments OutOfFuel {A}.

(** Steps 1 to 3: the noise, detrended and with its mean removed. *)
Definition rawNoise (m : Libm) (entropy : nat -> number) (fuel : nat)
    (n : nat) (opts : NoiseOptions) : option (list float32) :=
  let rng := createRng (seed opts) in
  '(out, _) ← (match default gaussian (distribution opts) with
               | gaussian => fill (randomGaussian m entropy fuel) n rng
               | uniform => fill (randomUniform entropy) n rng
               end);
  let out := if default true (zeroEndpoints opts) then detrendLinearInPlace out else out in
  let out := if default true (dcRemoval opts) then removeMeanInPlace out else out in
  Some out.

(** The largest [Math.abs(out[i])], as the loop of step 5 finds it. *)
Definition peakOf (out : list float32) : number :=
  fold_left (fun peak x =>
               let ax := Math_abs (widen x) in
               if flt peak ax then ax else peak) out zero.

(** Steps 4 and 5 and the final assignment of the endpoints. *)
Definition normalize (m : Libm) (opts : NoiseOptions) (out : list float32) : list float32 :=
  let n := length out in
  let targetRms := Math_pow m (of_Z 10) (fdiv (default (of_Z (-80)) (targetRmsDbfs opts)) (of_Z 20)) in
  let currentRms := rms out in
  let out :=
    if flt zero currentRms && Number_isFinite currentRms then
      let s := fdiv targetRms currentRms in
      (fun x => fround (fmul (widen x) s)) <$> out
    else
      (fun _ => zero) <$> out in
  let peak := peakOf out in
  let out :=
    if flt one peak then
      let k := fdiv one peak in
      (fun x => fround (fmul (widen x) k)) <$> out
    else out in
  if default true (zeroEndpoints opts) && (1 <=? n)%nat then
    let out := <[0%nat := zero]> out in
    if (1 <? n)%nat then <[(n - 1)%nat := zero]> out else out
  else out.

Definition sampleRateMessage : string := "sampleRate must be a positive number".

(** The array [new Float32Array(n)] is allocated with the length
    [ToIndex n]; when that succeeds [n] is that length or NaN, and with NaN
    (length 0) no loop bounded by [i < n] runs and [n >= 1] is false: the
    length stands for [n] in the rest of the function. *)
Definition generateEndpointConstrainedWhiteNoise
    (m : Libm) (entropy : nat -> number) (fuel : nat) (opts : NoiseOptions)
  : outcome (list float32) :=
  if negb (Number_isFinite (sampleRate opts)) || fle (sampleRate opts) zero then
    Threw (Error sampleRateMessage)
  else
    match ToIndex (Math_max0 (Math_floor (sampleCount opts))) with
    | None => Threw RangeError
    | Some n =>
        match rawNoise m entropy fuel n opts with
        | None => OutOfFuel
        | Some out => Returned (normalize m opts out)
        end
    end.

(* ================================================================== *)
(** * The encoder of the web app *)
(* ================================================================== *)

(** One iteration of the loop of [floatToPCM16]: the clamp, the product,
    [| 0], and the store into the [Int16Array]. *)
Definition floatToPCM16_sample (x : float32) : Z :=
  let v := Math_max (of_Z (-1)) (Math_min one (widen x)) in
  ToInt16 (Number_ToInt32 (fmul v (of_Z 32767))).

Definition floatToPCM16 (samples : list float32) : list Z :=
  floatToPCM16_sample <$> samples.

(** Bytes are integers in [0, 256).  The writes of a [DataView] are
    updates of the bytes of its buffer; a write out of range would throw,
    and none below is out of range (see [makeWavBlob_layout]). *)
Definition setUint8 (buf : list Z) (pos : nat) (v : Z) : list Z :=
  <[pos := v mod 256]> buf.

(** [view.setUint16(pos, v, true)], little-endian; [setInt16] stores the
    same two bytes. *)
Definition setUint16 (buf : list Z) (pos : nat) (v : Z) : list Z :=
  setUint8 (setUint8 buf pos v) (pos + 1) (Z.shiftr v 8).

Definition setInt16 (buf : list Z) (pos : nat) (v : Z) : list Z :=
  setUint16 buf pos v.

(** [view.setUint32(pos, v, true)], little-endian. *)
Definition setUint32 (buf : list Z) (pos : nat) (v : Z) : list Z :=
  setUint8 (setUint8 (setUint8 (setUint8 buf pos v)
    (pos + 1) (Z.shiftr v 8)) (pos + 2) (Z.shiftr v 16)) (pos + 3) (Z.shiftr v 24).

Definition charCodeAt (s : string) (i : nat) : Z :=
  match String.get i s with
  | Some c => Z.of_nat (nat_of_ascii c)
  | None => 0
  end.

(** The [DataView] and the [offset] the three local writers share. *)
Record Writer := { view : list Z; offset : nat }.

Definition writeString (s : string) (w : Writer) : Writer :=
  {| view := fold_left (fun buf i => setUint8 buf (offset w + i) (charCodeAt s i))
                       (seq 0 (String.length s)) (view w);
     offset := offset w + String.length s |}.

Definition writeUint32 (v : Z) (w : Writer) : Writer :=
  {| view := setUint32 (view w) (offset w) v; offset := offset w + 4 |}.

Definition writeUint16 (v : Z) (w : Writer) : Writer :=
  {| view := setUint16 (view w) (offset w) v; offset := offset w + 2 |}.

Definition writeSamples (pcm : list Z) (w : Writer) : Writer :=
  fold_left (fun w v => {| view := setInt16 (view w) (offset w) v; offset := offset w + 2 |})
            pcm w.

(** The bytes of the Blob [makeWavBlob] returns.  The sizes are integers
    far below 2^53, computed exactly; [sampleRate] and [byteRate] are the
    Numbers [setUint32] converts. *)
Definition makeWavBlob (samples : list float32) (sampleRate : number) : list Z :=
  let pcm := floatToPCM16 samples in
  let numChannels := 1 in
  let bitsPerSample := 16 in
  let byteRate := fdiv (fmul (fmul sampleRate (of_Z numChannels)) (of_Z bitsPerSample)) (of_Z 8) in
  let blockAlign := (numChannels * bitsPerSample) / 8 in
  let subchunk2Size := Z.of_nat (length pcm) * 2 in
  let chunkSize := 36 + subchunk2Size in
  let w := {| view := replicate (Z.to_nat (44 + subchunk2Size)) 0; offset := 0 |} in
  let w := writeString "RIFF" w in
  let w := writeUint32 chunkSize w in
  let w := writeString "WAVE" w in
  let w := writeString "fmt " w in
  let w := writeUint32 16 w in
  let w := writeUint16 1 w in
  let w := writeUint16 numChannels w in
  let w := writeUint32 (truncate sampleRate) w in
  let w := writeUint32 (truncate byteRate) w in
  let w := writeUint16 blockAlign w in
  let w := writeUint16 bitsPerSample w in
  let w := writeString "data" w in
  let w := writeUint32 subchunk2Size w in
  let w := writeSamples pcm w in
  view w.

(** The two bytes of an [Int16Array] element, in the byte order of the
    platform ([true]: little-endian). *)
Definition int16_bytes (littleEndian : bool) (v : Z) : list Z :=
  if littleEndian then [v mod 256; Z.shiftr v 8 mod 256]
  else [Z.shiftr v 8 mod 256; v mod 256].

(** The bytes of the Blob [makeRawPCMBlob] returns: those of the
    [Int16Array]. *)
Definition makeRawPCMBlob (littleEndian : bool) (samples : list float32) : list Z :=
  let pcm := floatToPCM16 samples in
  mjoin (int16_bytes littleEndian <$> pcm).

(** Reading a little-endian unsigned field back. *)
Fixpoint le_decode (bs : list Z) : Z :=
  match bs with
  | [] => 0
  | b :: bs' => b + 256 * le_decode bs'
  end.

Definition field (bs : list Z) (pos len : nat) : list Z := take len (drop pos bs).

(* ================================================================== *)
(** * The float-to-int16 mapping, in the words of the specification *)
(* ================================================================== *)

(** The value of a sample: not a number, an infinity, or a rational. *)
Inductive sampleValue :=
| NotANumber
| Infinite (negative : bool)
| Finite (q : Q).

(** The rational [z * 2^e]. *)
Definition dyadic (z e : Z) : Q :=
  if 0 <=? e then inject_Z (z * 2 ^ e) else (z # Z.to_pos (2 ^ (- e)))%Q.

Definition valueOf (x : float32) : sampleValue :=
  match x with
  | S754_nan => NotANumber
  | S754_infinity s => Infinite s
  | S754_zero _ => Finite 0
  | S754_finite s m e => Finite (dyadic (cond_Zopp s (Zpos m)) e)
  end.

(** Clamping to [-1, 1]; there is nothing to clamp in NaN. *)
Definition clamp (v : sampleValue) : option Q :=
  match v with
  | NotANumber => None
  | Infinite negative => Some (if negative then -1 else 1)%Q
  | Finite q => Some (Qmax (-1) (Qmin 1 q))
  end.

(** Truncation toward zero. *)
Definition Qtruncate (q : Q) : Z := Z.quot (Qnum q) (Zpos (Qden q)).

(** "Clamp each sample to [-1, 1], then scale by 32767 and truncate toward
    zero", on the exact value of the sample; for NaN the integer is 0, as
    [NaN | 0] is. *)
Definition referencePCM16 (x : float32) : Z :=
  match clamp (valueOf x) with
  | Some q => Qtruncate (q * 32767)%Q
  | None => 0
  end.

(* ================================================================== *)
(** * Auxiliary definitions of the proofs *)
(* ================================================================== *)

(** The canonical binary64 form of [m * 2^e] when [m] has at most 53 bits
    and the value is in the normal range. *)
Definition canon64 (s : bool) (m : positive) (e : Z) : number :=
  let d := Zpos (digits2_pos m) in
  S754_finite s (Z.to_pos (Zpos m * 2 ^ (53 - d))) (e - (53 - d)).

(** The requests whose sampling loops are bounded: with a seed each
    [while] loop of [randomGaussian] makes at most two calls, and the
    uniform sampler has no loop. *)
Definition boundedLoops (opts : NoiseOptions) : Prop :=
  is_Some (seed opts) \/ distribution opts = Some uniform.

(** The length [new Float32Array(n)] is created with. *)
Definition requestedLength (opts : NoiseOptions) : option nat :=
  ToIndex (Math_max0 (Math_floor (sampleCount opts))).

(** [sampleRate] passes the validation. *)
Definition validRate (opts : NoiseOptions) : bool :=
  Number_isFinite (sampleRate opts) && negb (fle (sampleRate opts) zero).

(** A crude host, for the examples: none of the results depends on it. *)
Definition coarseLibm : Libm :=
  {| libm_log := fun x => fsub x one;
     libm_cos := fun _ => one;
     libm_pow := fun _ _ => one |}.

(** A host whose [Math.random] always returns one half. *)
Definition halves : nat -> number := fun _ => fdiv one two.

(** The scenario of the specification: 16 kHz, 100 samples, uniform,
    -60 dBFS, seed 7; and the same request for other lengths. *)
Definition request (n : Z) (d : Distribution) : NoiseOptions :=
  {| sampleRate := of_Z 16000; sampleCount := of_Z n; distribution := Some d;
     targetRmsDbfs := Some (of_Z (-60)); zeroEndpoints := None; dcRemoval := None;
     seed := Some (of_Z 7) |}.

(** The same request with another target level. *)
Definition withTarget (t : number) (opts : NoiseOptions) : NoiseOptions :=
  {| sampleRate := sampleRate opts; sampleCount := sampleCount opts;
     distribution := distribution opts; targetRmsDbfs := Some t;
     zeroEndpoints := zeroEndpoints opts; dcRemoval := dcRemoval opts;
     seed := seed opts |}.


(** A sample is within full scale: [Math.abs(x) <= 1] (false for NaN). *)
Definition withinFullScale (x : float32) : bool := fle (Math_abs (widen x)) one.

(** The same request with another count. *)
Definition withCount (c : number) (opts : NoiseOptions) : NoiseOptions :=
  {| sampleRate := sampleRate opts; sampleCount := c;
     distribution := distribution opts; targetRmsDbfs := targetRmsDbfs opts;
     zeroEndpoints := zeroEndpoints opts; dcRemoval := dcRemoval opts;
     seed := seed opts |}.

(** What a [Float32Array] can hold: the mantissa and the exponent of its
    finite elements are in the range of binary32. *)
Definition inFloat32 (x : float32) : Prop :=
  match x with
  | S754_finite _ m e => Zpos m < 2 ^ 24 /\ -149 <= e <= 104
  | _ => True
  end.

(** An element of a [Float32Array] of magnitude at most 1: a zero, or a
    finite element below 1 or equal to 1 or -1. *)
Definition unitFloat32 (x : float32) : Prop :=
  match x with
  | S754_zero _ => True
  | S754_finite _ m e =>
      Zpos m < 2 ^ 24 /\ -149 <= e <= 104
      /\ (Zpos (digits2_pos m) + e <= 0 \/ (Zpos m = 2 ^ 23 /\ e = -23))
  | _ => False
  end.

(** Step 4 of the generator alone: the scaling to the target level. *)
Definition scaleToTargetRms (m : Libm) (opts : NoiseOptions) (out : list float32)
  : list float32 :=
  let targetRms := Math_pow m (of_Z 10) (fdiv (default (of_Z (-80)) (targetRmsDbfs opts)) (of_Z 20)) in
  let currentRms := rms out in
  if flt zero currentRms && Number_isFinite currentRms then
    let s := fdiv targetRms currentRms in
    (fun x => fround (fmul (widen x) s)) <$> out
  else
    (fun _ => zero) <$> out.

(** Step 5 alone: the guard against clipping. *)
Definition clipGuard (out : list float32) : list float32 :=
  let peak := peakOf out in
  if flt one peak then
    let k := fdiv one peak in
    (fun x => fround (fmul (widen x) k)) <$> out
  else out.

(** A sample does not exceed full scale: it is NaN or within full scale. *)
Definition notAboveFullScale (x : float32) : Prop :=
  isNaN x = true \/ withinFullScale x = true.

(** The buffer of the scenario for five samples, on the crude host, whose
    [Math.pow] makes the target 1: the guard rescales it. *)
Definition guardedExample : list float32 :=
  match generateEndpointConstrainedWhiteNoise coarseLibm halves 0 (request 5 uniform) with
  | Returned buf => buf
  | _ => []
  end.

(** The four bytes of a 32-bit field and the two bytes of a 16-bit field,
    little-endian. *)
Definition u32_bytes (v : Z) : list Z :=
  [v mod 256; Z.shiftr v 8 mod 256; Z.shiftr v 16 mod 256; Z.shiftr v 24 mod 256].

Definition u16_bytes (v : Z) : list Z := [v mod 256; Z.shiftr v 8 mod 256].

(** The 44 bytes of the header, field by field. *)
Definition wavHeader (chunkSize sampleRate byteRate dataSize : Z) : list Z :=
  [82; 73; 70; 70] ++ u32_bytes chunkSize ++ [87; 65; 86; 69]
  ++ [102; 109; 116; 32] ++ u32_bytes 16 ++ u16_bytes 1 ++ u16_bytes 1
  ++ u32_bytes sampleRate ++ u32_bytes byteRate ++ u16_bytes 2 ++ u16_bytes 16
  ++ [100; 97; 116; 97] ++ u32_bytes dataSize.

(** The state of the random source after [k] calls. *)
Fixpoint rng_calls (entropy : nat -> number) (k : nat) (r : Rng) : Rng :=
  match k with
  | O => r
  | S k' => rng_calls entropy k' (snd (rng_call entropy r))
  end.

(** The binary64 number [z * 2^e], for an integer [z] of at most 53 bits
    and a value in the normal range. *)
Definition dyadicNumber (z e : Z) : number :=
  match z with
  | Z0 => S754_zero false
  | Zpos p => canon64 false p e
  | Zneg p => canon64 true p e
  end.

(** The sign bit of a Number (clear for NaN). *)
Definition signBit (x : number) : bool :=
  match x with
  | S754_zero s | S754_infinity s | S754_finite s _ _ => s
  | S754_nan => false
  end.

(* ================================================================== *)
(** * The generator of the web app ([makeLCG], [makeGaussian], [generateNoise]) *)
(* ================================================================== *)

(** [makeLCG(seed)]: the initial state [(seed | 0) || 123456789]. *)
Definition makeLCG (seed : Z) : Z :=
  let s := ToInt32 seed in
  if s =? 0 then 123456789 else s.

(** [rng.next()]: the value returned and the new state (the sum is a
    Number and is not wrapped; [Math.imul] wraps it at the next call). *)
Definition LCG_next (s : Z) : number * Z :=
  let s := imul 1664525 s + 1013904223 in
  (fdiv (of_Z (ToUint32 s)) (of_Z 4294967296), s).

(** [!x] on a Number. *)
Definition falsy (x : number) : bool :=
  match x with
  | S754_zero _ | S754_nan => true
  | _ => false
  end.

(** The [do ... while (!s || s >= 1)] loop of [makeGaussian], with at
    most [fuel] rounds: the accepted [u], [v], [s] and the new state. *)
Fixpoint polarPair (fuel : nat) (s : Z) : option (number * number * number * Z) :=
  match fuel with
  | O => None
  | S fuel' =>
      let '(r1, s1) := LCG_next s in
      let u := fsub (fmul two r1) one in
      let '(r2, s2) := LCG_next s1 in
      let v := fsub (fmul two r2) one in
      let q := fadd (fmul u u) (fmul v v) in
      if falsy q || fle one q then polarPair fuel' s2 else Some (u, v, q, s2)
  end.

(** The state of the closure [makeGaussian] returns. *)
Record GaussianState := { spare : option number; lcg : Z }.

(** One call of the closure [gaussian]. *)
Definition gaussianNext (m : Libm) (fuel : nat) (g : GaussianState)
  : option (number * GaussianState) :=
  match spare g with
  | Some val => Some (val, {| spare := None; lcg := lcg g |})
  | None =>
      '(u, v, q, s') ← polarPair fuel (lcg g);
      let mul := Math_sqrt (fdiv (fmul (of_Z (-2)) (libm_log m q)) q) in
      Some (fmul u mul, {| spare := Some (fmul v mul); lcg := s' |})
  end.

(** A text is the list of its UTF-16 code units. *)
Definition isDigit (c : Z) : bool := (48 <=? c) && (c <=? 57).

(** [/^-?\d+$/.test(str)] *)
Definition isIntegerText (str : list Z) : bool :=
  let body := match str with 45 :: rest => rest | _ => str end in
  match body with
  | [] => false
  | _ => forallb isDigit body
  end.

Definition digitsValue (body : list Z) : Z :=
  fold_left (fun acc c => 10 * acc + (c - 48)) body 0.

(** [Number(str)] for a text [isIntegerText] accepts. *)
Definition numberOfText (str : list Z) : number :=
  match str with
  | 45 :: rest => SFopp (of_Z (digitsValue rest))
  | _ => of_Z (digitsValue str)
  end.

(** The FNV-1a hash of [generateNoise], with its 32-bit signed steps. *)
Definition fnv1a (str : list Z) : Z :=
  let h := fold_left (fun h c => imul (Z.lxor (ToInt32 h) (ToInt32 c)) 16777619)
                     str (ToUint32 2166136261) in
  ToInt32 h.

(** The state [s] the generator is seeded with; [hostSeed] is what the
    host's entropy source gives when there is no seed ([undefined], [null]
    and the empty text), and a numeric seed stands for its decimal text. *)
Definition seedState (hostSeed : Z) (seed : option (list Z)) : Z :=
  match seed with
  | None | Some [] => ToInt32 hostSeed
  | Some str =>
      if isIntegerText str then Number_ToInt32 (numberOfText str) else fnv1a str
  end.

(** [for (let i = 0; i < N; i++) x[i] = gaussian();] *)
Fixpoint fillGaussian (m : Libm) (fuel : nat) (n : nat) (g : GaussianState)
  : option (list number) :=
  match n with
  | O => Some []
  | S n' =>
      '(v, g1) ← gaussianNext m fuel g;
      xs ← fillGaussian m fuel n' g1;
      Some (v :: xs)
  end.

(** [x[i]] of a [Float64Array] as an operand. *)
Definition read64 (x : list number) (i : nat) : number :=
  match x !! i with
  | Some v => v
  | None => S754_nan
  end.

(** The literals [0.7] and [1e-20]: the binary64 numbers nearest to 7/10
    and to 1/10^20. *)
Definition literal_0_7 : number := fdiv (of_Z 7) (of_Z 10).
Definition literal_1em20 : number := fdiv (of_Z 1) (of_Z (10 ^ 20)).

(** The phases of [generateNoise] after the samples are drawn: the ramp
    through the endpoints is subtracted, *)
Definition removeRamp (x : list number) : list number :=
  let n := length x in
  let a := read64 x 0 in
  let b := read64 x (n - 1) in
  let den := of_nat (n - 1) in
  imap (fun i xi =>
          let t := fdiv (of_nat i) den in
          let ramp := fadd (fmul (fsub one t) a) (fmul t b) in
          fsub xi ramp) x.

(** the second and the second-to-last sample are damped, *)
Definition soften (softenEdges : bool) (y : list number) : list number :=
  let n := length y in
  if softenEdges && (4 <=? n)%nat then
    let y := <[1%nat := fmul (read64 y 1) literal_0_7]> y in
    <[(n - 2)%nat := fmul (read64 y (n - 2)) literal_0_7]> y
  else y.

(** and the gain [g] is the target level over the measured RMS. *)
Definition gainOf (m : Libm) (rmsDBFS : number) (y : list number) : number :=
  let sum2 := fold_left (fun sum2 v => fadd sum2 (fmul v v)) y zero in
  let r := Math_sqrt (fdiv sum2 (of_nat (length y))) in
  let rms := if falsy r then literal_1em20 else r in
  let targetRMS := Math_pow m (of_Z 10) (fdiv rmsDBFS (of_Z 20)) in
  fdiv targetRMS rms.

Definition shapeNoise (m : Libm) (rmsDBFS : number) (softenEdges : bool) (x : list number)
  : list float32 :=
  let y := soften softenEdges (removeRamp x) in
  let g := gainOf m rmsDBFS y in
  (fun v => fround (fmul v g)) <$> y.

(** Whether the host grants the [k]-th typed-array allocation of a call,
    of [n] elements of [w] bytes each: [new Float64Array(n)] and
    [new Float32Array(n)] throw a [RangeError] when it does not.  The limit
    depends on the engine and on the memory at hand; nothing is assumed
    about it. *)
Definition Allocator := nat -> Z -> nat -> bool.

(** [generateNoise({ N, rmsDBFS, softenEdges, seed })]; [N] is integral,
    as every caller passes it.  The three arrays are allocated in the order
    of the source: [x] before the samples are drawn, [y] after, and [out]
    after the gain is computed. *)
Definition generateNoise (m : Libm) (alloc : Allocator) (hostSeed : Z) (fuel : nat)
    (N : integral) (rmsDBFS : number) (softenEdges : bool) (seed : option (list Z))
  : outcome (list float32) :=
  match N with
  | IntNaN | IntInf _ => Returned []
  | IntVal z =>
      if z <? 2 then Returned []
      else
        let s := seedState hostSeed seed in
        match ToIndex N with
        | None => Threw RangeError
        | Some n =>
            if negb (alloc 0%nat 8 n) then Threw RangeError
            else
              match fillGaussian m fuel n {| spare := None; lcg := makeLCG s |} with
              | None => OutOfFuel
              | Some x =>
                  if negb (alloc 1%nat 8 n) then Threw RangeError
                  else if negb (alloc 2%nat 4 n) then Threw RangeError
                  else Returned (shapeNoise m rmsDBFS softenEdges x)
              end
        end
  end.

(** A sequence of bytes with the two bytes of every pair exchanged. *)
Fixpoint swapPairs (bs : list Z) : list Z :=
  match bs with
  | a :: b :: rest => b :: a :: swapPairs rest
  | _ => bs
  end.

(** [effectiveN] of the component in the mode "samples":
    [Math.max(2, Number(samplesN) | 0)], applied to the Number
    [Number(samplesN)]. *)
Definition effectiveN_samples (x : number) : integral :=
  IntVal (Z.max 2 (Number_ToInt32 x)).

(** FNV-1a as it is usually stated, on unsigned 32-bit integers. *)
Definition fnv1a_reference (str : list Z) : Z :=
  fold_left (fun h c => (Z.lxor h c * 16777619) mod 2 ^ 32) str 2166136261.

(** A Number that is a zero, of either sign. *)
Definition isZero (x : number) : bool :=
  match x with
  | S754_zero _ => true
  | _ => false
  end.

(** A finite, well-formed binary64 number. *)
Definition finiteNumber (x : number) : bool :=
  Number_isFinite x && valid_binary 53 1024 x.

(* ================================================================== *)
(** * The controls of [App.tsx] *)
(* ================================================================== *)

Module App.

(** [clamp(v, min, max)] *)
Definition clamp (v min max : number) : number := Math_min max (Math_max min v).

(** [x || d] on Numbers. *)
Definition orElse (x d : number) : number := if falsy x then d else x.

(** The handlers of the two numeric inputs, applied to the Number
    [+e.target.value]: [clamp(x || 0, 8000, 384000)] for the sample rate
    and [clamp(x || -80, -150, 0)] for the target level. *)
Definition sampleRateInput (x : number) : number :=
  clamp (orElse x zero) (of_Z 8000) (of_Z 384000).

Definition targetRmsInput (x : number) : number :=
  clamp (orElse x (of_Z (-80))) (of_Z (-150)) zero.

End App.

(* ================================================================== *)
(** * Exact cases of the rounding of [SpecFloat] *)
(* ================================================================== *)

Lemma digits2_log2 m : Zpos (digits2_pos m) = Z.log2 (Zpos m) + 1.
Proof.
  induction m as [m IH|m IH|]; simpl; try reflexivity.
  - rewrite Pos2Z.inj_succ, IH. destruct m; simpl; lia.
  - rewrite Pos2Z.inj_succ, IH. destruct m; simpl; lia.
Qed.

Lemma Zdigits2_mul_pow2 m j :
  0 <= j -> Zdigits2 (Zpos m * 2 ^ j) = Zpos (digits2_pos m) + j.
Proof.
  intros Hj.
  assert (H : 0 < Zpos m * 2 ^ j) by (apply Z.mul_pos_pos; [lia | apply Z.pow_pos_nonneg; lia]).
  destruct (Zpos m * 2 ^ j) as [|q|q] eqn:E; try lia.
  simpl. rewrite digits2_log2, <- E, Z.log2_mul_pow2, digits2_log2 by lia. lia.
Qed.

Lemma digits2_bounds m : 2 ^ (Zpos (digits2_pos m) - 1) <= Zpos m < 2 ^ Zpos (digits2_pos m).
Proof.
  rewrite digits2_log2. replace (Z.log2 (Zpos m) + 1 - 1) with (Z.log2 (Zpos m)) by lia.
  replace (Z.log2 (Zpos m) + 1) with (Z.succ (Z.log2 (Zpos m))) by lia.
  apply Z.log2_spec. lia.
Qed.

Lemma pow2_xO p : 2 ^ Zpos p~0 = 2 ^ Zpos p * 2 ^ Zpos p.
Proof. replace (Zpos p~0) with (Zpos p + Zpos p) by lia. apply Z.pow_add_r; lia. Qed.

Lemma pow2_xI p : 2 ^ Zpos p~1 = 2 ^ Zpos p * 2 ^ Zpos p * 2.
Proof.
  replace (Zpos p~1) with (Zpos p + Zpos p + 1) by lia.
  rewrite !Z.pow_add_r by lia. reflexivity.
Qed.

Lemma pow2_pos j : 0 <= j -> 0 < 2 ^ j.
Proof. intros; apply Z.pow_pos_nonneg; lia. Qed.

Lemma iter_shr_exact p : forall z, 0 < z ->
  SpecFloat.iter_pos shr_1 p {| shr_m := z * 2 ^ Zpos p; shr_r := false; shr_s := false |}
  = {| shr_m := z; shr_r := false; shr_s := false |}.
Proof.
  induction p as [p IH|p IH|]; intros z Hz; simpl SpecFloat.iter_pos.
  - assert (Hp := pow2_pos (Zpos p) ltac:(lia)).
    replace (z * 2 ^ Zpos p~1) with ((z * 2 ^ Zpos p * 2 ^ Zpos p) * 2)
      by (rewrite pow2_xI; ring).
    assert (Hq : 0 < z * 2 ^ Zpos p * 2 ^ Zpos p) by nia.
    destruct (z * 2 ^ Zpos p * 2 ^ Zpos p) as [|q|q] eqn:E; try lia.
    replace (Zpos q * 2) with (Zpos q~0) by lia. simpl shr_1.
    rewrite <- E, IH, IH; auto. nia.
  - assert (Hp := pow2_pos (Zpos p) ltac:(lia)).
    replace (z * 2 ^ Zpos p~0) with ((z * 2 ^ Zpos p) * 2 ^ Zpos p)
      by (rewrite pow2_xO; ring).
    rewrite IH, IH; auto. nia.
  - destruct z as [|q|q]; try lia. replace (Zpos q * 2 ^ 1) with (Zpos q~0) by lia. reflexivity.
Qed.

Lemma shr_exact (z e j : Z) : 0 < z -> 0 <= j ->
  shr {| shr_m := z * 2 ^ j; shr_r := false; shr_s := false |} e j
  = ({| shr_m := z; shr_r := false; shr_s := false |}, e + j).
Proof.
  intros Hz Hj. destruct j as [|p|p]; try lia.
  - simpl. rewrite Z.mul_1_r, Z.add_0_r. reflexivity.
  - unfold shr. rewrite iter_shr_exact by assumption. reflexivity.
Qed.

(** Rounding a mantissa that ends in enough zeros removes them and nothing else. *)
Lemma binary_round_aux_exact s (m : positive) (e j : Z) :
  Zpos (digits2_pos m) = 53 -> 0 <= j -> -1074 <= e + j <= 971 ->
  binary_round_aux 53 1024 s (Zpos m * 2 ^ j) e loc_Exact = S754_finite s m (e + j).
Proof.
  intros Hd Hj He. unfold binary_round_aux, shr_fexp.
  rewrite Zdigits2_mul_pow2 by assumption. rewrite Hd.
  replace (fexp 53 1024 (53 + j + e) - e) with j by (unfold fexp, emin; lia).
  simpl shr_record_of_loc. rewrite shr_exact by lia.
  simpl shr_m. simpl loc_of_shr_record. simpl round_nearest_even.
  simpl Zdigits2. rewrite Hd.
  replace (fexp 53 1024 (53 + (e + j)) - (e + j)) with 0 by (unfold fexp, emin; lia).
  simpl. replace (e + j <=? 1024 - 53) with true by (symmetry; apply Z.leb_le; lia).
  reflexivity.
Qed.

Lemma pos_iter_xO (m k : positive) : Zpos (Pos.iter xO m k) = Zpos m * 2 ^ Zpos k.
Proof.
  revert m. induction k as [k IH|k IH|]; intros m; simpl Pos.iter.
  - rewrite Pos2Z.inj_xO, IH, IH, pow2_xI. ring.
  - rewrite IH, IH, pow2_xO. ring.
  - lia.
Qed.

Lemma binary_round_exact s m e :
  Zpos (digits2_pos m) <= 53 ->
  -1074 <= e - (53 - Zpos (digits2_pos m)) <= 971 ->
  binary_round 53 1024 s m e = canon64 s m e.
Proof.
  intros Hd He. unfold binary_round, canon64.
  set (d := Zpos (digits2_pos m)) in *.
  replace (fexp 53 1024 (d + e)) with (e - (53 - d)) by (unfold fexp, emin; lia).
  unfold shl_align.
  destruct (e - (53 - d) - e) as [|k|k] eqn:Ek; try lia.
  - assert (d = 53) by lia. replace (53 - d) with 0 by lia.
    rewrite Z.mul_1_r, Pos2Z.id.
    rewrite <- (Z.mul_1_r (Zpos m)). change 1 with (2 ^ 0).
    rewrite binary_round_aux_exact by (fold d; lia). f_equal; lia.
  - assert (Hk : 53 - d = Zpos k) by lia. rewrite Hk.
    rewrite <- pos_iter_xO, Pos2Z.id.
    rewrite <- (Z.mul_1_r (Zpos (Pos.iter xO m k))). change 1 with (2 ^ 0).
    rewrite binary_round_aux_exact; try lia.
    + f_equal; lia.
    + pose proof (Zdigits2_mul_pow2 m (Zpos k) ltac:(lia)) as Hz.
      rewrite <- pos_iter_xO in Hz. simpl Zdigits2 in Hz. fold d in Hz. lia.
Qed.
Lemma of_Z_pos u : 0 < u < 2 ^ 53 -> of_Z u = canon64 false (Z.to_pos u) 0.
Proof.
  intros Hu. destruct u as [|p|p]; try lia. unfold of_Z, binary_normalize.
  pose proof (digits2_bounds p) as Hb.
  assert (Hd : Zpos (digits2_pos p) <= 53).
  { destruct (Z.le_gt_cases (Zpos (digits2_pos p)) 53) as [H|H]; [exact H|].
    assert (2 ^ 53 <= 2 ^ (Zpos (digits2_pos p) - 1)) by (apply Z.pow_le_mono_r; lia). lia. }
  change (Z.to_pos (Zpos p)) with p. unfold prec64, emax64.
  apply binary_round_exact; lia.
Qed.

Lemma canon64_digits s m e M E :
  Zpos (digits2_pos m) <= 53 -> canon64 s m e = S754_finite s M E ->
  Zpos (digits2_pos M) = 53 /\ Zpos M = Zpos m * 2 ^ (53 - Zpos (digits2_pos m))
  /\ E = e - (53 - Zpos (digits2_pos m)).
Proof.
  intros Hd H. unfold canon64 in H. injection H as HM HE.
  assert (Hp : 0 < Zpos m * 2 ^ (53 - Zpos (digits2_pos m))).
  { pose proof (pow2_pos (53 - Zpos (digits2_pos m)) ltac:(lia)). nia. }
  assert (HM' : Zpos M = Zpos m * 2 ^ (53 - Zpos (digits2_pos m))).
  { rewrite <- HM. rewrite Z2Pos.id; [reflexivity | exact Hp]. }
  split; [|split; [exact HM' | lia]].
  pose proof (Zdigits2_mul_pow2 m (53 - Zpos (digits2_pos m)) ltac:(lia)) as Hz.
  rewrite <- HM' in Hz. simpl Zdigits2 in Hz. lia.
Qed.

Lemma div_eucl_exact a b q : 0 < b -> a = q * b -> Z.div_eucl a b = (q, 0).
Proof.
  intros Hb Ha. pose proof (Z.div_eucl_eq a b ltac:(lia)) as H.
  pose proof (Z.mod_pos_bound a b Hb) as Hm.
  unfold Z.modulo in Hm. destruct (Z.div_eucl a b) as [q' r'].
  assert (r' = 0 /\ q' = q) as [-> ->]; [|reflexivity].
  subst a. assert (b * (q - q') = r') by lia.
  assert (q - q' = 0) by nia. split; nia.
Qed.

(** Dividing a binary64 number by 2^32 lowers its exponent. *)
Lemma fdiv_pow32 s M E :
  Zpos (digits2_pos M) = 53 -> -1000 <= E <= 971 ->
  fdiv (S754_finite s M E) (of_Z 4294967296) = S754_finite s M (E - 32).
Proof.
  intros Hd HE.
  change (of_Z 4294967296) with (S754_finite false 4503599627370496 (-20)).
  unfold fdiv, SFdiv, SFdiv_core_binary.
  change (Zdigits2 (Zpos 4503599627370496)) with 53.
  simpl Zdigits2. rewrite Hd. unfold prec64, emax64.
  replace (Z.min (fexp 53 1024 (53 + E - (53 + -20))) (E - -20)) with (E - 33)
    by (unfold fexp, emin; lia).
  replace (E - -20 - (E - 33)) with 53 by lia.
  rewrite Z.shiftl_mul_pow2 by lia.
  rewrite (div_eucl_exact _ _ (Zpos M * 2 ^ 1)).
  - change (new_location 4503599627370496 0) with loc_Exact.
    rewrite binary_round_aux_exact by lia.
    rewrite xorb_false_r. f_equal. lia.
  - lia.
  - change (2 ^ 53) with (2 ^ 1 * 4503599627370496). ring.
Qed.

Lemma u32_fraction_nonzero u :
  0 < u < 2 ^ 32 -> strict_eq (fdiv (of_Z u) (of_Z 4294967296)) zero = false.
Proof.
  intros Hu. rewrite of_Z_pos by lia.
  pose proof (digits2_bounds (Z.to_pos u)) as Hb. rewrite Z2Pos.id in Hb by lia.
  assert (Hd : Zpos (digits2_pos (Z.to_pos u)) <= 32).
  { destruct (Z.le_gt_cases (Zpos (digits2_pos (Z.to_pos u))) 32) as [H|H]; [exact H|].
    assert (2 ^ 32 <= 2 ^ (Zpos (digits2_pos (Z.to_pos u)) - 1)) by (apply Z.pow_le_mono_r; lia). lia. }
  destruct (canon64 false (Z.to_pos u) 0) as [| | |s M E] eqn:Ec; try discriminate.
  assert (s = false) as -> by (unfold canon64 in Ec; congruence).
  apply canon64_digits in Ec; [|lia]. destruct Ec as (HdM & _ & HE).
  rewrite fdiv_pow32 by lia. reflexivity.
Qed.

(* ================================================================== *)
(** * mulberry32 returns 0 only when its counter is 0 *)
(* ================================================================== *)

Lemma ToUint32_range z : 0 <= ToUint32 z < 2 ^ 32.
Proof. unfold ToUint32. apply Z.mod_pos_bound. reflexivity. Qed.

Lemma ToInt32_range z : - 2 ^ 31 <= ToInt32 z < 2 ^ 31.
Proof.
  unfold ToInt32. pose proof (Z.mod_pos_bound (z + 2 ^ 31) (2 ^ 32) eq_refl). lia.
Qed.

Lemma ToUint32_ToInt32 z : ToUint32 (ToInt32 z) = ToUint32 z.
Proof.
  unfold ToUint32, ToInt32.
  change (2 ^ 32) with 4294967296. change (2 ^ 31) with 2147483648.
  Z.div_mod_to_equations. lia.
Qed.

Lemma ToInt32_small z : - 2 ^ 31 <= z < 2 ^ 31 -> ToInt32 z = z.
Proof.
  intros H. unfold ToInt32. rewrite Z.mod_small; lia.
Qed.

Lemma int32_zero z : - 2 ^ 31 <= z < 2 ^ 31 -> ToUint32 z = 0 -> z = 0.
Proof.
  unfold ToUint32. change (2 ^ 32) with 4294967296. change (2 ^ 31) with 2147483648.
  intros H H0. Z.div_mod_to_equations. lia.
Qed.

Lemma ToUint32_land z : ToUint32 z = Z.land z (Z.ones 32).
Proof. unfold ToUint32. rewrite Z.land_ones by lia. reflexivity. Qed.

Lemma land_lxor_distr a b c :
  Z.land (Z.lxor a b) c = Z.lxor (Z.land a c) (Z.land b c).
Proof.
  apply Z.bits_inj'. intros n _.
  rewrite Z.lxor_spec, !Z.land_spec, Z.lxor_spec.
  destruct (Z.testbit a n), (Z.testbit b n), (Z.testbit c n); reflexivity.
Qed.

Lemma ToUint32_lxor a b :
  ToUint32 (Z.lxor a b) = 0 -> ToUint32 a = ToUint32 b.
Proof.
  rewrite !ToUint32_land. intros H. apply Z.lxor_eq.
  rewrite <- H. symmetry. apply land_lxor_distr.
Qed.

(** [t ^ (t >>> k)] determines [t]: it is 0 only for [t = 0]. *)
Lemma xorshift_zero t k :
  0 < k -> ToUint32 (Z.lxor t (ushr t k)) = 0 -> ToUint32 t = 0.
Proof.
  intros Hk H. apply ToUint32_lxor in H.
  pose proof (ToUint32_range t) as Ht. unfold ushr in H.
  set (T := ToUint32 t) in *.
  assert (Hs : 0 <= Z.shiftr T k <= T / 2).
  { rewrite Z.shiftr_div_pow2 by lia. split; [apply Z.div_pos; [lia | apply pow2_pos; lia]|].
    assert (2 ^ 1 <= 2 ^ k) by (apply Z.pow_le_mono_r; lia).
    apply Z.div_le_compat_l; lia. }
  assert (Hu : ToUint32 (Z.shiftr T k) = Z.shiftr T k).
  { unfold ToUint32. apply Z.mod_small. split; [lia|].
    assert (T / 2 <= T) by (apply Z.div_le_upper_bound; lia). lia. }
  rewrite Hu in H. assert (T / 2 < T \/ T = 0) as [Hlt | H0]; [|lia|exact H0].
  destruct (Z.eq_dec T 0); [right; assumption | left; apply Z.div_lt; lia].
Qed.

Lemma odd_factor_pow2 y (k : nat) :
  Z.odd y = true -> forall x, (2 ^ Z.of_nat k | x * y) -> (2 ^ Z.of_nat k | x).
Proof.
  intros Hy. induction k as [|k IH]; intros x H.
  - apply Z.divide_1_l.
  - rewrite Nat2Z.inj_succ, Z.pow_succ_r in * by lia.
    assert (Hx : Z.even x = true).
    { destruct H as [c Hc].
      assert (He : Z.even (x * y) = true) by (rewrite Hc, Z.even_mul, Z.even_mul; simpl; apply orb_true_r).
      rewrite Z.even_mul in He. rewrite <- (Z.negb_odd y), Hy in He. simpl in He.
      rewrite orb_false_r in He. exact He. }
    apply Z.even_spec in Hx. destruct Hx as [x' ->].
    apply Z.mul_divide_mono_l. apply IH.
    destruct H as [c Hc]. exists c. nia.
Qed.

(** A product by an odd number is 0 modulo 2^32 only when the other
    factor is. *)
Lemma imul_odd_zero x y :
  Z.odd y = true -> ToUint32 (imul x y) = 0 -> ToUint32 x = 0.
Proof.
  intros Hy H. unfold imul in H. rewrite ToUint32_ToInt32 in H. unfold ToUint32 in *.
  apply Z.mod_divide in H; [|discriminate]. apply Z.mod_divide; [discriminate|].
  apply (odd_factor_pow2 y 32 Hy). exact H.
Qed.

Lemma lor_odd k t : Z.odd k = true -> Z.odd (Z.lor k t) = true.
Proof.
  rewrite <- !Z.bit0_odd, Z.lor_spec. intros ->. reflexivity.
Qed.

Lemma mulberry32_zero a :
  strict_eq (fst (mulberry32 a)) zero = true -> snd (mulberry32 a) = 0.
Proof.
  unfold mulberry32. cbv zeta. cbn [fst snd].
  set (a1 := ToInt32 (ToInt32 a + 1831565813)).
  set (t1 := imul (Z.lxor a1 (ushr a1 15)) (Z.lor 1 a1)).
  set (t2 := Z.lxor (ToInt32 (t1 + imul (Z.lxor t1 (ushr t1 7)) (Z.lor 61 t1))) t1).
  set (u := ToUint32 (Z.lxor t2 (ushr t2 14))).
  intros H.
  assert (Hu : u = 0).
  { pose proof (ToUint32_range (Z.lxor t2 (ushr t2 14))) as Hr. fold u in Hr.
    destruct (Z.eq_dec u 0) as [|Hn]; [assumption|].
    rewrite u32_fraction_nonzero in H by lia. discriminate. }
  apply xorshift_zero in Hu; [|lia].
  unfold t2 in Hu. apply ToUint32_lxor in Hu. rewrite ToUint32_ToInt32 in Hu.
  assert (Hw : ToUint32 (imul (Z.lxor t1 (ushr t1 7)) (Z.lor 61 t1)) = 0).
  { revert Hu. unfold ToUint32. change (2 ^ 32) with 4294967296.
    generalize (imul (Z.lxor t1 (ushr t1 7)) (Z.lor 61 t1)). intros w Hw.
    Z.div_mod_to_equations. lia. }
  apply imul_odd_zero in Hw; [|apply lor_odd; reflexivity].
  apply xorshift_zero in Hw; [|lia].
  unfold t1 in Hw. apply imul_odd_zero in Hw; [|apply lor_odd; reflexivity].
  apply xorshift_zero in Hw; [|lia].
  apply int32_zero; [apply ToInt32_range | exact Hw].
Qed.

(** After a call that returned 0 the next call does not. *)
Lemma mulberry32_after_zero :
  strict_eq (fst (mulberry32 0)) zero = false.
Proof. vm_compute. reflexivity. Qed.

(* ================================================================== *)
(** * Termination of the sampling loops *)
(* ================================================================== *)

Lemma draw_nonzero_done entropy fuel u r :
  strict_eq u zero = false -> draw_nonzero entropy fuel u r = Some (u, r).
Proof. intros H. destruct fuel; simpl; rewrite H; reflexivity. Qed.

(** With mulberry32 each [while] loop of [randomGaussian] calls the
    generator at most twice. *)
Lemma draw_nonzero_seeded entropy fuel u a :
  (2 <= fuel)%nat ->
  exists u' a', draw_nonzero entropy fuel u (Mulberry32 a) = Some (u', Mulberry32 a').
Proof.
  intros Hf. destruct fuel as [|[|fuel]]; try lia.
  destruct (strict_eq u zero) eqn:Hu; [|rewrite draw_nonzero_done by assumption; eauto].
  cbn [draw_nonzero]. rewrite Hu. unfold rng_call at 1.
  pose proof (mulberry32_zero a) as Hz.
  destruct (mulberry32 a) as [x1 a1]. cbn [fst snd] in Hz.
  destruct (strict_eq x1 zero) eqn:Hx1.
  - rewrite (Hz eq_refl). unfold rng_call.
    pose proof mulberry32_after_zero as Hn.
    destruct (mulberry32 0) as [x2 a2]. cbn [fst] in Hn.
    rewrite draw_nonzero_done by assumption. eauto.
  - eauto.
Qed.

Lemma randomGaussian_seeded m entropy fuel a :
  (2 <= fuel)%nat ->
  exists x a', randomGaussian m entropy fuel (Mulberry32 a) = Some (x, Mulberry32 a').
Proof.
  intros Hf. unfold randomGaussian.
  destruct (draw_nonzero_seeded entropy fuel zero a Hf) as (u & a1 & ->).
  cbn [mbind option_bind].
  destruct (draw_nonzero_seeded entropy fuel zero a1 Hf) as (v & a2 & ->).
  cbn. eauto.
Qed.

Lemma fill_gaussian_seeded m entropy fuel n : forall a,
  (2 <= fuel)%nat ->
  exists xs a', fill (randomGaussian m entropy fuel) n (Mulberry32 a) = Some (xs, Mulberry32 a').
Proof.
  induction n as [|n IH]; intros a Hf; cbn [fill]; [eauto|].
  destruct (randomGaussian_seeded m entropy fuel a Hf) as (x & a1 & ->).
  cbn [mbind option_bind].
  destruct (IH a1 Hf) as (xs & a2 & ->). cbn. eauto.
Qed.

Lemma randomUniform_total entropy r :
  exists x r', randomUniform entropy r = Some (x, r').
Proof. unfold randomUniform. destruct (rng_call entropy r). eauto. Qed.

Lemma fill_uniform_total entropy n : forall r,
  exists xs r', fill (randomUniform entropy) n r = Some (xs, r').
Proof.
  induction n as [|n IH]; intros r; cbn [fill]; [eauto|].
  destruct (randomUniform_total entropy r) as (x & r1 & ->).
  cbn [mbind option_bind].
  destruct (IH r1) as (xs & r2 & ->). cbn. eauto.
Qed.

Lemma fill_length sample n : forall r xs r',
  fill sample n r = Some (xs, r') -> length xs = n.
Proof.
  induction n as [|n IH]; intros r xs r' H; cbn [fill] in H.
  - injection H as <- _. reflexivity.
  - destruct (sample r) as [[x r1]|]; [|discriminate]. cbn in H.
    destruct (fill sample n r1) as [[ys r2]|] eqn:E; [|discriminate]. cbn in H.
    injection H as <- _. cbn. f_equal. eapply IH; eassumption.
Qed.

(* ================================================================== *)
(** * Lengths *)
(* ================================================================== *)

Lemma detrendLinearInPlace_length data :
  length (detrendLinearInPlace data) = length data.
Proof.
  unfold detrendLinearInPlace.
  destruct (length data <? 2)%nat; [destruct (length data =? 1)%nat|].
  - apply length_insert.
  - reflexivity.
  - rewrite !length_insert. apply length_imap.
Qed.

Lemma removeMeanInPlace_length data :
  length (removeMeanInPlace data) = length data.
Proof.
  unfold removeMeanInPlace. destruct (length data =? 0)%nat; [reflexivity|].
  apply length_fmap.
Qed.

Lemma normalize_length m opts out : length (normalize m opts out) = length out.
Proof.
  unfold normalize.
  set (scaled := if flt zero (rms out) && _ then _ else _).
  assert (Hs : length scaled = length out).
  { unfold scaled. destruct (flt zero (rms out) && _); apply length_fmap. }
  clearbody scaled.
  set (clipped := if flt one (peakOf scaled) then _ else _).
  assert (Hc : length clipped = length out).
  { unfold clipped. destruct (flt one (peakOf scaled)); [rewrite length_fmap|]; exact Hs. }
  clearbody clipped.
  destruct (default true (zeroEndpoints opts) && _); [|exact Hc].
  destruct (1 <? length out)%nat; rewrite ?length_insert; exact Hc.
Qed.

Lemma rawNoise_length m entropy fuel n opts out :
  rawNoise m entropy fuel n opts = Some out -> length out = n.
Proof.
  unfold rawNoise. intros H.
  destruct (match default gaussian (distribution opts) with
            | gaussian => _ | uniform => _ end) as [[xs r]|] eqn:E; [|discriminate].
  cbn in H. injection H as <-.
  assert (Hx : length xs = n).
  { destruct (default gaussian (distribution opts)); eapply fill_length; eassumption. }
  destruct (default true (dcRemoval opts)); rewrite ?removeMeanInPlace_length;
    destruct (default true (zeroEndpoints opts)); rewrite ?detrendLinearInPlace_length; exact Hx.
Qed.

(* ================================================================== *)
(** * The generator returns *)
(* ================================================================== *)

Lemma rawNoise_total m entropy fuel n opts :
  boundedLoops opts -> (2 <= fuel)%nat ->
  exists out, rawNoise m entropy fuel n opts = Some out.
Proof.
  intros Hb Hf. unfold rawNoise.
  assert (exists xs r,
    match default gaussian (distribution opts) with
    | gaussian => fill (randomGaussian m entropy fuel) n (createRng (seed opts))
    | uniform => fill (randomUniform entropy) n (createRng (seed opts))
    end = Some (xs, r)) as (xs & r & ->).
  { destruct (default gaussian (distribution opts)) eqn:Ed.
    - destruct Hb as [[s Hs] | Hu]; [|rewrite Hu in Ed; discriminate].
      rewrite Hs. cbn [createRng].
      destruct (fill_gaussian_seeded m entropy fuel n (Number_ToUint32 s) Hf) as (xs & a' & ->).
      eauto.
    - apply fill_uniform_total. }
  cbn. eauto.
Qed.

Lemma generate_returns m entropy fuel opts n :
  validRate opts = true -> requestedLength opts = Some n ->
  boundedLoops opts -> (2 <= fuel)%nat ->
  exists buf, generateEndpointConstrainedWhiteNoise m entropy fuel opts = Returned buf.
Proof.
  intros Hr Hn Hb Hf. unfold generateEndpointConstrainedWhiteNoise.
  unfold validRate in Hr. apply andb_true_iff in Hr as [Hr1 Hr2].
  rewrite Hr1. apply negb_true_iff in Hr2. rewrite Hr2. cbn [negb orb].
  unfold requestedLength in Hn. rewrite Hn.
  destruct (rawNoise_total m entropy fuel n opts Hb Hf) as (out & ->). eauto.
Qed.

Lemma generate_returned m entropy fuel opts buf :
  generateEndpointConstrainedWhiteNoise m entropy fuel opts = Returned buf ->
  validRate opts = true /\
  exists out, rawNoise m entropy fuel (length buf) opts = Some out
              /\ requestedLength opts = Some (length buf)
              /\ length out = length buf
              /\ buf = normalize m opts out.
Proof.
  unfold generateEndpointConstrainedWhiteNoise, validRate, requestedLength. intros H.
  destruct (Number_isFinite (sampleRate opts)); [|discriminate].
  destruct (fle (sampleRate opts) zero); [discriminate|]. cbn [negb orb] in H.
  split; [reflexivity|].
  destruct (ToIndex _) as [n|]; [|discriminate].
  destruct (rawNoise m entropy fuel n opts) as [out|] eqn:E; [|discriminate].
  injection H as <-. pose proof (rawNoise_length _ _ _ _ _ _ E) as Hl.
  rewrite normalize_length, Hl. eauto 6.
Qed.

(* ================================================================== *)
(** * The endpoints *)
(* ================================================================== *)

Lemma detrendLinearInPlace_endpoints data :
  (2 <= length data)%nat ->
  detrendLinearInPlace data !! 0%nat = Some zero
  /\ detrendLinearInPlace data !! (length data - 1)%nat = Some zero.
Proof.
  intros Hn. unfold detrendLinearInPlace.
  destruct (Nat.ltb_spec (length data) 2); [lia|].
  split.
  - rewrite list_lookup_insert_ne by lia.
    apply list_lookup_insert_eq. rewrite length_imap. lia.
  - apply list_lookup_insert_eq. rewrite length_insert, length_imap. lia.
Qed.

Lemma normalize_endpoints m opts out :
  default true (zeroEndpoints opts) = true -> (1 <= length out)%nat ->
  normalize m opts out !! 0%nat = Some zero
  /\ normalize m opts out !! (length out - 1)%nat = Some zero.
Proof.
  intros Hz Hn. unfold normalize.
  set (scaled := if flt zero (rms out) && _ then _ else _).
  assert (Hs : length scaled = length out).
  { unfold scaled. destruct (flt zero (rms out) && _); apply length_fmap. }
  clearbody scaled.
  set (clipped := if flt one (peakOf scaled) then _ else _).
  assert (Hc : length clipped = length out).
  { unfold clipped. destruct (flt one (peakOf scaled)); [rewrite length_fmap|]; exact Hs. }
  clearbody clipped.
  rewrite Hz. destruct (Nat.leb_spec 1 (length out)); [|lia]. cbn [andb].
  destruct (Nat.ltb_spec 1 (length out)).
  - split.
    + rewrite list_lookup_insert_ne by lia. apply list_lookup_insert_eq. lia.
    + apply list_lookup_insert_eq. rewrite length_insert. lia.
  - replace (length out - 1)%nat with 0%nat by lia.
    split; apply list_lookup_insert_eq; lia.
Qed.

(** C1.  With [zeroEndpoints] (the default) and at least two samples, the
    first and the last sample of the buffer the generator returns are
    exactly 0, whatever the seed, the distribution, the target level, the
    removal of the mean and the host's arithmetic; the generator does
    return when the request is seeded or uniform; and
    [detrendLinearInPlace] itself assigns 0 to both endpoints of any array
    of at least two elements, whatever the subtraction gives. *)
Theorem C1_endpoints_exactly_zero m entropy fuel opts n :
  validRate opts = true -> requestedLength opts = Some n -> (2 <= n)%nat ->
  default true (zeroEndpoints opts) = true ->
  (forall buf, generateEndpointConstrainedWhiteNoise m entropy fuel opts = Returned buf ->
     length buf = n /\ buf !! 0%nat = Some zero /\ buf !! (n - 1)%nat = Some zero)
  /\ (boundedLoops opts -> (2 <= fuel)%nat ->
      exists buf, generateEndpointConstrainedWhiteNoise m entropy fuel opts = Returned buf)
  /\ (forall data : list float32, (2 <= length data)%nat ->
      detrendLinearInPlace data !! 0%nat = Some zero
      /\ detrendLinearInPlace data !! (length data - 1)%nat = Some zero).
Proof.
  intros Hr Hn H2 Hz. split; [|split].
  - intros buf Hb. apply generate_returned in Hb as (_ & out & _ & Hreq & Hlen & Hbuf).
    rewrite Hn in Hreq. injection Hreq as Hreq.
    split; [congruence|].
    rewrite Hbuf, Hreq, <- Hlen. apply normalize_endpoints; [assumption | lia].
  - intros Hb Hf. eapply generate_returns; eassumption.
  - apply detrendLinearInPlace_endpoints.
Qed.

Lemma C1_witness :
  (forall buf, generateEndpointConstrainedWhiteNoise coarseLibm halves 2 (request 100 gaussian) = Returned buf ->
     length buf = 100%nat /\ buf !! 0%nat = Some zero /\ buf !! 99%nat = Some zero)
  /\ (boundedLoops (request 100 gaussian) -> (2 <= 2)%nat ->
      exists buf, generateEndpointConstrainedWhiteNoise coarseLibm halves 2 (request 100 gaussian) = Returned buf)
  /\ (forall data : list float32, (2 <= length data)%nat ->
      detrendLinearInPlace data !! 0%nat = Some zero
      /\ detrendLinearInPlace data !! (length data - 1)%nat = Some zero).
Proof.
  apply (C1_endpoints_exactly_zero coarseLibm halves 2 (request 100 gaussian) 100);
    [reflexivity | reflexivity | lia | reflexivity].
Defined.

(* ================================================================== *)
(** * The sample count *)
(* ================================================================== *)

Lemma Math_floor_of_Z N : 0 <= N < 2 ^ 53 -> Math_floor (of_Z N) = IntVal N.
Proof.
  intros HN. destruct (Z.eq_dec N 0) as [->|Hn]; [reflexivity|].
  rewrite of_Z_pos by lia. unfold canon64, Math_floor.
  set (d := Zpos (digits2_pos (Z.to_pos N))).
  rewrite (Z2Pos.id N) by lia.
  pose proof (digits2_bounds (Z.to_pos N)) as Hb. rewrite (Z2Pos.id N) in Hb by lia. fold d in Hb.
  assert (Hd : d <= 53).
  { destruct (Z.le_gt_cases d 53) as [H|H]; [exact H|].
    assert (2 ^ 53 <= 2 ^ (d - 1)) by (apply Z.pow_le_mono_r; lia). lia. }
  pose proof (pow2_pos (53 - d) ltac:(lia)) as Hp.
  cbn [cond_Zopp]. rewrite Z2Pos.id by nia.
  f_equal. replace (0 - (53 - d)) with (- (53 - d)) by lia.
  rewrite Z.shiftl_opp_r, Z.shiftr_div_pow2 by lia.
  apply Z.div_mul. lia.
Qed.

Lemma requestedLength_of_Z opts N :
  0 <= N < 2 ^ 53 -> sampleCount opts = of_Z N ->
  requestedLength opts = Some (Z.to_nat N).
Proof.
  intros HN Hc. unfold requestedLength. rewrite Hc, Math_floor_of_Z by assumption.
  cbn [Math_max0 ToIndex]. rewrite Z.max_r by lia.
  replace (0 <=? N) with true by (symmetry; apply Z.leb_le; lia).
  replace (N <=? 2 ^ 53 - 1) with true by (symmetry; apply Z.leb_le; lia).
  reflexivity.
Qed.

(** C2.  For a sample count N (an integer a Number holds exactly), a
    returned buffer has exactly N samples, also for N = 0 and N = 1; with
    [zeroEndpoints] and N = 1 the single sample is 0; and the generator
    does return when the rate is valid and the request is seeded or
    uniform. *)
Theorem C2_length_is_sampleCount m entropy fuel opts N :
  0 <= N < 2 ^ 53 -> sampleCount opts = of_Z N ->
  (forall buf, generateEndpointConstrainedWhiteNoise m entropy fuel opts = Returned buf ->
     length buf = Z.to_nat N
     /\ (N = 1 -> default true (zeroEndpoints opts) = true -> buf = [zero]))
  /\ (validRate opts = true -> boundedLoops opts -> (2 <= fuel)%nat ->
      exists buf, generateEndpointConstrainedWhiteNoise m entropy fuel opts = Returned buf).
Proof.
  intros HN Hc. pose proof (requestedLength_of_Z opts N HN Hc) as Hreq. split.
  - intros buf Hb. apply generate_returned in Hb as (_ & out & _ & Hreq' & Hlen & Hbuf).
    rewrite Hreq in Hreq'. injection Hreq' as Hl. split; [congruence|].
    intros -> Hz. change (Z.to_nat 1) with 1%nat in Hl.
    destruct (normalize_endpoints m opts out Hz ltac:(lia)) as [H0 _].
    rewrite <- Hbuf in H0. destruct buf as [|x [|y buf]]; try discriminate.
    cbn in H0. congruence.
  - intros Hr Hb Hf. eapply generate_returns; eassumption.
Qed.

Lemma C2_witness :
  (forall buf, generateEndpointConstrainedWhiteNoise coarseLibm halves 2 (request 1 gaussian) = Returned buf ->
     length buf = Z.to_nat 1
     /\ (1 = 1 -> default true (zeroEndpoints (request 1 gaussian)) = true -> buf = [zero]))
  /\ (validRate (request 1 gaussian) = true -> boundedLoops (request 1 gaussian) -> (2 <= 2)%nat ->
      exists buf, generateEndpointConstrainedWhiteNoise coarseLibm halves 2 (request 1 gaussian) = Returned buf).
Proof.
  apply (C2_length_is_sampleCount coarseLibm halves 2 (request 1 gaussian) 1);
    [lia | reflexivity].
Defined.

(* ================================================================== *)
(** * Validation *)
(* ================================================================== *)

Lemma rawNoise_empty m entropy fuel opts : rawNoise m entropy fuel 0 opts = Some [].
Proof.
  unfold rawNoise.
  destruct (default gaussian (distribution opts)); cbn [fill mbind option_bind];
    destruct (default true (zeroEndpoints opts)), (default true (dcRemoval opts)); reflexivity.
Qed.

Lemma normalize_empty m opts : normalize m opts [] = [].
Proof.
  unfold normalize. cbn [length rms Nat.eqb].
  change (flt zero zero) with false. cbn [andb fmap list_fmap peakOf fold_left].
  change (flt one zero) with false. cbn [Nat.leb andb]. rewrite andb_false_r. reflexivity.
Qed.

Lemma negative_floor x : flt x zero = true -> Math_max0 (Math_floor x) = IntVal 0.
Proof.
  destruct x as [s|[|]| |[|] m e]; try discriminate; try reflexivity.
  intros _. cbn [Math_floor Math_max0 cond_Zopp Z.opp]. f_equal.
  apply Z.max_l. assert (H : ~ 0 <= Z.shiftl (- Z.pos m) e); [|lia].
  rewrite Z.shiftl_nonneg. lia.
Qed.

(** C4.  With a valid rate: a count that is negative, [-Infinity] or NaN
    gives the empty buffer and no exception; but the count [+Infinity]
    reaches [new Float32Array(Infinity)], which throws a [RangeError]. *)
Theorem C4_infinite_count_throws m entropy fuel opts :
  validRate opts = true ->
  (sampleCount opts = S754_infinity false ->
     generateEndpointConstrainedWhiteNoise m entropy fuel opts = Threw RangeError)
  /\ (flt (sampleCount opts) zero = true \/ sampleCount opts = S754_nan ->
     generateEndpointConstrainedWhiteNoise m entropy fuel opts = Returned []).
Proof.
  intros Hr. unfold validRate in Hr. apply andb_true_iff in Hr as [Hr1 Hr2].
  apply negb_true_iff in Hr2. unfold generateEndpointConstrainedWhiteNoise.
  rewrite Hr1, Hr2. cbn [negb orb]. split.
  - intros ->. reflexivity.
  - intros H.
    assert (Hn : ToIndex (Math_max0 (Math_floor (sampleCount opts))) = Some 0%nat).
    { destruct H as [H | ->]; [rewrite negative_floor by assumption|]; reflexivity. }
    rewrite Hn, rawNoise_empty, normalize_empty. reflexivity.
Qed.

Lemma C4_witness :
  (sampleCount (withCount (S754_infinity false) (request 5 uniform)) = S754_infinity false ->
     generateEndpointConstrainedWhiteNoise coarseLibm halves 2
       (withCount (S754_infinity false) (request 5 uniform)) = Threw RangeError)
  /\ (flt (sampleCount (withCount (S754_infinity false) (request 5 uniform))) zero = true
      \/ sampleCount (withCount (S754_infinity false) (request 5 uniform)) = S754_nan ->
     generateEndpointConstrainedWhiteNoise coarseLibm halves 2
       (withCount (S754_infinity false) (request 5 uniform)) = Returned []).
Proof.
  apply (C4_infinite_count_throws coarseLibm halves 2
           (withCount (S754_infinity false) (request 5 uniform))).
  reflexivity.
Defined.

(** C5.  The generator throws the validation error exactly when
    [sampleRate] is not finite or is at most 0, whatever the rest of the
    request, the host and the fuel: nothing is generated before the
    check, and a positive finite rate never raises this error. *)
Theorem C5_sampleRate_validation m entropy fuel opts :
  generateEndpointConstrainedWhiteNoise m entropy fuel opts = Threw (Error sampleRateMessage)
  <-> (Number_isFinite (sampleRate opts) = false \/ fle (sampleRate opts) zero = true).
Proof.
  unfold generateEndpointConstrainedWhiteNoise.
  destruct (Number_isFinite (sampleRate opts)), (fle (sampleRate opts) zero); cbn [negb orb];
    try (split; [auto | reflexivity]).
  split; [|intros [H|H]; discriminate].
  destruct (ToIndex _); [destruct (rawNoise _ _ _ _ _)|]; discriminate.
Qed.

(* ================================================================== *)
(** * Degenerate RMS *)
(* ================================================================== *)

Lemma fmap_const_zero (out : list float32) :
  (fun _ : float32 => zero) <$> out = replicate (length out) zero.
Proof. induction out as [|x out IH]; cbn; [reflexivity | f_equal; exact IH]. Qed.

Lemma peakOf_zeros k : peakOf (replicate k zero) = zero.
Proof.
  unfold peakOf. induction k as [|k IH]; [reflexivity|].
  cbn [replicate fold_left]. exact IH.
Qed.

(** When the RMS is zero or not finite the normalization silences the
    buffer. *)
Lemma normalize_degenerate m opts out :
  strict_eq (rms out) zero = true \/ Number_isFinite (rms out) = false ->
  normalize m opts out = replicate (length out) zero.
Proof.
  intros H. unfold normalize.
  assert (Hc : flt zero (rms out) && Number_isFinite (rms out) = false).
  { destruct H as [H | H]; [|rewrite H; apply andb_false_r].
    destruct (rms out) as [s|s| |s mm e]; try reflexivity; destruct s; discriminate. }
  rewrite Hc, fmap_const_zero, peakOf_zeros. change (flt one zero) with false. cbv iota.
  destruct (default true (zeroEndpoints opts) && _); [|reflexivity].
  destruct (1 <? length out)%nat; rewrite ?insert_replicate; reflexivity.
Qed.

(** C6.  When the RMS computed in the normalization step is zero or not
    finite, the generator returns (no error is raised) and the buffer is
    all zeros: no sample is NaN or infinite. *)
Theorem C6_degenerate_rms_is_silence m entropy fuel opts n out :
  validRate opts = true -> requestedLength opts = Some n ->
  rawNoise m entropy fuel n opts = Some out ->
  strict_eq (rms out) zero = true \/ Number_isFinite (rms out) = false ->
  generateEndpointConstrainedWhiteNoise m entropy fuel opts = Returned (replicate n zero).
Proof.
  intros Hr Hn Ho Hd. unfold generateEndpointConstrainedWhiteNoise.
  unfold validRate in Hr. apply andb_true_iff in Hr as [Hr1 Hr2].
  apply negb_true_iff in Hr2. rewrite Hr1, Hr2. cbn [negb orb].
  unfold requestedLength in Hn. rewrite Hn, Ho, normalize_degenerate by assumption.
  rewrite (rawNoise_length _ _ _ _ _ _ Ho). reflexivity.
Qed.

Lemma C6_witness :
  generateEndpointConstrainedWhiteNoise coarseLibm halves 2 (request 2 uniform)
  = Returned (replicate 2 zero).
Proof.
  apply (C6_degenerate_rms_is_silence coarseLibm halves 2 (request 2 uniform) 2 [zero; zero]);
    [reflexivity | reflexivity | reflexivity | left; reflexivity].
Defined.

(* ================================================================== *)
(** * Two samples *)
(* ================================================================== *)

Lemma detrend_two x y : detrendLinearInPlace [x; y] = [zero; zero].
Proof. reflexivity. Qed.

Lemma rawNoise_two m entropy fuel opts out :
  default true (zeroEndpoints opts) = true ->
  rawNoise m entropy fuel 2 opts = Some out -> out = [zero; zero].
Proof.
  intros Hz H. unfold rawNoise in H. rewrite Hz in H.
  destruct (match default gaussian (distribution opts) with
            | gaussian => _ | uniform => _ end) as [[xs r]|] eqn:E; [|discriminate].
  assert (Hx : length xs = 2%nat).
  { destruct (default gaussian (distribution opts)); eapply fill_length; eassumption. }
  destruct xs as [|x [|y [|z xs]]]; try discriminate.
  cbn [mbind option_bind] in H. rewrite detrend_two in H.
  destruct (default true (dcRemoval opts)); injection H as <-; reflexivity.
Qed.

(** C10.  With two samples and [zeroEndpoints] (the default) every
    returned buffer is exactly [0, 0], for every seed, both distributions
    and every target level; and the generator does return it when the rate
    is valid and the request is seeded or uniform. *)
Theorem C10_two_samples_are_silence m entropy fuel opts :
  requestedLength opts = Some 2%nat -> default true (zeroEndpoints opts) = true ->
  (forall buf, generateEndpointConstrainedWhiteNoise m entropy fuel opts = Returned buf ->
     buf = [zero; zero])
  /\ (validRate opts = true -> boundedLoops opts -> (2 <= fuel)%nat ->
      generateEndpointConstrainedWhiteNoise m entropy fuel opts = Returned [zero; zero]).
Proof.
  intros Hn Hz.
  assert (H : forall buf, generateEndpointConstrainedWhiteNoise m entropy fuel opts = Returned buf ->
                          buf = [zero; zero]).
  { intros buf Hb. apply generate_returned in Hb as (_ & out & Ho & Hreq & Hlen & Hbuf).
    rewrite Hn in Hreq. injection Hreq as Hreq. rewrite <- Hreq in Ho.
    apply rawNoise_two in Ho; [|assumption]. subst out.
    rewrite Hbuf. apply normalize_degenerate. left. reflexivity. }
  split; [exact H|].
  intros Hr Hb Hf.
  destruct (generate_returns m entropy fuel opts 2 Hr Hn Hb Hf) as (buf & Hbuf).
  rewrite Hbuf. f_equal. apply H. exact Hbuf.
Qed.

Lemma C10_witness :
  (forall buf, generateEndpointConstrainedWhiteNoise coarseLibm halves 2 (request 2 gaussian) = Returned buf ->
     buf = [zero; zero])
  /\ (validRate (request 2 gaussian) = true -> boundedLoops (request 2 gaussian) -> (2 <= 2)%nat ->
      generateEndpointConstrainedWhiteNoise coarseLibm halves 2 (request 2 gaussian) = Returned [zero; zero]).
Proof.
  apply (C10_two_samples_are_silence coarseLibm halves 2 (request 2 gaussian));
    reflexivity.
Defined.

(* ================================================================== *)
(** * Determinism *)
(* ================================================================== *)






Lemma randomUniform_seeded entropy a :
  randomUniform entropy (Mulberry32 a)
  = Some (fsub (fmul (fst (mulberry32 a)) two) one, Mulberry32 (snd (mulberry32 a))).
Proof. unfold randomUniform. cbn [rng_call]. destruct (mulberry32 a). reflexivity. Qed.



(* ================================================================== *)
(** * The layout of the encoded bytes *)
(* ================================================================== *)

Lemma le_decode_u32 v : le_decode (u32_bytes v) = v mod 2 ^ 32.
Proof.
  unfold u32_bytes, le_decode. rewrite !Z.shiftr_div_pow2 by lia.
  change (2 ^ 8) with 256. change (2 ^ 16) with 65536. change (2 ^ 24) with 16777216.
  change (2 ^ 32) with 4294967296.
  Z.div_mod_to_equations. lia.
Qed.

(** The writes of the header, on a buffer that starts with 44 zeros. *)
Lemma header_writes (c r b z : Z) (rest : list Z) :
  let w := {| view := replicate 44 0 ++ rest; offset := 0 |} in
  let w := writeString "RIFF" w in
  let w := writeUint32 c w in
  let w := writeString "WAVE" w in
  let w := writeString "fmt " w in
  let w := writeUint32 16 w in
  let w := writeUint16 1 w in
  let w := writeUint16 1 w in
  let w := writeUint32 r w in
  let w := writeUint32 b w in
  let w := writeUint16 2 w in
  let w := writeUint16 16 w in
  let w := writeString "data" w in
  let w := writeUint32 z w in
  w = {| view := wavHeader c r b z ++ rest; offset := 44 |}.
Proof. reflexivity. Qed.

Lemma setInt16_at_end pre v tl :
  setInt16 (pre ++ 0 :: 0 :: tl) (length pre) v
  = (pre ++ [v mod 256; Z.shiftr v 8 mod 256]) ++ tl.
Proof.
  unfold setInt16, setUint16, setUint8.
  rewrite (insert_app_r_alt pre _ (length pre)) by lia.
  rewrite Nat.sub_diag. cbn [insert list_insert].
  rewrite (insert_app_r_alt pre _ (length pre + 1)) by lia.
  replace (length pre + 1 - length pre)%nat with 1%nat by lia. cbn [insert list_insert].
  rewrite <- app_assoc. reflexivity.
Qed.

Lemma writeSamples_layout pcm : forall pre,
  writeSamples pcm {| view := pre ++ replicate (2 * length pcm) 0; offset := length pre |}
  = {| view := pre ++ mjoin (int16_bytes true <$> pcm);
       offset := length pre + 2 * length pcm |}.
Proof.
  unfold writeSamples.
  induction pcm as [|v pcm IH]; intros pre.
  - cbn. rewrite Nat.add_0_r. reflexivity.
  - cbn [length]. replace (2 * S (length pcm))%nat with (S (S (2 * length pcm))) by lia.
    cbn [replicate fold_left view offset].
    rewrite setInt16_at_end.
    replace (length pre + 2)%nat with (length (pre ++ [v mod 256; Z.shiftr v 8 mod 256]))
      by (rewrite length_app; reflexivity).
    rewrite IH. cbn [fmap list_fmap mjoin list_join int16_bytes].
    rewrite <- app_assoc, length_app. cbn [app length]. f_equal. lia.
Qed.

Lemma makeWavBlob_layout samples rate :
  let n := Z.of_nat (length samples) in
  makeWavBlob samples rate
  = wavHeader (36 + n * 2) (truncate rate)
      (truncate (fdiv (fmul (fmul rate (of_Z 1)) (of_Z 16)) (of_Z 8))) (n * 2)
    ++ mjoin (int16_bytes true <$> floatToPCM16 samples).
Proof.
  intros n. unfold makeWavBlob. cbv zeta.
  assert (Hl : length (floatToPCM16 samples) = length samples) by apply length_fmap.
  rewrite Hl. fold n.
  replace (Z.to_nat (44 + n * 2)) with (44 + 2 * length (floatToPCM16 samples))%nat by lia.
  rewrite replicate_add.
  pose proof (header_writes (36 + n * 2) (truncate rate)
    (truncate (fdiv (fmul (fmul rate (of_Z 1)) (of_Z 16)) (of_Z 8))) (n * 2)
    (replicate (2 * length (floatToPCM16 samples)) 0)) as H.
  cbv zeta in H. change ((1 * 16) / 8) with 2. rewrite H.
  change 44%nat with (length (wavHeader (36 + n * 2) (truncate rate)
    (truncate (fdiv (fmul (fmul rate (of_Z 1)) (of_Z 16)) (of_Z 8))) (n * 2))) at 1.
  rewrite writeSamples_layout. reflexivity.
Qed.

Lemma pcm_bytes_length littleEndian pcm :
  length (mjoin (int16_bytes littleEndian <$> pcm)) = (2 * length pcm)%nat.
Proof.
  induction pcm as [|v pcm IH]; [reflexivity|].
  change (mjoin (int16_bytes littleEndian <$> v :: pcm))
    with (int16_bytes littleEndian v ++ mjoin (int16_bytes littleEndian <$> pcm)).
  rewrite length_app, IH.
  destruct littleEndian; cbn [int16_bytes length]; lia.
Qed.

Lemma header_fields samples rate :
  let n := Z.of_nat (length samples) in
  let wav := makeWavBlob samples rate in
  field wav 0 4 = [82; 73; 70; 70] /\ field wav 8 4 = [87; 65; 86; 69]
  /\ le_decode (field wav 4 4) = (36 + 2 * n) mod 2 ^ 32
  /\ le_decode (field wav 40 4) = (2 * n) mod 2 ^ 32.
Proof.
  intros n wav.
  assert (Hw : wav = wavHeader (36 + n * 2) (truncate rate)
      (truncate (fdiv (fmul (fmul rate (of_Z 1)) (of_Z 16)) (of_Z 8))) (n * 2)
    ++ mjoin (int16_bytes true <$> floatToPCM16 samples)) by apply makeWavBlob_layout.
  assert (H4 : field wav 4 4 = u32_bytes (36 + n * 2)) by (rewrite Hw; reflexivity).
  assert (H40 : field wav 40 4 = u32_bytes (n * 2)) by (rewrite Hw; reflexivity).
  repeat split.
  - rewrite Hw. reflexivity.
  - rewrite Hw. reflexivity.
  - rewrite H4, le_decode_u32; f_equal; lia.
  - rewrite H40, le_decode_u32; f_equal; lia.
Qed.

(** C7 (as amended).  For a buffer of N samples the raw encoding has
    exactly 2N bytes and the WAV encoding exactly 44 + 2N bytes; bytes 0-3
    are "RIFF" and bytes 8-11 are "WAVE"; the little-endian field at
    offset 4 holds (36 + 2N) mod 2^32 and the one at offset 40 holds
    2N mod 2^32, which are 36 + 2N and 2N whenever 36 + 2N < 2^32. *)
Theorem C7_encoded_sizes_and_header samples rate littleEndian :
  let n := Z.of_nat (length samples) in
  let wav := makeWavBlob samples rate in
  Z.of_nat (length (makeRawPCMBlob littleEndian samples)) = 2 * n
  /\ Z.of_nat (length wav) = 44 + 2 * n
  /\ field wav 0 4 = [82; 73; 70; 70]
  /\ field wav 8 4 = [87; 65; 86; 69]
  /\ le_decode (field wav 4 4) = (36 + 2 * n) mod 2 ^ 32
  /\ le_decode (field wav 40 4) = (2 * n) mod 2 ^ 32
  /\ (36 + 2 * n < 2 ^ 32 ->
      le_decode (field wav 4 4) = 36 + 2 * n /\ le_decode (field wav 40 4) = 2 * n).
Proof.
  intros n wav.
  assert (Hl : length (floatToPCM16 samples) = length samples) by apply length_fmap.
  destruct (header_fields samples rate) as (HR & HW & E4 & E40). fold n wav in HR, HW, E4, E40.
  repeat split.
  - unfold makeRawPCMBlob. rewrite pcm_bytes_length, Hl. lia.
  - unfold wav. rewrite makeWavBlob_layout, length_app, pcm_bytes_length, Hl.
    cbn [wavHeader u32_bytes u16_bytes app length]. lia.
  - exact HR.
  - exact HW.
  - exact E4.
  - exact E40.
  - rewrite E4. apply Z.mod_small. lia.
  - rewrite E40. apply Z.mod_small. lia.
Qed.

(** The 32-bit fields cannot hold the sizes of a buffer of 2^31 samples. *)
Lemma C7_counterexample :
  ~ (forall (samples : list float32) (rate : number),
       le_decode (field (makeWavBlob samples rate) 4 4)
       = 36 + 2 * Z.of_nat (length samples)).
Proof.
  intros H.
  specialize (H (replicate (Z.to_nat 2147483648) zero) (of_Z 16000)).
  destruct (header_fields (replicate (Z.to_nat 2147483648) zero) (of_Z 16000)) as (_ & _ & E & _).
  cbv zeta in E. rewrite E in H. clear E.
  rewrite length_replicate, Z2Nat.id in H by lia.
  vm_compute in H. discriminate H.
Qed.

(* ================================================================== *)
(** * The float-to-int16 conversion *)
(* ================================================================== *)

Lemma digits2_le m k : 0 <= k -> Zpos m < 2 ^ k -> Zpos (digits2_pos m) <= k.
Proof.
  intros Hk H. pose proof (digits2_bounds m) as Hb.
  destruct (Z.le_gt_cases (Zpos (digits2_pos m)) k) as [Hle|Hgt]; [exact Hle|].
  assert (2 ^ k <= 2 ^ (Zpos (digits2_pos m) - 1)) by (apply Z.pow_le_mono_r; lia). lia.
Qed.

Lemma digits2_ge m k : 2 ^ k <= Zpos m -> k < Zpos (digits2_pos m).
Proof.
  intros H. pose proof (digits2_bounds m) as Hb.
  destruct (Z.lt_ge_cases k (Zpos (digits2_pos m))) as [Hlt|Hge]; [exact Hlt|].
  assert (2 ^ Zpos (digits2_pos m) <= 2 ^ k) by (apply Z.pow_le_mono_r; lia). lia.
Qed.

(** A valid binary32 number has at most 24 digits and a bounded exponent. *)
Lemma binary32_bounds m e :
  bounded 24 128 m e = true -> Zpos (digits2_pos m) <= 24 /\ -149 <= e <= 104.
Proof.
  unfold bounded, canonical_mantissa, fexp, emin. intros H.
  apply andb_true_iff in H as [H1 H2]. apply Z.eqb_eq in H1. apply Z.leb_le in H2. lia.
Qed.

Lemma widen_finite s m e :
  bounded 24 128 m e = true -> widen (S754_finite s m e) = canon64 s m e.
Proof.
  intros H. apply binary32_bounds in H. unfold widen, prec64, emax64.
  apply binary_round_exact; lia.
Qed.

(** The product of a binary32 value by 32767 is exact in binary64. *)
Lemma fmul_32767 s m e :
  Zpos (digits2_pos m) <= 24 -> -149 <= e <= 104 ->
  fmul (canon64 s m e) (of_Z 32767) = canon64 s (m * 32767) e.
Proof.
  intros Hd He.
  change (of_Z 32767) with (S754_finite false 9006924376834048 (-38)).
  pose proof (digits2_bounds m) as Hb.
  set (d := Zpos (digits2_pos m)) in *.
  pose proof (pow2_pos (d - 1) ltac:(lia)) as Hp1.
  assert (HK1 : 2 ^ (d + 13) <= Zpos (m * 32767)).
  { replace (d + 13) with (d - 1 + 14) by lia. rewrite Z.pow_add_r by lia.
    change (2 ^ 14) with 16384. lia. }
  assert (HK2 : Zpos (m * 32767) < 2 ^ (d + 15)).
  { rewrite Z.pow_add_r by lia. change (2 ^ 15) with 32768.
    pose proof (pow2_pos d ltac:(lia)). lia. }
  apply digits2_ge in HK1. apply digits2_le in HK2; [|lia].
  unfold canon64 at 2. set (dK := Zpos (digits2_pos (m * 32767))) in *.
  unfold canon64. fold d.
  unfold fmul, SFmul, prec64, emax64. rewrite xorb_false_r.
  pose proof (pow2_pos (53 - d) ltac:(lia)) as Hpd.
  pose proof (pow2_pos (53 - dK) ltac:(lia)) as HpK.
  set (K' := Z.to_pos (Zpos (m * 32767) * 2 ^ (53 - dK))).
  assert (HK' : Zpos K' = Zpos (m * 32767) * 2 ^ (53 - dK)) by (unfold K'; rewrite Z2Pos.id; lia).
  assert (HdK' : Zpos (digits2_pos K') = 53).
  { pose proof (Zdigits2_mul_pow2 (m * 32767) (53 - dK) ltac:(lia)) as Hz.
    rewrite <- HK' in Hz. simpl Zdigits2 in Hz. fold dK in Hz. lia. }
  replace (Zpos (Z.to_pos (Zpos m * 2 ^ (53 - d)) * 9006924376834048))
    with (Zpos K' * 2 ^ (38 + dK - d)).
  - rewrite binary_round_aux_exact by lia. f_equal. lia.
  - rewrite HK', (Pos2Z.inj_mul (Z.to_pos _) 9006924376834048), Z2Pos.id by lia.
    change (Zpos 9006924376834048) with (32767 * 2 ^ 38).
    rewrite Pos2Z.inj_mul.
    replace (53 - d) with ((53 - dK) + (dK - d)) by lia.
    replace (38 + dK - d) with (38 + (dK - d)) by lia.
    rewrite !Z.pow_add_r by lia. ring.
Qed.

Lemma truncate_canon64 s m e :
  Zpos (digits2_pos m) <= 53 ->
  truncate (canon64 s m e) = cond_Zopp s (Z.shiftl (Zpos m) e).
Proof.
  intros Hd. unfold canon64, truncate.
  set (d := Zpos (digits2_pos m)) in *.
  pose proof (pow2_pos (53 - d) ltac:(lia)) as Hp.
  rewrite Z2Pos.id by lia. f_equal.
  rewrite <- Z.shiftl_mul_pow2 by lia. rewrite Z.shiftl_shiftl by lia.
  f_equal. lia.
Qed.

Lemma flt_below_one M E :
  2 ^ 52 <= Zpos M ->
  flt (S754_finite false M E) (S754_finite false 4503599627370496 (-52)) = (E <? -52).
Proof.
  intros HM. unfold flt, SFltb, SFcompare.
  destruct (Z.compare_spec E (-52)) as [->|H|H].
  - rewrite (Pos.compare_cont_spec M 4503599627370496%positive Eq).
    assert (H52 : 2 ^ 52 = Zpos 4503599627370496%positive) by reflexivity.
    destruct (Pos.compare_spec M 4503599627370496%positive) as [?|Hlt|?]; try reflexivity.
    exfalso. rewrite H52 in HM. apply Pos2Z.pos_lt_pos in Hlt.
    exact (Z.lt_irrefl _ (Z.lt_le_trans _ _ _ Hlt HM)).
  - symmetry. apply Z.ltb_lt. exact H.
  - symmetry. apply Z.ltb_ge. lia.
Qed.

Lemma flt_above_minus_one M E :
  2 ^ 52 <= Zpos M ->
  flt (S754_finite true 4503599627370496 (-52)) (S754_finite true M E) = (E <? -52).
Proof.
  intros HM. unfold flt, SFltb, SFcompare.
  destruct (Z.compare_spec (-52) E) as [<-|H|H].
  - rewrite (Pos.compare_cont_spec 4503599627370496%positive M Eq).
    assert (H52 : 2 ^ 52 = Zpos 4503599627370496%positive) by reflexivity.
    destruct (Pos.compare_spec 4503599627370496%positive M) as [?|?|Hlt]; try reflexivity.
    exfalso. rewrite H52 in HM. apply Pos2Z.pos_lt_pos in Hlt.
    exact (Z.lt_irrefl _ (Z.lt_le_trans _ _ _ Hlt HM)).
  - symmetry. apply Z.ltb_ge. lia.
  - symmetry. apply Z.ltb_lt. lia.
Qed.

(** The clamp of the code, on a finite binary32 value: the value itself
    below 1 in magnitude, and 1 with its sign otherwise. *)
Lemma code_clamp s m e :
  bounded 24 128 m e = true ->
  Math_max (of_Z (-1)) (Math_min one (canon64 s m e))
  = if Zpos (digits2_pos m) + e <=? 0 then canon64 s m e
    else if s then of_Z (-1) else one.
Proof.
  intros Hb. apply binary32_bounds in Hb as [Hd He].
  destruct (canon64 s m e) as [| | |s' M E] eqn:Ec; try discriminate.
  assert (s' = s) as -> by (unfold canon64 in Ec; congruence).
  apply canon64_digits in Ec as (HdM & HM & HE); [|lia].
  pose proof (digits2_bounds M) as HbM. rewrite HdM in HbM.
  change (53 - 1) with 52 in HbM.
  change one with (S754_finite false 4503599627370496 (-52)).
  change (of_Z (-1)) with (S754_finite true 4503599627370496 (-52)).
  assert (Hc : (Zpos (digits2_pos m) + e <=? 0) = (E <? -52)).
  { destruct (Z.leb_spec (Zpos (digits2_pos m) + e) 0), (Z.ltb_spec E (-52)); try reflexivity; lia. }
  rewrite Hc. destruct s.
  - cbn [Math_min]. replace (flt (S754_finite true M E) (S754_finite false 4503599627370496 (-52)))
      with true by reflexivity.
    cbn [Math_max]. rewrite flt_above_minus_one by lia. reflexivity.
  - cbn [Math_min]. rewrite flt_below_one by lia.
    destruct (E <? -52); reflexivity.
Qed.

(** The clamp of the specification, on a fraction. *)
Lemma reference_clamp z p :
  (Zpos p <= z -> Qmax (-1) (Qmin 1 (z # p)) = 1%Q)
  /\ (z <= - Zpos p -> Qmax (-1) (Qmin 1 (z # p)) = (-1)%Q)
  /\ (- Zpos p < z < Zpos p -> Qmax (-1) (Qmin 1 (z # p)) = (z # p)%Q).
Proof.
  unfold Qmax, Qmin, GenericMinMax.gmax, GenericMinMax.gmin, Qcompare.
  cbn [Qnum Qden]. repeat split; intros H.
  - destruct (Z.compare_spec (1 * Zpos p) (z * 1)); try lia; reflexivity.
  - destruct (Z.compare_spec (1 * Zpos p) (z * 1)); try lia.
    cbn [Qnum Qden]. destruct (Z.compare_spec (-1 * Zpos p) (z * 1)); try lia; reflexivity.
  - destruct (Z.compare_spec (1 * Zpos p) (z * 1)); try lia.
    cbn [Qnum Qden]. destruct (Z.compare_spec (-1 * Zpos p) (z * 1)); try lia; reflexivity.
Qed.

Lemma ToInt16_ToInt32_small z : -32767 <= z <= 32767 -> ToInt16 (ToInt32 z) = z.
Proof.
  intros H. unfold ToInt16, ToInt32.
  change (2 ^ 31) with 2147483648. change (2 ^ 32) with 4294967296.
  change (2 ^ 15) with 32768. change (2 ^ 16) with 65536.
  rewrite (Z.mod_small (z + 2147483648)) by lia.
  replace (z + 2147483648 - 2147483648) with z by lia.
  rewrite Z.mod_small; lia.
Qed.

Lemma floatToPCM16_below_one s m e :
  bounded 24 128 m e = true -> Zpos (digits2_pos m) + e <= 0 ->
  floatToPCM16_sample (S754_finite s m e)
  = cond_Zopp s (Zpos (m * 32767) / 2 ^ (- e))
  /\ 0 <= Zpos (m * 32767) / 2 ^ (- e) < 32767.
Proof.
  intros Hb Hlt. pose proof (binary32_bounds m e Hb) as [Hd He].
  pose proof (digits2_bounds m) as Hm.
  set (d := Zpos (digits2_pos m)) in *.
  assert (Hd1 : 1 <= d) by (unfold d; lia).
  pose proof (pow2_pos (- e) ltac:(lia)) as Hp.
  assert (Hde : 2 ^ d <= 2 ^ (- e)) by (apply Z.pow_le_mono_r; lia).
  assert (Hq : 0 <= Zpos (m * 32767) / 2 ^ (- e) < 32767).
  { split; [apply Z.div_pos; lia|]. apply Z.div_lt_upper_bound; lia. }
  split; [|exact Hq].
  unfold floatToPCM16_sample. rewrite widen_finite, code_clamp by assumption.
  fold d. replace (d + e <=? 0) with true by (symmetry; apply Z.leb_le; lia).
  rewrite fmul_32767 by (fold d; lia).
  unfold Number_ToInt32. rewrite truncate_canon64.
  - replace e with (- - e) at 1 by lia.
    rewrite Z.shiftl_opp_r, Z.shiftr_div_pow2 by lia.
    apply ToInt16_ToInt32_small. destruct s; cbn [cond_Zopp]; lia.
  - apply digits2_le; [lia|].
    assert (2 ^ d * 2 ^ 15 <= 2 ^ 53).
    { rewrite <- Z.pow_add_r by lia. apply Z.pow_le_mono_r; lia. }
    change (2 ^ 15) with 32768 in *. lia.
Qed.

Lemma reference_below_one s m e :
  Zpos (digits2_pos m) + e <= 0 ->
  referencePCM16 (S754_finite s m e) = cond_Zopp s (Zpos (m * 32767) / 2 ^ (- e)).
Proof.
  intros Hlt. pose proof (digits2_bounds m) as Hm.
  set (d := Zpos (digits2_pos m)) in *.
  assert (Hd1 : 1 <= d) by (unfold d; lia).
  pose proof (pow2_pos (- e) ltac:(lia)) as Hp.
  assert (Hde : 2 ^ d <= 2 ^ (- e)) by (apply Z.pow_le_mono_r; lia).
  unfold referencePCM16, valueOf, clamp, dyadic.
  replace (0 <=? e) with false by (symmetry; apply Z.leb_gt; lia).
  set (P := Z.to_pos (2 ^ (- e))).
  assert (HP : Zpos P = 2 ^ (- e)) by (unfold P; rewrite Z2Pos.id; lia).
  destruct (reference_clamp (cond_Zopp s (Zpos m)) P) as (_ & _ & Hin).
  rewrite Hin by (destruct s; cbn [cond_Zopp]; lia).
  unfold Qtruncate, Qmult. cbn [Qnum Qden].
  rewrite Pos.mul_1_r, HP. destruct s; cbn [cond_Zopp].
  - rewrite Z.mul_opp_l, Z.quot_opp_l, Z.quot_div_nonneg by lia. reflexivity.
  - rewrite Z.quot_div_nonneg by lia. reflexivity.
Qed.

Lemma floatToPCM16_full_scale s m e :
  bounded 24 128 m e = true -> 0 < Zpos (digits2_pos m) + e ->
  floatToPCM16_sample (S754_finite s m e) = cond_Zopp s 32767.
Proof.
  intros Hb Hge. unfold floatToPCM16_sample.
  rewrite widen_finite, code_clamp by assumption.
  replace (Zpos (digits2_pos m) + e <=? 0) with false by (symmetry; apply Z.leb_gt; lia).
  destruct s; reflexivity.
Qed.

Lemma reference_full_scale s m e :
  0 < Zpos (digits2_pos m) + e ->
  referencePCM16 (S754_finite s m e) = cond_Zopp s 32767.
Proof.
  intros Hge. pose proof (digits2_bounds m) as Hm.
  set (d := Zpos (digits2_pos m)) in *.
  assert (Hd1 : 1 <= d) by (unfold d; lia).
  unfold referencePCM16, valueOf, clamp, dyadic.
  assert (Hc : exists z p, (if 0 <=? e then inject_Z (cond_Zopp s (Zpos m) * 2 ^ e)
                            else (cond_Zopp s (Zpos m) # Z.to_pos (2 ^ (- e)))%Q) = (z # p)%Q
                           /\ (if s then z <= - Zpos p else Zpos p <= z)).
  { destruct (Z.leb_spec 0 e).
    - exists (cond_Zopp s (Zpos m) * 2 ^ e), 1%positive. split; [reflexivity|].
      pose proof (pow2_pos e ltac:(lia)). destruct s; cbn [cond_Zopp]; nia.
    - exists (cond_Zopp s (Zpos m)), (Z.to_pos (2 ^ (- e))). split; [reflexivity|].
      pose proof (pow2_pos (- e) ltac:(lia)). rewrite Z2Pos.id by lia.
      assert (2 ^ (- e) <= 2 ^ (d - 1)) by (apply Z.pow_le_mono_r; lia).
      destruct s; cbn [cond_Zopp]; lia. }
  destruct Hc as (z & p & -> & Hz).
  destruct (reference_clamp z p) as (Hhi & Hlo & _).
  destruct s; [rewrite Hlo | rewrite Hhi]; try assumption; reflexivity.
Qed.

(** C8.  [floatToPCM16] maps every binary32 sample to the integer the
    specification describes: the exact value clamped to [-1, 1], times
    32767, truncated toward zero (the product is exact in binary64, so no
    rounding intervenes); an infinity gives 32767 with its sign, NaN
    gives 0, and the result lies in [-32767, 32767], so the two stores
    ([| 0] and the [Int16Array]) never wrap. *)
Theorem C8_float_to_int16 (x : float32) :
  valid_binary 24 128 x = true ->
  floatToPCM16_sample x = referencePCM16 x
  /\ -32767 <= floatToPCM16_sample x <= 32767.
Proof.
  intros Hv. destruct x as [s|s| |s m e].
  - destruct s; split; try reflexivity; vm_compute; split; discriminate.
  - destruct s; split; try reflexivity; vm_compute; split; discriminate.
  - split; try reflexivity; vm_compute; split; discriminate.
  - cbn [valid_binary] in Hv.
    destruct (Z.le_gt_cases (Zpos (digits2_pos m) + e) 0) as [Hlt | Hge].
    + destruct (floatToPCM16_below_one s m e Hv Hlt) as [-> Hq].
      rewrite reference_below_one by assumption.
      split; [reflexivity | destruct s; cbn [cond_Zopp]; lia].
    + rewrite floatToPCM16_full_scale, reference_full_scale by (assumption || lia).
      split; [reflexivity | destruct s; cbn [cond_Zopp]; lia].
Qed.

Lemma C8_witness :
  floatToPCM16_sample (fround (fdiv (of_Z (-1)) (of_Z 3)))
  = referencePCM16 (fround (fdiv (of_Z (-1)) (of_Z 3)))
  /\ -32767 <= floatToPCM16_sample (fround (fdiv (of_Z (-1)) (of_Z 3))) <= 32767.
Proof.
  apply (C8_float_to_int16 (fround (fdiv (of_Z (-1)) (of_Z 3)))). reflexivity.
Defined.

(* ================================================================== *)
(** * The seeded random source *)
(* ================================================================== *)

(** A 32-bit integer divided by 2^32 lies in [0, 1). *)
Lemma u32_fraction_range u :
  0 <= u < 2 ^ 32 ->
  fle zero (fdiv (of_Z u) (of_Z 4294967296)) = true
  /\ flt (fdiv (of_Z u) (of_Z 4294967296)) one = true.
Proof.
  intros Hu. destruct (Z.eq_dec u 0) as [->|Hn]; [split; reflexivity|].
  rewrite of_Z_pos by lia.
  pose proof (digits2_bounds (Z.to_pos u)) as Hb. rewrite Z2Pos.id in Hb by lia.
  assert (Hd : Zpos (digits2_pos (Z.to_pos u)) <= 32) by (apply digits2_le; [lia|rewrite Z2Pos.id; lia]).
  destruct (canon64 false (Z.to_pos u) 0) as [| | |s M E] eqn:Ec; try discriminate.
  assert (s = false) as -> by (unfold canon64 in Ec; congruence).
  apply canon64_digits in Ec; [|lia]. destruct Ec as (HdM & _ & HE).
  rewrite fdiv_pow32 by lia. split; [reflexivity|].
  change one with (S754_finite false 4503599627370496 (-52)).
  pose proof (digits2_bounds M) as HbM. rewrite HdM in HbM. change (53 - 1) with 52 in HbM.
  rewrite flt_below_one by (apply HbM). apply Z.ltb_lt. lia.
Qed.

(** X1.  Every value the seeded generator returns lies in [0, 1): it is
    never negative, never NaN and never 1. *)
Theorem X1_mulberry32_unit_interval (a : Z) :
  fle zero (fst (mulberry32 a)) = true /\ flt (fst (mulberry32 a)) one = true.
Proof.
  unfold mulberry32. cbv zeta. cbn [fst].
  apply u32_fraction_range. apply ToUint32_range.
Qed.

(** X2.  The seeded generator returns exactly 0 if and only if its counter
    has just wrapped to 0. *)
Theorem X2_mulberry32_zero_iff (a : Z) :
  strict_eq (fst (mulberry32 a)) zero = true <-> snd (mulberry32 a) = 0.
Proof.
  split; [apply mulberry32_zero|].
  unfold mulberry32. cbv zeta. cbn [fst snd]. intros H. rewrite H. reflexivity.
Qed.

Lemma rng_calls_counter entropy k : forall a,
  exists a', rng_calls entropy k (Mulberry32 a) = Mulberry32 a'
             /\ ToUint32 a' = ToUint32 (a + Z.of_nat k * 1831565813).
Proof.
  induction k as [|k IH]; intros a.
  - exists a. split; [reflexivity|]. f_equal. lia.
  - cbn [rng_calls rng_call].
    assert (Hs : snd (let '(x, a') := mulberry32 a in (x, Mulberry32 a'))
                 = Mulberry32 (ToInt32 (ToInt32 a + 1831565813))) by reflexivity.
    rewrite Hs. destruct (IH (ToInt32 (ToInt32 a + 1831565813))) as (a' & -> & Ha').
    exists a'. split; [reflexivity|]. rewrite Ha'.
    pose proof (ToUint32_ToInt32 (ToInt32 a + 1831565813)) as H1.
    pose proof (ToUint32_ToInt32 a) as H2.
    revert H1 H2. generalize (ToInt32 (ToInt32 a + 1831565813)). generalize (ToInt32 a).
    intros b c. unfold ToUint32. rewrite Nat2Z.inj_succ.
    change (2 ^ 32) with 4294967296. generalize (Z.of_nat k). intros n H1 H2.
    Z.div_mod_to_equations. lia.
Qed.

(** X3.  After k calls the counter of the seeded generator is the seed
    plus k times 0x6D2B79F5, modulo 2^32; it is back at its initial value
    exactly when k is a multiple of 2^32. *)
Theorem X3_mulberry32_counter_period entropy (k : nat) (a : Z) :
  exists a', rng_calls entropy k (Mulberry32 a) = Mulberry32 a'
             /\ ToUint32 a' = ToUint32 (a + Z.of_nat k * 0x6D2B79F5)
             /\ (ToUint32 a' = ToUint32 a <-> (2 ^ 32 | Z.of_nat k)).
Proof.
  destruct (rng_calls_counter entropy k a) as (a' & Hr & Ha').
  exists a'. split; [exact Hr|]. split; [exact Ha'|].
  rewrite Ha'. unfold ToUint32. split.
  - intros H. apply (odd_factor_pow2 1831565813 32 eq_refl).
    apply Z.mod_divide; [discriminate|].
    revert H. change (2 ^ Z.of_nat 32) with 4294967296. change (2 ^ 32) with 4294967296.
    generalize (Z.of_nat k * 1831565813). intros w H.
    Z.div_mod_to_equations. lia.
  - intros [c Hc]. rewrite Hc.
    replace (a + c * 2 ^ 32 * 1831565813) with (a + (c * 1831565813) * 2 ^ 32) by ring.
    apply Z.mod_add. discriminate.
Qed.

(** X4.  With the seeded generator [randomGaussian] always returns: each
    of its two [while] loops ends after at most two calls of [rng]. *)
Theorem X4_randomGaussian_seeded_returns m entropy (a : Z) :
  exists x a', randomGaussian m entropy 2 (Mulberry32 a) = Some (x, Mulberry32 a').
Proof. apply randomGaussian_seeded. lia. Qed.

(* ================================================================== *)
(** * The uniform sampler *)
(* ================================================================== *)

(** Rounding [m * 2^j * 2^e] when [m] has at most 53 bits is exact. *)
Lemma binary_round_shifted s m j e :
  Zpos (digits2_pos m) <= 53 -> 0 <= j ->
  -1074 <= e + j - (53 - Zpos (digits2_pos m)) <= 971 ->
  binary_round 53 1024 s (Z.to_pos (Zpos m * 2 ^ j)) e = canon64 s m (e + j).
Proof.
  intros Hd Hj He.
  set (d := Zpos (digits2_pos m)) in *.
  pose proof (pow2_pos j Hj) as Hpj.
  set (mj := Z.to_pos (Zpos m * 2 ^ j)).
  assert (Hmj : Zpos mj = Zpos m * 2 ^ j) by (unfold mj; rewrite Z2Pos.id; lia).
  assert (Hdj : Zpos (digits2_pos mj) = d + j).
  { pose proof (Zdigits2_mul_pow2 m j Hj) as Hz. rewrite <- Hmj in Hz. exact Hz. }
  destruct (Z.le_gt_cases (d + j) 53) as [Hsmall | Hbig].
  - rewrite binary_round_exact by lia. unfold canon64. rewrite Hdj. fold d.
    pose proof (pow2_pos (53 - (d + j)) ltac:(lia)).
    f_equal; [|lia]. f_equal. rewrite Hmj, <- Z.mul_assoc, <- Z.pow_add_r by lia.
    f_equal. f_equal. lia.
  - unfold binary_round. rewrite Hdj.
    replace (fexp 53 1024 (d + j + e)) with (e + (d + j - 53)) by (unfold fexp, emin; lia).
    unfold shl_align.
    destruct (e + (d + j - 53) - e) as [|k|k] eqn:Ek; try lia.
    unfold canon64. fold d.
    pose proof (pow2_pos (53 - d) ltac:(lia)) as Hpd.
    set (M := Z.to_pos (Zpos m * 2 ^ (53 - d))).
    assert (HM : Zpos M = Zpos m * 2 ^ (53 - d)) by (unfold M; rewrite Z2Pos.id; lia).
    assert (HdM : Zpos (digits2_pos M) = 53).
    { pose proof (Zdigits2_mul_pow2 m (53 - d) ltac:(lia)) as Hz.
      rewrite <- HM in Hz. simpl Zdigits2 in Hz. fold d in Hz. lia. }
    replace (Zpos mj) with (Zpos M * 2 ^ (d + j - 53)).
    + rewrite binary_round_aux_exact by lia. f_equal. lia.
    + rewrite Hmj, HM, <- Z.mul_assoc, <- Z.pow_add_r by lia. f_equal. f_equal. lia.
Qed.

Lemma flt_fle a b : flt a b = true -> fle a b = true.
Proof. unfold flt, fle, SFltb, SFleb. destruct (SFcompare a b) as [[| |]|]; congruence. Qed.

(** The canonical form of at most 2^31 over 2^31, of either sign, lies in
    [-1, 1]; it is below 1 unless it is 1. *)
Lemma canon64_31_range s K :
  Zpos K <= 2 ^ 31 ->
  fle (of_Z (-1)) (canon64 s K (-31)) = true
  /\ (Zpos K < 2 ^ 31 \/ s = true -> flt (canon64 s K (-31)) one = true).
Proof.
  intros HK.
  assert (Hd : Zpos (digits2_pos K) <= 32).
  { apply digits2_le; [lia|]. change (2 ^ 32) with (2 * 2 ^ 31). lia. }
  destruct (canon64 s K (-31)) as [| | |s' M E] eqn:Ec; try discriminate.
  assert (s' = s) as -> by (unfold canon64 in Ec; congruence).
  apply canon64_digits in Ec as (HdM & HM & HE); [|lia].
  pose proof (digits2_bounds M) as HbM. rewrite HdM in HbM. change (53 - 1) with 52 in HbM.
  change one with (S754_finite false 4503599627370496 (-52)).
  change (of_Z (-1)) with (S754_finite true 4503599627370496 (-52)).
  destruct (Z.eq_dec (Zpos K) (2 ^ 31)) as [Heq | Hne].
  - assert (HK31 : K = 2147483648%positive) by (change (2 ^ 31) with (Zpos 2147483648) in Heq; congruence).
    subst K. change (Zpos (digits2_pos 2147483648)) with 32 in *.
    assert (HM' : M = 4503599627370496%positive).
    { change (Zpos 2147483648 * 2 ^ (53 - 32)) with (Zpos 4503599627370496) in HM. congruence. }
    assert (HE52 : E = -52) by lia. subst M E.
    destruct s; split; try reflexivity; intros [H|H]; try reflexivity;
      try discriminate; exfalso; revert H; change (2 ^ 31) with (Zpos 2147483648);
      apply Z.lt_irrefl.
  - assert (Hlt : Zpos K < 2 ^ 31) by lia.
    assert (Hd' : Zpos (digits2_pos K) <= 31) by (apply digits2_le; lia).
    assert (HE52 : E < -52) by lia.
    destruct s.
    + split; [|intros _; reflexivity].
      apply flt_fle. rewrite flt_above_minus_one by apply HbM. apply Z.ltb_lt. exact HE52.
    + split; [reflexivity|]. intros _.
      rewrite flt_below_one by apply HbM. apply Z.ltb_lt. exact HE52.
Qed.

Lemma shl_align_value mx ex ez :
  ez <= ex -> Zpos (fst (shl_align mx ex ez)) = Zpos mx * 2 ^ (ex - ez).
Proof.
  intros H. unfold shl_align. destruct (ez - ex) as [|k|k] eqn:Ek; try lia; cbn [fst].
  - replace (ex - ez) with 0 by lia. lia.
  - rewrite pos_iter_xO. f_equal. f_equal. lia.
Qed.

Lemma dyadicNumber_round (z : Z) (j e : Z) :
  z <> 0 -> Z.abs z < 2 ^ 53 -> 0 <= j -> -1000 <= e + j <= 900 ->
  binary_normalize 53 1024 (z * 2 ^ j) e false = dyadicNumber z (e + j).
Proof.
  intros Hz Hb Hj He. pose proof (pow2_pos j Hj) as Hp.
  destruct z as [|K|K]; [congruence| |].
  - assert (Hd : Zpos (digits2_pos K) <= 53) by (apply digits2_le; lia).
    pose proof (digits2_bounds K) as HbK.
    destruct (Zpos K * 2 ^ j) as [|q|q] eqn:Eq; try lia.
    cbn [binary_normalize dyadicNumber].
    replace q with (Z.to_pos (Zpos K * 2 ^ j)) by (rewrite Eq; reflexivity).
    apply binary_round_shifted; lia.
  - assert (Hd : Zpos (digits2_pos K) <= 53) by (apply digits2_le; lia).
    destruct (Zneg K * 2 ^ j) as [|q|q] eqn:Eq; try lia.
    cbn [binary_normalize dyadicNumber].
    replace q with (Z.to_pos (Zpos K * 2 ^ j)).
    + apply binary_round_shifted; lia.
    + apply Pos2Z.inj. rewrite Z2Pos.id by lia.
      change (Zneg K) with (- Zpos K) in Eq. change (Zneg q) with (- Zpos q) in Eq. lia.
Qed.

(** [u / 2^32 * 2 - 1] is computed exactly. *)
Lemma uniform_of_u32 u :
  0 <= u < 2 ^ 32 ->
  fsub (fmul (fdiv (of_Z u) (of_Z 4294967296)) two) one = dyadicNumber (u - 2 ^ 31) (-31).
Proof.
  intros Hu. destruct (Z.eq_dec u 0) as [->|Hn]; [reflexivity|].
  rewrite of_Z_pos by lia.
  assert (Hd : Zpos (digits2_pos (Z.to_pos u)) <= 32) by (apply digits2_le; [lia|rewrite Z2Pos.id; lia]).
  destruct (canon64 false (Z.to_pos u) 0) as [| | |s M E] eqn:Ec; try discriminate.
  assert (s = false) as -> by (unfold canon64 in Ec; congruence).
  apply canon64_digits in Ec; [|lia]. destruct Ec as (HdM & HM & HE).
  rewrite Z2Pos.id in HM by lia.
  set (d := Zpos (digits2_pos (Z.to_pos u))) in *.
  assert (Hd1 : 1 <= d) by (unfold d; lia).
  rewrite fdiv_pow32 by lia.
  change two with (S754_finite false 4503599627370496 (-51)).
  unfold fmul, SFmul, prec64, emax64. cbn [xorb].
  rewrite Pos2Z.inj_mul. change (Zpos 4503599627370496) with (2 ^ 52).
  rewrite binary_round_aux_exact by lia.
  change one with (S754_finite false 4503599627370496 (-52)).
  unfold fsub, SFsub, prec64, emax64. cbn [cond_Zopp].
  set (e1 := E - 32 + -51 + 52).
  assert (He1 : e1 = d - 84) by (unfold e1; lia).
  rewrite Z.min_l by lia.
  rewrite (shl_align_value M e1 e1), (shl_align_value 4503599627370496 (-52) e1) by lia.
  change (Zpos 4503599627370496) with (2 ^ 52).
  replace (Zpos M * 2 ^ (e1 - e1) - 2 ^ 52 * 2 ^ (-52 - e1))
    with ((u - 2 ^ 31) * 2 ^ (53 - d)).
  - destruct (Z.eq_dec (u - 2 ^ 31) 0) as [H0 | Hne].
    + rewrite H0. reflexivity.
    + replace (-31) with (e1 + (53 - d)) by lia.
      apply dyadicNumber_round; lia.
  - rewrite HM, Z.sub_diag, Z.mul_1_r, <- Z.pow_add_r by lia.
    replace (52 + (-52 - e1)) with (31 + (53 - d)) by lia.
    rewrite Z.pow_add_r by lia. ring.
Qed.

(** X5.  A uniform sample drawn from the seeded generator is exactly
    (u - 2^31) / 2^31 for the 32-bit integer u the generator produced: no
    rounding occurs, and the sample lies in [-1, 1). *)
Theorem X5_uniform_sample_exact entropy (a : Z) :
  exists u x a',
    0 <= u < 2 ^ 32
    /\ fst (mulberry32 a) = fdiv (of_Z u) (of_Z 4294967296)
    /\ randomUniform entropy (Mulberry32 a) = Some (x, Mulberry32 a')
    /\ x = dyadicNumber (u - 2 ^ 31) (-31)
    /\ fle (of_Z (-1)) x = true /\ flt x one = true.
Proof.
  rewrite randomUniform_seeded.
  unfold mulberry32. cbv zeta. cbn [fst snd].
  set (a1 := ToInt32 (ToInt32 a + 1831565813)).
  set (t1 := imul (Z.lxor a1 (ushr a1 15)) (Z.lor 1 a1)).
  set (t2 := Z.lxor (ToInt32 (t1 + imul (Z.lxor t1 (ushr t1 7)) (Z.lor 61 t1))) t1).
  set (u := ToUint32 (Z.lxor t2 (ushr t2 14))).
  pose proof (ToUint32_range (Z.lxor t2 (ushr t2 14))) as Hu. fold u in Hu.
  exists u, (dyadicNumber (u - 2 ^ 31) (-31)), a1.
  split; [exact Hu|]. split; [reflexivity|].
  split; [rewrite uniform_of_u32 by exact Hu; reflexivity|].
  split; [reflexivity|].
  destruct (u - 2 ^ 31) as [|K|K] eqn:EK; cbn [dyadicNumber].
  - split; reflexivity.
  - destruct (canon64_31_range false K) as [H1 H2]; [lia|].
    split; [exact H1 | apply H2; left; lia].
  - destruct (canon64_31_range true K) as [H1 H2]; [lia|].
    split; [exact H1 | apply H2; right; reflexivity].
Qed.

(* ================================================================== *)
(** * The sign of the RMS *)
(* ================================================================== *)

Lemma binary_round_aux_sign prec emax s m e l :
  signBit (binary_round_aux prec emax s m e l) = s
  \/ binary_round_aux prec emax s m e l = S754_nan.
Proof.
  unfold binary_round_aux.
  destruct (shr_fexp prec emax m e l) as [mrs e'].
  destruct (shr_fexp prec emax _ e' loc_Exact) as [mrs' e''].
  destruct (shr_m mrs'); [left; reflexivity | | right; reflexivity].
  destruct (e'' <=? emax - prec); left; reflexivity.
Qed.

Lemma binary_round_aux_nonneg prec emax m e l :
  signBit (binary_round_aux prec emax false m e l) = false.
Proof.
  destruct (binary_round_aux_sign prec emax false m e l) as [H | H]; rewrite H; reflexivity.
Qed.

Lemma binary_round_nonneg prec emax m e :
  signBit (binary_round prec emax false m e) = false.
Proof.
  unfold binary_round. destruct (shl_align m e _) as [mz ez].
  apply binary_round_aux_nonneg.
Qed.

Lemma square_nonneg x : signBit (fmul x x) = false.
Proof.
  destruct x as [s|s| |s m e]; cbn [fmul SFmul signBit]; try apply xorb_nilpotent; try reflexivity.
  unfold fmul, SFmul. rewrite xorb_nilpotent. apply binary_round_aux_nonneg.
Qed.

Lemma fadd_nonneg x y :
  signBit x = false -> signBit y = false -> signBit (fadd x y) = false.
Proof.
  destruct x as [sx|sx| |sx mx ex], y as [sy|sy| |sy my ey]; cbn [signBit];
    intros Hx Hy; subst; try reflexivity.
  unfold fadd, SFadd. cbn [cond_Zopp].
  destruct (Zpos (fst (shl_align mx ex (Z.min ex ey))) + Zpos (fst (shl_align my ey (Z.min ex ey))))
    as [|q|q] eqn:E; try lia; cbn [binary_normalize].
  apply binary_round_nonneg.
Qed.

Lemma fdiv_nonneg x y :
  signBit x = false -> signBit y = false -> signBit (fdiv x y) = false.
Proof.
  destruct x as [sx|sx| |sx mx ex], y as [sy|sy| |sy my ey]; cbn [signBit];
    intros Hx Hy; subst; try reflexivity.
  unfold fdiv, SFdiv. destruct (SFdiv_core_binary _ _ _ _ _ _) as [[mz ez] lz].
  cbn [xorb]. apply binary_round_aux_nonneg.
Qed.

Lemma of_nat_nonneg n : signBit (of_nat n) = false.
Proof.
  unfold of_nat, of_Z. pose proof (Nat2Z.is_nonneg n) as Hn.
  destruct (Z.of_nat n) as [|p|p]; cbn [binary_normalize];
    [reflexivity | apply binary_round_nonneg | exfalso; apply Hn; reflexivity].
Qed.

Lemma Math_sqrt_nonneg x : signBit x = false -> signBit (Math_sqrt x) = false.
Proof.
  destruct x as [s|s| |s m e]; cbn [signBit]; intros H; try subst s; try reflexivity.
  unfold Math_sqrt, SFsqrt. destruct (SFsqrt_core_binary _ _ _ _) as [[mz ez] lz].
  apply binary_round_aux_nonneg.
Qed.

Lemma sum_of_squares_nonneg data : forall acc,
  signBit acc = false ->
  signBit (fold_left (fun acc x => fadd acc (fmul (widen x) (widen x))) data acc) = false.
Proof.
  induction data as [|x data IH]; intros acc Hacc; cbn [fold_left]; [exact Hacc|].
  apply IH. apply fadd_nonneg; [exact Hacc | apply square_nonneg].
Qed.

(** X6.  [rms] never returns a negative number or -0: its result is NaN,
    +0, a positive number or +Infinity, so [currentRms > 0] fails only for
    +0 and NaN. *)
Theorem X6_rms_is_not_negative (data : list float32) :
  signBit (rms data) = false /\ flt (rms data) zero = false.
Proof.
  assert (H : signBit (rms data) = false).
  { unfold rms. destruct (length data =? 0)%nat; [reflexivity|].
    apply Math_sqrt_nonneg, fdiv_nonneg; [|apply of_nat_nonneg].
    apply sum_of_squares_nonneg. reflexivity. }
  split; [exact H|].
  destruct (rms data) as [s|s| |s m e]; cbn [signBit] in H; subst; reflexivity.
Qed.

(* ================================================================== *)
(** * More on the encoder *)
(* ================================================================== *)

(** Multiplying and dividing a normal binary64 number by a power of two
    changes its exponent only. *)
Lemma fmul_pow2 s M E k :
  Zpos (digits2_pos M) = 53 -> -1074 <= E + k + 52 <= 971 ->
  fmul (S754_finite s M E) (S754_finite false 4503599627370496 k) = S754_finite s M (E + k + 52).
Proof.
  intros Hd He. unfold fmul, SFmul, prec64, emax64. rewrite xorb_false_r.
  rewrite Pos2Z.inj_mul. change (Zpos 4503599627370496) with (2 ^ 52).
  rewrite binary_round_aux_exact by lia. f_equal; lia.
Qed.

Lemma fdiv_pow2 s M E k :
  Zpos (digits2_pos M) = 53 -> -1021 <= E - k - 52 <= 971 ->
  fdiv (S754_finite s M E) (S754_finite false 4503599627370496 k) = S754_finite s M (E - k - 52).
Proof.
  intros Hd HE. unfold fdiv, SFdiv, SFdiv_core_binary.
  change (Zdigits2 (Zpos 4503599627370496)) with 53.
  simpl Zdigits2. rewrite Hd. unfold prec64, emax64.
  replace (Z.min (fexp 53 1024 (53 + E - (53 + k))) (E - k)) with (E - k - 53)
    by (unfold fexp, emin; lia).
  replace (E - k - (E - k - 53)) with 53 by lia.
  rewrite Z.shiftl_mul_pow2 by lia.
  rewrite (div_eucl_exact _ _ (Zpos M * 2 ^ 1)).
  - change (new_location 4503599627370496 0) with loc_Exact.
    rewrite binary_round_aux_exact by lia.
    rewrite xorb_false_r. f_equal; lia.
  - lia.
  - change (2 ^ 53) with (2 ^ 1 * 4503599627370496). ring.
Qed.

(** The byte rate [(sampleRate * 1 * 16) / 8] of an integer rate is twice
    the rate, computed exactly. *)
Lemma byteRate_exact r :
  0 < r < 2 ^ 52 ->
  truncate (of_Z r) = r
  /\ truncate (fdiv (fmul (fmul (of_Z r) (of_Z 1)) (of_Z 16)) (of_Z 8)) = 2 * r.
Proof.
  intros Hr. rewrite of_Z_pos by lia.
  assert (Hd : Zpos (digits2_pos (Z.to_pos r)) <= 52) by (apply digits2_le; [lia|rewrite Z2Pos.id; lia]).
  split.
  - rewrite truncate_canon64 by lia. rewrite Z2Pos.id by lia. cbn [cond_Zopp]. apply Z.shiftl_0_r.
  - assert (Hc : fdiv (fmul (fmul (canon64 false (Z.to_pos r) 0) (of_Z 1)) (of_Z 16)) (of_Z 8)
                 = canon64 false (Z.to_pos r) 1).
    { destruct (canon64 false (Z.to_pos r) 0) as [| | |s M E] eqn:Ec; try discriminate.
      assert (s = false) as -> by (unfold canon64 in Ec; congruence).
      pose proof Ec as Ec'. apply canon64_digits in Ec' as (HdM & HM & HE); [|lia].
      change (of_Z 1) with (S754_finite false 4503599627370496 (-52)).
      change (of_Z 16) with (S754_finite false 4503599627370496 (-48)).
      change (of_Z 8) with (S754_finite false 4503599627370496 (-49)).
      rewrite fmul_pow2 by lia. rewrite fmul_pow2 by lia. rewrite fdiv_pow2 by lia.
      unfold canon64 in *. injection Ec as HM' HE'. rewrite HM'. f_equal. lia. }
    rewrite Hc, truncate_canon64 by lia. rewrite Z2Pos.id by lia. cbn [cond_Zopp].
    rewrite Z.shiftl_mul_pow2 by lia. lia.
Qed.

Lemma le_decode_u16 v : le_decode (u16_bytes v) = v mod 2 ^ 16.
Proof.
  unfold u16_bytes, le_decode. rewrite !Z.shiftr_div_pow2 by lia.
  change (2 ^ 8) with 256. change (2 ^ 16) with 65536.
  Z.div_mod_to_equations. lia.
Qed.

Lemma raw_pcm_byte_order (pcm : list Z) :
  mjoin (int16_bytes false <$> pcm) = swapPairs (mjoin (int16_bytes true <$> pcm)).
Proof.
  induction pcm as [|v pcm IH]; [reflexivity|].
  cbn [fmap list_fmap mjoin list_join int16_bytes app swapPairs].
  do 2 f_equal. exact IH.
Qed.

(** X7.  The WAV bytes are the 44-byte header followed by the 16-bit
    codes in little-endian order.  [makeRawPCMBlob], which takes the byte
    order of the platform, gives exactly this payload on a little-endian
    platform, and the same payload with the two bytes of every sample
    exchanged on a big-endian one. *)
Theorem X7_wav_is_header_then_raw_pcm (samples : list float32) (rate : number)
    (littleEndian : bool) :
  length (take 44 (makeWavBlob samples rate)) = 44%nat
  /\ makeRawPCMBlob littleEndian samples
     = if littleEndian then drop 44 (makeWavBlob samples rate)
       else swapPairs (drop 44 (makeWavBlob samples rate)).
Proof.
  rewrite makeWavBlob_layout. cbv zeta. split; [reflexivity|].
  set (hdr := wavHeader _ _ _ _).
  replace (drop 44 (hdr ++ mjoin (int16_bytes true <$> floatToPCM16 samples)))
    with (mjoin (int16_bytes true <$> floatToPCM16 samples)) by reflexivity.
  destruct littleEndian; unfold makeRawPCMBlob; cbv zeta.
  - reflexivity.
  - apply raw_pcm_byte_order.
Qed.

(** X8.  For an integer sample rate r below 2^31 the format chunk of the
    header reads: "fmt ", chunk size 16, PCM (1), one channel, sample rate
    r, byte rate 2r, block alignment 2, 16 bits per sample; and it is
    followed by "data". *)
Theorem X8_wav_format_chunk (samples : list float32) (r : Z) :
  0 < r < 2 ^ 31 ->
  let wav := makeWavBlob samples (of_Z r) in
  field wav 12 4 = [102; 109; 116; 32]
  /\ le_decode (field wav 16 4) = 16
  /\ le_decode (field wav 20 2) = 1
  /\ le_decode (field wav 22 2) = 1
  /\ le_decode (field wav 24 4) = r
  /\ le_decode (field wav 28 4) = 2 * r
  /\ le_decode (field wav 32 2) = 2
  /\ le_decode (field wav 34 2) = 16
  /\ field wav 36 4 = [100; 97; 116; 97].
Proof.
  intros Hr wav. unfold wav. rewrite makeWavBlob_layout. cbv zeta.
  destruct (byteRate_exact r) as [Ht Hb].
  { change (2 ^ 52) with 4503599627370496. change (2 ^ 31) with 2147483648 in Hr. lia. }
  rewrite Ht, Hb.
  set (payload := mjoin _).
  change (2 ^ 31) with 2147483648 in Hr.
  repeat split; try reflexivity.
  - change (field _ 24 4) with (u32_bytes r). rewrite le_decode_u32.
    apply Z.mod_small. change (2 ^ 32) with 4294967296. lia.
  - change (field _ 28 4) with (u32_bytes (2 * r)). rewrite le_decode_u32.
    apply Z.mod_small. change (2 ^ 32) with 4294967296. lia.
Qed.

Lemma X8_witness :
  let wav := makeWavBlob [zero] (of_Z 16000) in
  field wav 12 4 = [102; 109; 116; 32]
  /\ le_decode (field wav 16 4) = 16
  /\ le_decode (field wav 20 2) = 1
  /\ le_decode (field wav 22 2) = 1
  /\ le_decode (field wav 24 4) = 16000
  /\ le_decode (field wav 28 4) = 2 * 16000
  /\ le_decode (field wav 32 2) = 2
  /\ le_decode (field wav 34 2) = 16
  /\ field wav 36 4 = [100; 97; 116; 97].
Proof.
  apply (X8_wav_format_chunk [zero] 16000). lia.
Defined.

Lemma floatToPCM16_sample_range (x : float32) :
  valid_binary 24 128 x = true -> -32767 <= floatToPCM16_sample x <= 32767.
Proof.
  intros Hv. destruct x as [s|s| |s m e].
  - destruct s; vm_compute; split; discriminate.
  - destruct s; vm_compute; split; discriminate.
  - vm_compute; split; discriminate.
  - cbn [valid_binary] in Hv.
    destruct (Z.le_gt_cases (Zpos (digits2_pos m) + e) 0) as [Hlt | Hge].
    + destruct (floatToPCM16_below_one s m e Hv Hlt) as [-> Hq].
      destruct s; cbn [cond_Zopp]; lia.
    + rewrite floatToPCM16_full_scale by (assumption || lia).
      destruct s; cbn [cond_Zopp]; lia.
Qed.

Lemma pcm_bytes_lookup pcm : forall i v,
  pcm !! i = Some v ->
  mjoin (int16_bytes true <$> pcm) !! (2 * i)%nat = Some (v mod 256)
  /\ mjoin (int16_bytes true <$> pcm) !! (2 * i + 1)%nat = Some (Z.shiftr v 8 mod 256).
Proof.
  induction pcm as [|w pcm IH]; intros i v H; [discriminate|].
  change (mjoin (int16_bytes true <$> w :: pcm))
    with (w mod 256 :: Z.shiftr w 8 mod 256 :: mjoin (int16_bytes true <$> pcm)).
  destruct i as [|i].
  - cbn in H. injection H as ->. split; reflexivity.
  - cbn [lookup list_lookup] in H. apply IH in H as [H1 H2].
    replace (2 * S i)%nat with (S (S (2 * i))) by lia.
    replace (S (S (2 * i)) + 1)%nat with (S (S (2 * i + 1))) by lia.
    split; assumption.
Qed.

Lemma int16_bytes_round_trip v :
  - 2 ^ 15 <= v < 2 ^ 15 ->
  ToInt16 (v mod 256 + 256 * (Z.shiftr v 8 mod 256)) = v.
Proof.
  intros Hv. unfold ToInt16. rewrite Z.shiftr_div_pow2 by lia.
  change (2 ^ 8) with 256. change (2 ^ 15) with 32768 in *. change (2 ^ 16) with 65536.
  Z.div_mod_to_equations. lia.
Qed.

(** X9.  Reading the WAV bytes back: the two bytes at offset 44 + 2i,
    taken as a little-endian signed 16-bit integer, are the code
    [floatToPCM16] gives to sample i. *)
Theorem X9_wav_payload_round_trip (samples : list float32) (rate : number) (i : nat) (x : float32) :
  samples !! i = Some x -> valid_binary 24 128 x = true ->
  exists lo hi,
    makeWavBlob samples rate !! (44 + 2 * i)%nat = Some lo
    /\ makeWavBlob samples rate !! (44 + 2 * i + 1)%nat = Some hi
    /\ 0 <= lo < 256 /\ 0 <= hi < 256
    /\ ToInt16 (lo + 256 * hi) = floatToPCM16_sample x.
Proof.
  intros Hi Hv. rewrite makeWavBlob_layout. cbv zeta.
  set (hdr := wavHeader _ _ _ _).
  assert (Hh : length hdr = 44%nat) by reflexivity.
  assert (Hp : floatToPCM16 samples !! i = Some (floatToPCM16_sample x)).
  { unfold floatToPCM16. rewrite list_lookup_fmap, Hi. reflexivity. }
  apply pcm_bytes_lookup in Hp as [H1 H2].
  exists (floatToPCM16_sample x mod 256), (Z.shiftr (floatToPCM16_sample x) 8 mod 256).
  split; [|split; [|split; [|split]]].
  - rewrite lookup_app_r by lia. rewrite Hh.
    replace (44 + 2 * i - 44)%nat with (2 * i)%nat by lia. exact H1.
  - rewrite lookup_app_r by lia. rewrite Hh.
    replace (44 + 2 * i + 1 - 44)%nat with (2 * i + 1)%nat by lia. exact H2.
  - apply Z.mod_pos_bound. reflexivity.
  - apply Z.mod_pos_bound. reflexivity.
  - apply int16_bytes_round_trip.
    pose proof (floatToPCM16_sample_range x Hv) as Hr.
    change (2 ^ 15) with 32768. lia.
Qed.

Lemma X9_witness :
  exists lo hi,
    makeWavBlob [fround (fdiv (of_Z (-1)) (of_Z 3))] (of_Z 16000) !! (44 + 2 * 0)%nat = Some lo
    /\ makeWavBlob [fround (fdiv (of_Z (-1)) (of_Z 3))] (of_Z 16000) !! (44 + 2 * 0 + 1)%nat = Some hi
    /\ 0 <= lo < 256 /\ 0 <= hi < 256
    /\ ToInt16 (lo + 256 * hi) = floatToPCM16_sample (fround (fdiv (of_Z (-1)) (of_Z 3))).
Proof.
  apply (X9_wav_payload_round_trip [fround (fdiv (of_Z (-1)) (of_Z 3))] (of_Z 16000) 0
           (fround (fdiv (of_Z (-1)) (of_Z 3)))); reflexivity.
Defined.

(** X10.  The conversion is odd: negating a sample negates its code (and
    the code -32768 is never produced). *)
Theorem X10_floatToPCM16_is_odd (x : float32) :
  valid_binary 24 128 x = true ->
  floatToPCM16_sample (SFopp x) = - floatToPCM16_sample x
  /\ floatToPCM16_sample x <> -32768.
Proof.
  intros Hv. split.
  - destruct x as [s|s| |s m e].
    + destruct s; reflexivity.
    + destruct s; reflexivity.
    + reflexivity.
    + cbn [valid_binary] in Hv. cbn [SFopp].
      destruct (Z.le_gt_cases (Zpos (digits2_pos m) + e) 0) as [Hlt | Hge].
      * destruct (floatToPCM16_below_one s m e Hv Hlt) as [-> _].
        destruct (floatToPCM16_below_one (negb s) m e Hv Hlt) as [-> _].
        destruct s; cbn [negb cond_Zopp]; lia.
      * rewrite !floatToPCM16_full_scale by (assumption || lia).
        destruct s; reflexivity.
  - pose proof (floatToPCM16_sample_range x Hv). lia.
Qed.

Lemma X10_witness :
  floatToPCM16_sample (SFopp (fround (fdiv one (of_Z 3))))
  = - floatToPCM16_sample (fround (fdiv one (of_Z 3)))
  /\ floatToPCM16_sample (fround (fdiv one (of_Z 3))) <> -32768.
Proof.
  apply (X10_floatToPCM16_is_odd (fround (fdiv one (of_Z 3)))). reflexivity.
Defined.

(* ================================================================== *)
(** * The random source and the seed of the web app *)
(* ================================================================== *)

(** X11.  [rng.next()] of [makeLCG] returns a value in [0, 1), and its
    state, read as an unsigned 32-bit integer, follows the recurrence
    s' = (1664525 s + 1013904223) mod 2^32, although the code keeps it as
    an unwrapped signed sum. *)
Theorem X11_LCG_next (s : Z) :
  fle zero (fst (LCG_next s)) = true
  /\ flt (fst (LCG_next s)) one = true
  /\ ToUint32 (snd (LCG_next s)) = (1664525 * ToUint32 s + 1013904223) mod 2 ^ 32.
Proof.
  unfold LCG_next. cbv zeta. cbn [fst snd].
  destruct (u32_fraction_range (ToUint32 (imul 1664525 s + 1013904223))) as [H1 H2];
    [apply ToUint32_range|].
  split; [exact H1|]. split; [exact H2|].
  unfold imul, ToUint32, ToInt32.
  change (2 ^ 32) with 4294967296. change (2 ^ 31) with 2147483648.
  Z.div_mod_to_equations. lia.
Qed.

Lemma ToUint32_lxor_distr a b :
  ToUint32 (Z.lxor a b) = Z.lxor (ToUint32 a) (ToUint32 b).
Proof. rewrite !ToUint32_land. apply land_lxor_distr. Qed.

Lemma ToUint32_small z : 0 <= z < 2 ^ 32 -> ToUint32 z = z.
Proof. intros H. unfold ToUint32. apply Z.mod_small. exact H. Qed.

Lemma fnv1a_step h c :
  0 <= c < 65536 ->
  ToUint32 (imul (Z.lxor (ToInt32 h) (ToInt32 c)) 16777619)
  = (Z.lxor (ToUint32 h) c * 16777619) mod 2 ^ 32.
Proof.
  intros Hc. unfold imul. rewrite ToUint32_ToInt32.
  unfold ToUint32 at 1. rewrite <- Z.mul_mod_idemp_l by discriminate.
  fold (ToUint32 (Z.lxor (ToInt32 h) (ToInt32 c))).
  rewrite ToUint32_lxor_distr, !ToUint32_ToInt32.
  rewrite (ToUint32_small c) by (change (2 ^ 32) with 4294967296; lia).
  reflexivity.
Qed.

Lemma fnv1a_fold str : forall h,
  Forall (fun c => 0 <= c < 65536) str ->
  ToUint32 (fold_left (fun h c => imul (Z.lxor (ToInt32 h) (ToInt32 c)) 16777619) str h)
  = fold_left (fun h c => (Z.lxor h c * 16777619) mod 2 ^ 32) str (ToUint32 h).
Proof.
  induction str as [|c str IH]; intros h Hs; cbn [fold_left]; [reflexivity|].
  inversion Hs as [|c' str' Hc Hs']; subst.
  rewrite IH by assumption. rewrite fnv1a_step by assumption. reflexivity.
Qed.

(** X12.  The hash [generateNoise] computes for a text seed, with its
    signed 32-bit steps, is the FNV-1a hash of the text: read as an
    unsigned 32-bit integer it is the value of the unsigned definition. *)
Theorem X12_fnv1a_is_FNV1a (str : list Z) :
  Forall (fun c => 0 <= c < 65536) str ->
  ToUint32 (fnv1a str) = fnv1a_reference str
  /\ - 2 ^ 31 <= fnv1a str < 2 ^ 31.
Proof.
  intros Hs. unfold fnv1a, fnv1a_reference. cbv zeta. split.
  - rewrite ToUint32_ToInt32, fnv1a_fold by assumption. reflexivity.
  - apply ToInt32_range.
Qed.

Lemma X12_witness :
  ToUint32 (fnv1a [97; 98; 99]) = fnv1a_reference [97; 98; 99]
  /\ - 2 ^ 31 <= fnv1a [97; 98; 99] < 2 ^ 31.
Proof.
  apply (X12_fnv1a_is_FNV1a [97; 98; 99]).
  repeat constructor; lia.
Defined.

Ltac by_digit c H :=
  unfold isDigit in H; apply andb_true_iff in H as [? ?];
  destruct c as [|c|c]; try reflexivity;
  do 6 (destruct c as [c|c|]; try reflexivity); discriminate.

Lemma isIntegerText_digit c rest :
  isDigit c = true -> isIntegerText (c :: rest) = forallb isDigit (c :: rest).
Proof. intros H. unfold isIntegerText. by_digit c H. Qed.

Lemma numberOfText_digit c rest :
  isDigit c = true -> numberOfText (c :: rest) = of_Z (digitsValue (c :: rest)).
Proof. intros H. unfold numberOfText. by_digit c H. Qed.

Lemma digitsValue_fold body : forall acc,
  0 <= acc -> forallb isDigit body = true ->
  0 <= fold_left (fun acc c => 10 * acc + (c - 48)) body acc.
Proof.
  induction body as [|c body IH]; intros acc Hacc Hd; cbn [fold_left]; [exact Hacc|].
  cbn [forallb] in Hd. apply andb_true_iff in Hd as [Hc Hd].
  apply IH; [|exact Hd]. unfold isDigit in Hc.
  apply andb_true_iff in Hc as [H1 H2]. apply Z.leb_le in H1, H2. lia.
Qed.

Lemma truncate_of_Z v : 0 <= v < 2 ^ 53 -> truncate (of_Z v) = v.
Proof.
  intros Hv. destruct (Z.eq_dec v 0) as [->|Hn]; [reflexivity|].
  rewrite of_Z_pos by lia.
  rewrite truncate_canon64 by (apply digits2_le; [lia | rewrite Z2Pos.id; lia]).
  rewrite Z2Pos.id by lia. cbn [cond_Zopp]. apply Z.shiftl_0_r.
Qed.

Lemma truncate_SFopp x : truncate (SFopp x) = - truncate x.
Proof. destruct x as [s|s| |s m e]; try reflexivity. destruct s; cbn; lia. Qed.

(** X13.  A seed written as a decimal integer (of at most 53 bits) seeds
    the generator with that integer wrapped to 32 bits, negated after a
    minus sign; and [makeLCG] replaces the state 0 by 123456789. *)
Theorem X13_decimal_seed (hostSeed : Z) (body : list Z) :
  body <> [] -> forallb isDigit body = true -> digitsValue body < 2 ^ 53 ->
  seedState hostSeed (Some body) = ToInt32 (digitsValue body)
  /\ seedState hostSeed (Some (45 :: body)) = ToInt32 (- digitsValue body)
  /\ (ToInt32 (digitsValue body) = 0 ->
      makeLCG (seedState hostSeed (Some body)) = 123456789).
Proof.
  intros Hne Hd Hv.
  assert (H0 : 0 <= digitsValue body) by (apply digitsValue_fold; [lia | exact Hd]).
  destruct body as [|c rest]; [congruence|].
  pose proof Hd as Hc. cbn [forallb] in Hc. apply andb_true_iff in Hc as [Hc _].
  assert (H1 : seedState hostSeed (Some (c :: rest)) = ToInt32 (digitsValue (c :: rest))).
  { unfold seedState.
    rewrite isIntegerText_digit, numberOfText_digit, Hd by exact Hc.
    unfold Number_ToInt32. rewrite truncate_of_Z by lia. reflexivity. }
  split; [exact H1|]. split.
  - unfold seedState, isIntegerText, numberOfText. rewrite Hd.
    unfold Number_ToInt32. rewrite truncate_SFopp, truncate_of_Z by lia. reflexivity.
  - intros Hz. rewrite H1. unfold makeLCG. cbv zeta.
    assert (Hi : ToInt32 (ToInt32 (digitsValue (c :: rest))) = ToInt32 (digitsValue (c :: rest)))
      by (apply ToInt32_small, ToInt32_range).
    rewrite Hi, Hz. reflexivity.
Qed.

Lemma X13_witness :
  seedState 5 (Some [52; 50]) = ToInt32 (digitsValue [52; 50])
  /\ seedState 5 (Some (45 :: [52; 50])) = ToInt32 (- digitsValue [52; 50])
  /\ (ToInt32 (digitsValue [52; 50]) = 0 ->
      makeLCG (seedState 5 (Some [52; 50])) = 123456789).
Proof.
  apply (X13_decimal_seed 5 [52; 50]); [discriminate | reflexivity | reflexivity].
Defined.

(* ================================================================== *)
(** * [generateNoise]: lengths and endpoints *)
(* ================================================================== *)

Lemma fillGaussian_length m fuel n : forall g x,
  fillGaussian m fuel n g = Some x -> length x = n.
Proof.
  induction n as [|n IH]; intros g x H; cbn [fillGaussian] in H.
  - injection H as <-. reflexivity.
  - destruct (gaussianNext m fuel g) as [[v g1]|]; [|discriminate].
    cbn [mbind option_bind] in H.
    destruct (fillGaussian m fuel n g1) as [xs|] eqn:E; [|discriminate].
    cbn [mbind option_bind] in H. injection H as <-. cbn [length]. f_equal. eapply IH; eassumption.
Qed.

Lemma removeRamp_length x : length (removeRamp x) = length x.
Proof. unfold removeRamp. apply length_imap. Qed.

Lemma soften_length b y : length (soften b y) = length y.
Proof.
  unfold soften. destruct (b && (4 <=? length y)%nat); [|reflexivity].
  rewrite !length_insert. reflexivity.
Qed.

Lemma shapeNoise_length m rmsDBFS b x : length (shapeNoise m rmsDBFS b x) = length x.
Proof.
  unfold shapeNoise. cbv zeta. rewrite length_fmap, soften_length, removeRamp_length. reflexivity.
Qed.

(** X14.  The length of the buffer [generateNoise] returns: the empty
    buffer when N is not finite or is below 2, whatever the seed and the
    level; for N >= 2 a buffer of exactly N samples whenever it returns,
    which needs the three allocations granted; and the only exception it
    can raise is a [RangeError], for N above 2^53 - 1 or for an allocation
    the host refuses. *)
Theorem X14_generateNoise_length m (alloc : Allocator) hostSeed fuel (N : integral)
    rmsDBFS softenEdges seed :
  match N with
  | IntVal z =>
      if z <? 2 then
        generateNoise m alloc hostSeed fuel N rmsDBFS softenEdges seed = Returned []
      else
        match generateNoise m alloc hostSeed fuel N rmsDBFS softenEdges seed with
        | Returned buf =>
            Z.of_nat (length buf) = z
            /\ alloc 0%nat 8 (Z.to_nat z) = true
            /\ alloc 1%nat 8 (Z.to_nat z) = true
            /\ alloc 2%nat 4 (Z.to_nat z) = true
        | Threw e =>
            e = RangeError
            /\ (2 ^ 53 - 1 < z \/ exists k w, alloc k w (Z.to_nat z) = false)
        | OutOfFuel => z <= 2 ^ 53 - 1 /\ alloc 0%nat 8 (Z.to_nat z) = true
        end
  | _ => generateNoise m alloc hostSeed fuel N rmsDBFS softenEdges seed = Returned []
  end.
Proof.
  destruct N as [|s|z]; try reflexivity. unfold generateNoise.
  destruct (z <? 2) eqn:Hz; [reflexivity|]. apply Z.ltb_ge in Hz.
  cbv zeta. cbn [ToIndex]. destruct ((0 <=? z) && (z <=? 2 ^ 53 - 1)) eqn:Hr.
  - apply andb_true_iff in Hr as [_ Hr]. apply Z.leb_le in Hr.
    destruct (alloc 0%nat 8 (Z.to_nat z)) eqn:A0; cbn [negb];
      [|split; [reflexivity | right; exists 0%nat, 8; exact A0]].
    destruct (fillGaussian _ _ _ _) as [x|] eqn:E; [|split; [exact Hr | reflexivity]].
    destruct (alloc 1%nat 8 (Z.to_nat z)) eqn:A1; cbn [negb];
      [|split; [reflexivity | right; exists 1%nat, 8; exact A1]].
    destruct (alloc 2%nat 4 (Z.to_nat z)) eqn:A2; cbn [negb];
      [|split; [reflexivity | right; exists 2%nat, 4; exact A2]].
    repeat split.
    rewrite shapeNoise_length. rewrite (fillGaussian_length _ _ _ _ _ E). lia.
  - split; [reflexivity|]. left. apply andb_false_iff in Hr as [Hr|Hr].
    + apply Z.leb_gt in Hr. lia.
    + apply Z.leb_gt in Hr. exact Hr.
Qed.

(** Rounding the canonical mantissa of a binary64 number (normal or
    subnormal) followed by zeros gives the number back. *)
Lemma binary_round_aux_canonical s (m : positive) (e j : Z) :
  canonical_mantissa 53 1024 m (e + j) = true -> 0 <= j -> e + j <= 971 ->
  binary_round_aux 53 1024 s (Zpos m * 2 ^ j) e loc_Exact = S754_finite s m (e + j).
Proof.
  intros Hc Hj He. unfold canonical_mantissa in Hc. apply Z.eqb_eq in Hc.
  unfold binary_round_aux, shr_fexp.
  rewrite Zdigits2_mul_pow2 by assumption.
  replace (Zpos (digits2_pos m) + j + e) with (Zpos (digits2_pos m) + (e + j)) by lia.
  rewrite Hc. replace (e + j - e) with j by lia.
  simpl shr_record_of_loc. rewrite shr_exact by lia.
  simpl shr_m. simpl loc_of_shr_record. simpl round_nearest_even.
  simpl Zdigits2. rewrite Hc, Z.sub_diag.
  simpl. replace (e + j <=? 1024 - 53) with true by (symmetry; apply Z.leb_le; lia).
  reflexivity.
Qed.

Lemma fmul_one_l a : finiteNumber a = true -> fmul one a = a.
Proof.
  unfold finiteNumber. intros H. apply andb_true_iff in H as [Hf Hv].
  destruct a as [s|s| |s m e]; try discriminate.
  - destruct s; reflexivity.
  - cbn [valid_binary] in Hv. unfold bounded in Hv. apply andb_true_iff in Hv as [Hc He].
    apply Z.leb_le in He.
    change one with (S754_finite false 4503599627370496 (-52)).
    unfold fmul, SFmul, prec64, emax64. cbn [xorb].
    rewrite Pos2Z.inj_mul, Z.mul_comm. change (Zpos 4503599627370496) with (2 ^ 52).
    rewrite binary_round_aux_canonical.
    + f_equal. lia.
    + replace (-52 + e + 52) with e by lia. exact Hc.
    + lia.
    + lia.
Qed.

Lemma fmul_zero_l z b :
  isZero z = true -> Number_isFinite b = true -> isZero (fmul z b) = true.
Proof.
  destruct z as [sz| | |]; try discriminate. intros _.
  destruct b as [s|s| |s m e]; try discriminate; reflexivity.
Qed.

Lemma fsub_self a : Number_isFinite a = true -> isZero (fsub a a) = true.
Proof.
  destruct a as [s|s| |s m e]; try discriminate; intros _.
  - destruct s; reflexivity.
  - unfold fsub, SFsub. rewrite Z.sub_diag. reflexivity.
Qed.

Lemma fsub_zeros a z : isZero a = true -> isZero z = true -> isZero (fsub a z) = true.
Proof.
  destruct a as [sa| | |]; try discriminate. destruct z as [sz| | |]; try discriminate.
  intros _ _. destruct sa, sz; reflexivity.
Qed.

Lemma fadd_zero_r a z :
  Number_isFinite a = true -> isZero z = true ->
  (isZero a = false -> fadd a z = a) /\ (isZero a = true -> isZero (fadd a z) = true).
Proof.
  destruct z as [sz| | |]; try discriminate. intros Hf _.
  destruct a as [s|s| |s m e]; try discriminate; split; intros H; try discriminate;
    try reflexivity.
  destruct s, sz; reflexivity.
Qed.

Lemma fadd_zero_l z b :
  isZero z = true -> Number_isFinite b = true ->
  (isZero b = false -> fadd z b = b) /\ (isZero b = true -> isZero (fadd z b) = true).
Proof.
  destruct z as [sz| | |]; try discriminate. intros _ Hf.
  destruct b as [s|s| |s m e]; try discriminate; split; intros H; try discriminate;
    try reflexivity.
  destruct s, sz; reflexivity.
Qed.

(** The divisor [N - 1] and the two extreme values of [t = i / (N - 1)]. *)
Lemma ramp_parameter k :
  1 <= k < 2 ^ 53 ->
  fdiv (of_Z 0) (of_Z k) = zero /\ fdiv (of_Z k) (of_Z k) = one.
Proof.
  intros Hk. rewrite (of_Z_pos k) by lia.
  assert (Hd : Zpos (digits2_pos (Z.to_pos k)) <= 53)
    by (apply digits2_le; [lia | rewrite Z2Pos.id; lia]).
  destruct (canon64 false (Z.to_pos k) 0) as [| | |s M E] eqn:Ec; try discriminate.
  assert (s = false) as -> by (unfold canon64 in Ec; congruence).
  apply canon64_digits in Ec as (HdM & HM & HE); [|lia].
  split; [reflexivity|].
  unfold fdiv, SFdiv, SFdiv_core_binary. simpl Zdigits2. rewrite HdM.
  unfold prec64, emax64.
  replace (Z.min (fexp 53 1024 (53 + E - (53 + E))) (E - E)) with (-53)
    by (unfold fexp, emin; lia).
  replace (E - E - -53) with 53 by lia.
  rewrite Z.shiftl_mul_pow2 by lia.
  rewrite (div_eucl_exact _ _ (2 ^ 53)) by lia.
  assert (Hl : new_location (Zpos M) 0 = loc_Exact).
  { unfold new_location. destruct (Z.even (Zpos M)); reflexivity. }
  rewrite Hl. reflexivity.
Qed.

Lemma finiteNumber_finite a : finiteNumber a = true -> Number_isFinite a = true.
Proof. unfold finiteNumber. intros H. apply andb_true_iff in H as [H _]. exact H. Qed.

(** At [i = 0] the ramp is [a] and at [i = N - 1] it is [b], exactly. *)
Lemma ramp_start a b :
  finiteNumber a = true -> finiteNumber b = true ->
  isZero (fsub a (fadd (fmul (fsub one zero) a) (fmul zero b))) = true.
Proof.
  intros Ha Hb. change (fsub one zero) with one. rewrite fmul_one_l by exact Ha.
  pose proof (finiteNumber_finite a Ha) as Hfa. pose proof (finiteNumber_finite b Hb) as Hfb.
  pose proof (fmul_zero_l zero b eq_refl Hfb) as Hz.
  destruct (fadd_zero_r a (fmul zero b) Hfa Hz) as [H1 H2].
  destruct (isZero a) eqn:Ea.
  - apply fsub_zeros; [exact Ea | apply H2; reflexivity].
  - rewrite H1 by reflexivity. apply fsub_self. exact Hfa.
Qed.

Lemma ramp_end a b :
  finiteNumber a = true -> finiteNumber b = true ->
  isZero (fsub b (fadd (fmul (fsub one one) a) (fmul one b))) = true.
Proof.
  intros Ha Hb. change (fsub one one) with zero. rewrite fmul_one_l by exact Hb.
  pose proof (finiteNumber_finite a Ha) as Hfa. pose proof (finiteNumber_finite b Hb) as Hfb.
  pose proof (fmul_zero_l zero a eq_refl Hfa) as Hz.
  destruct (fadd_zero_l (fmul zero a) b Hz Hfb) as [H1 H2].
  destruct (isZero b) eqn:Eb.
  - apply fsub_zeros; [exact Eb | apply H2; reflexivity].
  - rewrite H1 by reflexivity. apply fsub_self. exact Hfb.
Qed.

Lemma removeRamp_endpoints x a b :
  (2 <= length x)%nat -> Z.of_nat (length x) <= 2 ^ 53 ->
  x !! 0%nat = Some a -> x !! (length x - 1)%nat = Some b ->
  finiteNumber a = true -> finiteNumber b = true ->
  exists y0 y1,
    removeRamp x !! 0%nat = Some y0 /\ removeRamp x !! (length x - 1)%nat = Some y1
    /\ isZero y0 = true /\ isZero y1 = true.
Proof.
  intros Hn Hmax H0 H1 Ha Hb. unfold removeRamp. cbv zeta.
  unfold read64. rewrite H0, H1.
  destruct (ramp_parameter (Z.of_nat (length x - 1))) as [Ht0 Ht1]; [lia|].
  eexists _, _. rewrite !list_lookup_imap, H0, H1. cbn [fmap option_fmap option_map].
  split; [reflexivity|]. split; [reflexivity|].
  unfold of_nat. change (Z.of_nat 0) with 0. rewrite Ht0, Ht1.
  split; [apply ramp_start | apply ramp_end]; assumption.
Qed.

Lemma soften_endpoints b y :
  soften b y !! 0%nat = y !! 0%nat
  /\ soften b y !! (length y - 1)%nat = y !! (length y - 1)%nat.
Proof.
  unfold soften. destruct (Nat.leb_spec 4 (length y)); [|rewrite andb_false_r; split; reflexivity].
  destruct b; [|split; reflexivity]. cbn [andb].
  split; rewrite !list_lookup_insert_ne by lia; reflexivity.
Qed.

Lemma scaled_zero g v :
  isZero v = true -> Number_isFinite g = true -> isZero (fround (fmul v g)) = true.
Proof.
  intros Hv Hg. pose proof (fmul_zero_l v g Hv Hg) as H.
  destruct (fmul v g) as [s| | |]; try discriminate. reflexivity.
Qed.

(** X15.  In [generateNoise] the endpoints are zero by cancellation: when
    the first and the last drawn sample are finite and the gain is finite,
    the first and the last sample of the result are zeros (of either
    sign), with or without the softening of the edges. *)
Theorem X15_generateNoise_endpoints m rmsDBFS softenEdges (x : list number) a b :
  (2 <= length x)%nat -> Z.of_nat (length x) <= 2 ^ 53 ->
  x !! 0%nat = Some a -> x !! (length x - 1)%nat = Some b ->
  finiteNumber a = true -> finiteNumber b = true ->
  Number_isFinite (gainOf m rmsDBFS (soften softenEdges (removeRamp x))) = true ->
  exists o0 o1,
    shapeNoise m rmsDBFS softenEdges x !! 0%nat = Some o0
    /\ shapeNoise m rmsDBFS softenEdges x !! (length x - 1)%nat = Some o1
    /\ isZero o0 = true /\ isZero o1 = true.
Proof.
  intros Hn Hmax H0 H1 Ha Hb Hg.
  destruct (removeRamp_endpoints x a b Hn Hmax H0 H1 Ha Hb) as (y0 & y1 & Hy0 & Hy1 & Hz0 & Hz1).
  destruct (soften_endpoints softenEdges (removeRamp x)) as [Hs0 Hs1].
  rewrite removeRamp_length in Hs1. rewrite Hy0 in Hs0. rewrite Hy1 in Hs1.
  unfold shapeNoise. cbv zeta.
  set (y := soften softenEdges (removeRamp x)) in *.
  set (g := gainOf m rmsDBFS y) in *.
  exists (fround (fmul y0 g)), (fround (fmul y1 g)).
  rewrite !list_lookup_fmap, Hs0, Hs1.
  split; [reflexivity|]. split; [reflexivity|].
  split; apply scaled_zero; assumption.
Qed.

Lemma X15_witness :
  exists o0 o1,
    shapeNoise coarseLibm (of_Z (-60)) true [of_Z 3; of_Z (-1); of_Z 4; of_Z 1; of_Z (-5)] !! 0%nat = Some o0
    /\ shapeNoise coarseLibm (of_Z (-60)) true [of_Z 3; of_Z (-1); of_Z 4; of_Z 1; of_Z (-5)]
         !! (length [of_Z 3; of_Z (-1); of_Z 4; of_Z 1; of_Z (-5)] - 1)%nat = Some o1
    /\ isZero o0 = true /\ isZero o1 = true.
Proof.
  apply (X15_generateNoise_endpoints coarseLibm (of_Z (-60)) true
           [of_Z 3; of_Z (-1); of_Z 4; of_Z 1; of_Z (-5)] (of_Z 3) (of_Z (-5)));
    try reflexivity; cbn [length]; lia.
Defined.

(* ================================================================== *)
(** * The controls of the application *)
(* ================================================================== *)

Lemma sampleRateInput_range (x : number) :
  fle (of_Z 8000) (App.sampleRateInput x) = true
  /\ fle (App.sampleRateInput x) (of_Z 384000) = true
  /\ Number_isFinite (App.sampleRateInput x) = true
  /\ fle (App.sampleRateInput x) zero = false.
Proof.
  unfold App.sampleRateInput, App.clamp, App.orElse.
  destruct x as [s|s| |s m e]; cbn [falsy].
  - repeat split; reflexivity.
  - destruct s; repeat split; reflexivity.
  - repeat split; reflexivity.
  - change (of_Z 8000) with (S754_finite false 8796093022208000 (-40)).
    change (of_Z 384000) with (S754_finite false 6597069766656000 (-34)).
    cbn [Math_max].
    destruct (flt (S754_finite false 8796093022208000 (-40)) (S754_finite s m e)) eqn:E1;
      [|repeat split; reflexivity].
    cbn [Math_min].
    destruct (flt (S754_finite s m e) (S754_finite false 6597069766656000 (-34))) eqn:E2;
      [|repeat split; reflexivity].
    destruct s; [discriminate E1|].
    repeat split; try reflexivity; apply flt_fle; assumption.
Qed.

(** X16.  Whatever Number the sample-rate field yields (NaN, zero, an
    infinity, a negative number), the handler stores a rate in
    [8000, 384000], and the generator never rejects such a rate. *)
Theorem X16_sample_rate_control (x : number) m entropy fuel (opts : NoiseOptions) :
  fle (of_Z 8000) (App.sampleRateInput x) = true
  /\ fle (App.sampleRateInput x) (of_Z 384000) = true
  /\ (sampleRate opts = App.sampleRateInput x ->
      generateEndpointConstrainedWhiteNoise m entropy fuel opts
      <> Threw (Error sampleRateMessage)).
Proof.
  destruct (sampleRateInput_range x) as (H1 & H2 & H3 & H4).
  split; [exact H1|]. split; [exact H2|].
  intros Hr. unfold generateEndpointConstrainedWhiteNoise. rewrite Hr, H3, H4.
  cbn [negb orb].
  destruct (ToIndex _); [destruct (rawNoise _ _ _ _ _)|]; discriminate.
Qed.

(** X17.  Whatever Number the target-level field yields, the handler
    stores a level in [-150, 0] dBFS; it is never NaN. *)
Theorem X17_target_level_control (x : number) :
  fle (of_Z (-150)) (App.targetRmsInput x) = true
  /\ fle (App.targetRmsInput x) zero = true.
Proof.
  unfold App.targetRmsInput, App.clamp, App.orElse.
  destruct x as [s|s| |s m e]; cbn [falsy].
  - split; reflexivity.
  - destruct s; split; reflexivity.
  - split; reflexivity.
  - change (of_Z (-150)) with (S754_finite true 5277655813324800 (-45)).
    cbn [Math_max].
    destruct (flt (S754_finite true 5277655813324800 (-45)) (S754_finite s m e)) eqn:E1;
      [|split; reflexivity].
    change zero with (S754_zero false). cbn [Math_min].
    destruct (flt (S754_finite s m e) (S754_zero false)) eqn:E2; [|split; reflexivity].
    split; apply flt_fle; assumption.
Qed.

(* ================================================================== *)
(** * The polar method of [makeGaussian] *)
(* ================================================================== *)

Lemma SFcompare_antisym a b :
  SFcompare b a = match SFcompare a b with Some c => Some (CompOpp c) | None => None end.
Proof.
  destruct a as [sa|sa| |sa ma ea], b as [sb|sb| |sb mb eb]; cbn [SFcompare];
    try (destruct sa; reflexivity); try (destruct sb; reflexivity);
    try (destruct sa, sb; reflexivity); try reflexivity.
  destruct sa, sb; cbn [CompOpp]; try reflexivity.
  - rewrite (Z.compare_antisym ea eb).
    destruct (ea ?= eb); cbn [CompOpp]; try reflexivity.
    pose proof (Pos.compare_cont_antisym ma mb Eq) as P. cbn [CompOpp] in P.
    rewrite <- P. destruct (Pos.compare_cont Eq ma mb); reflexivity.
  - rewrite (Z.compare_antisym ea eb).
    destruct (ea ?= eb); cbn [CompOpp]; try reflexivity.
    pose proof (Pos.compare_cont_antisym ma mb Eq) as P. cbn [CompOpp] in P.
    rewrite <- P. destruct (Pos.compare_cont Eq ma mb); reflexivity.
Qed.

Lemma not_fle_flt a b : isNaN a = false -> isNaN b = false -> fle a b = false -> flt b a = true.
Proof.
  unfold fle, flt, SFleb, SFltb. intros Ha Hb. rewrite (SFcompare_antisym a b).
  destruct (SFcompare a b) as [[| |]|] eqn:E; try discriminate; try reflexivity.
  destruct a as [sa|sa| |sa ma ea], b as [sb|sb| |sb mb eb]; discriminate.
Qed.

Lemma polarPair_accepts fuel : forall s u v q s',
  polarPair fuel s = Some (u, v, q, s') ->
  flt zero q = true /\ flt q one = true.
Proof.
  induction fuel as [|fuel IH]; intros s u v q s' H; [discriminate|].
  cbn [polarPair] in H.
  destruct (LCG_next s) as [r1 s1]. destruct (LCG_next s1) as [r2 s2].
  set (u0 := fsub (fmul two r1) one) in *. set (v0 := fsub (fmul two r2) one) in *.
  set (q0 := fadd (fmul u0 u0) (fmul v0 v0)) in *.
  destruct (falsy q0 || fle one q0) eqn:E; [eapply IH; exact H|].
  injection H as <- <- <- <-.
  apply orb_false_iff in E as [Ef El].
  assert (Hs : signBit q0 = false) by (apply fadd_nonneg; apply square_nonneg).
  assert (Hn : isNaN q0 = false) by (destruct q0; try discriminate; reflexivity).
  split.
  - destruct q0 as [s0|s0| |s0 m0 e0]; try discriminate; cbn [signBit] in Hs; subst; reflexivity.
  - apply not_fle_flt; [reflexivity | exact Hn | exact El].
Qed.

(** X18.  A call of [gaussian] that finds no spare draws a pair whose sum
    of squares s satisfies 0 < s < 1 (so the logarithm is taken of a
    number strictly between 0 and 1), returns u * mul and keeps v * mul;
    the next call returns that spare without calling the generator. *)
Theorem X18_makeGaussian_spare m fuel (g g1 : GaussianState) (x : number) :
  spare g = None -> gaussianNext m fuel g = Some (x, g1) ->
  exists u v q,
    polarPair fuel (lcg g) = Some (u, v, q, lcg g1)
    /\ flt zero q = true /\ flt q one = true
    /\ x = fmul u (Math_sqrt (fdiv (fmul (of_Z (-2)) (libm_log m q)) q))
    /\ forall fuel',
         gaussianNext m fuel' g1
         = Some (fmul v (Math_sqrt (fdiv (fmul (of_Z (-2)) (libm_log m q)) q)),
                 {| spare := None; lcg := lcg g1 |}).
Proof.
  intros Hs H. unfold gaussianNext in H. rewrite Hs in H.
  destruct (polarPair fuel (lcg g)) as [[[[u v] q] s']|] eqn:E; [|discriminate].
  cbn [mbind option_bind] in H. injection H as <- <-. cbn [lcg].
  exists u, v, q. split; [reflexivity|].
  destruct (polarPair_accepts fuel _ _ _ _ _ E) as [H1 H2].
  split; [exact H1|]. split; [exact H2|]. split; [reflexivity|].
  intros fuel'. reflexivity.
Qed.

Lemma X18_witness :
  exists u v q,
    polarPair 50 (lcg {| spare := None; lcg := makeLCG 42 |})
    = Some (u, v, q, lcg (snd (default (zero, {| spare := None; lcg := 0 |})
                                 (gaussianNext coarseLibm 50 {| spare := None; lcg := makeLCG 42 |}))))
    /\ flt zero q = true /\ flt q one = true
    /\ fst (default (zero, {| spare := None; lcg := 0 |})
              (gaussianNext coarseLibm 50 {| spare := None; lcg := makeLCG 42 |}))
       = fmul u (Math_sqrt (fdiv (fmul (of_Z (-2)) (libm_log coarseLibm q)) q))
    /\ forall fuel',
         gaussianNext coarseLibm fuel'
           (snd (default (zero, {| spare := None; lcg := 0 |})
                   (gaussianNext coarseLibm 50 {| spare := None; lcg := makeLCG 42 |})))
         = Some (fmul v (Math_sqrt (fdiv (fmul (of_Z (-2)) (libm_log coarseLibm q)) q)),
                 {| spare := None;
                    lcg := lcg (snd (default (zero, {| spare := None; lcg := 0 |})
                                       (gaussianNext coarseLibm 50 {| spare := None; lcg := makeLCG 42 |}))) |}).
Proof.
  apply (X18_makeGaussian_spare coarseLibm 50 {| spare := None; lcg := makeLCG 42 |}
           (snd (default (zero, {| spare := None; lcg := 0 |})
                   (gaussianNext coarseLibm 50 {| spare := None; lcg := makeLCG 42 |})))
           (fst (default (zero, {| spare := None; lcg := 0 |})
                   (gaussianNext coarseLibm 50 {| spare := None; lcg := makeLCG 42 |}))));
    [reflexivity | vm_compute; reflexivity].
Defined.

(* ================================================================== *)
(** * The request of the component in the mode "samples" *)
(* ================================================================== *)

(** X19.  In the mode "samples" the component asks for an integer number
    of samples between 2 and 2^31 - 1, whatever the field holds; so
    [generateNoise] never answers with the empty buffer: a buffer it
    returns has exactly that many samples, and the only exception it can
    raise is the [RangeError] of an allocation the host refuses. *)
Theorem X19_samples_mode_request (x : number) m (alloc : Allocator) hostSeed fuel
    rmsDBFS softenEdges seed :
  exists z,
    effectiveN_samples x = IntVal z /\ 2 <= z < 2 ^ 31
    /\ match generateNoise m alloc hostSeed fuel (effectiveN_samples x)
                rmsDBFS softenEdges seed with
       | Returned buf => Z.of_nat (length buf) = z
       | Threw e => e = RangeError /\ exists k w, alloc k w (Z.to_nat z) = false
       | OutOfFuel => True
       end.
Proof.
  unfold effectiveN_samples. exists (Z.max 2 (Number_ToInt32 x)).
  pose proof (ToInt32_range (truncate x)) as Hr. fold (Number_ToInt32 x) in Hr.
  set (z := Z.max 2 (Number_ToInt32 x)).
  assert (Hz : 2 <= z < 2 ^ 31) by (unfold z; lia).
  split; [reflexivity|]. split; [exact Hz|].
  unfold generateNoise.
  replace (z <? 2) with false by (symmetry; apply Z.ltb_ge; lia).
  cbv zeta. cbn [ToIndex].
  replace ((0 <=? z) && (z <=? 2 ^ 53 - 1)) with true.
  - destruct (alloc 0%nat 8 (Z.to_nat z)) eqn:A0; cbn [negb];
      [|split; [reflexivity | exists 0%nat, 8; exact A0]].
    destruct (fillGaussian _ _ _ _) as [y|] eqn:E; [|exact I].
    destruct (alloc 1%nat 8 (Z.to_nat z)) eqn:A1; cbn [negb];
      [|split; [reflexivity | exists 1%nat, 8; exact A1]].
    destruct (alloc 2%nat 4 (Z.to_nat z)) eqn:A2; cbn [negb];
      [|split; [reflexivity | exists 2%nat, 4; exact A2]].
    rewrite shapeNoise_length, (fillGaussian_length _ _ _ _ _ E). lia.
  - symmetry. apply andb_true_iff. split; apply Z.leb_le; [lia|].
    apply Z.le_trans with (2 ^ 31); [lia|]. vm_compute. discriminate.
Qed.

(* ================================================================== *)
(** * Rounding with a remainder *)
(* ================================================================== *)

Lemma shr_1_nonneg m r s :
  0 <= m ->
  shr_1 {| shr_m := m; shr_r := r; shr_s := s |}
  = {| shr_m := m / 2; shr_r := Z.odd m; shr_s := r || s |}.
Proof.
  intros Hm. rewrite <- Z.div2_div.
  destruct m as [|[p|p|]|p]; try lia; reflexivity.
Qed.

Lemma iter_pos_nat {A : Type} (f : A -> A) p : forall x,
  SpecFloat.iter_pos f p x = Nat.iter (Pos.to_nat p) f x.
Proof.
  induction p as [p IH|p IH|]; intros x; cbn [SpecFloat.iter_pos].
  - rewrite IH, IH, Pos2Nat.inj_xI.
    replace (S (2 * Pos.to_nat p)) with (Pos.to_nat p + S (Pos.to_nat p))%nat by lia.
    rewrite Nat.iter_add. f_equal. symmetry. apply Nat.iter_succ_r.
  - rewrite IH, IH, Pos2Nat.inj_xO.
    replace (2 * Pos.to_nat p)%nat with (Pos.to_nat p + Pos.to_nat p)%nat by lia.
    rewrite Nat.iter_add. reflexivity.
  - reflexivity.
Qed.

(** The record after [k + 1] shifts to the right: the quotient, the bit
    shifted out last, and whether a bit shifted out before it was set. *)
Lemma iter_shr_1 (M : Z) (k : nat) :
  0 <= M ->
  Nat.iter (S k) shr_1 {| shr_m := M; shr_r := false; shr_s := false |}
  = {| shr_m := M / 2 ^ (Z.of_nat k + 1);
       shr_r := 2 ^ Z.of_nat k <=? M mod 2 ^ (Z.of_nat k + 1);
       shr_s := negb (M mod 2 ^ Z.of_nat k =? 0) |}.
Proof.
  intros HM. induction k as [|k IH].
  - cbn [Nat.iter]. rewrite shr_1_nonneg by exact HM.
    change (Z.of_nat 0) with 0. change (2 ^ (0 + 1)) with 2. change (2 ^ 0) with 1.
    rewrite Z.mod_1_r. f_equal.
    rewrite Zmod_odd. destruct (Z.odd M); reflexivity.
  - change (Nat.iter (S (S k)) shr_1 ?x) with (shr_1 (Nat.iter (S k) shr_1 x)).
    rewrite IH. rewrite Nat2Z.inj_succ.
    set (j := Z.of_nat k) in *. assert (Hj : 0 <= j) by (unfold j; lia). clearbody j.
    assert (HP : 0 < 2 ^ j) by (apply pow2_pos; exact Hj).
    replace (Z.succ j) with (j + 1) by lia.
    replace (j + 1 + 1) with (j + 2) by lia.
    assert (E1 : 2 ^ (j + 1) = 2 ^ j * 2) by (rewrite Z.pow_add_r by lia; reflexivity).
    assert (E2 : 2 ^ (j + 2) = 2 ^ (j + 1) * 2)
      by (replace (j + 2) with (j + 1 + 1) by lia; rewrite (Z.pow_add_r 2 (j + 1) 1) by lia; reflexivity).
    rewrite shr_1_nonneg by (apply Z.div_pos; lia).
    assert (Hq : M / 2 ^ (j + 1) / 2 = M / 2 ^ (j + 2)).
    { rewrite E2. apply Z.div_div; lia. }
    assert (Hr2 : M mod 2 ^ (j + 2) = M mod 2 ^ (j + 1) + 2 ^ (j + 1) * ((M / 2 ^ (j + 1)) mod 2)).
    { rewrite E2. apply Z.rem_mul_r; lia. }
    assert (Hr1 : M mod 2 ^ (j + 1) = M mod 2 ^ j + 2 ^ j * ((M / 2 ^ j) mod 2)).
    { rewrite E1. apply Z.rem_mul_r; lia. }
    pose proof (Z.mod_pos_bound M (2 ^ (j + 1)) ltac:(lia)) as B1.
    pose proof (Z.mod_pos_bound M (2 ^ j) HP) as B0.
    pose proof (Z.mod_pos_bound (M / 2 ^ j) 2 ltac:(lia)) as Bb.
    f_equal.
    + exact Hq.
    + rewrite Hr2, Zmod_odd. clear -B1. revert B1.
      generalize (M mod 2 ^ (j + 1)). intros r. generalize (2 ^ (j + 1)). intros P B1.
      destruct (Z.odd (M / P)); symmetry; [apply Z.leb_le | apply Z.leb_gt]; lia.
    + rewrite Hr1. clear -B0 Bb HP. revert B0 Bb HP.
      generalize ((M / 2 ^ j) mod 2). intros b. generalize (M mod 2 ^ j). intros r.
      generalize (2 ^ j). intros P B0 Bb HP.
      assert (Hb : b = 0 \/ b = 1) by lia.
      destruct Hb as [-> | ->]; rewrite ?Z.mul_0_r, ?Z.mul_1_r, ?Z.add_0_r.
      * replace (P <=? r) with false by (symmetry; apply Z.leb_gt; lia). reflexivity.
      * replace (P <=? r + P) with true by (symmetry; apply Z.leb_le; lia).
        replace (r + P =? 0) with false by (symmetry; apply Z.eqb_neq; lia).
        reflexivity.
Qed.

Lemma shr_inexact (M e n : Z) :
  0 <= M -> 0 < n ->
  shr {| shr_m := M; shr_r := false; shr_s := false |} e n
  = ({| shr_m := M / 2 ^ n;
        shr_r := 2 ^ (n - 1) <=? M mod 2 ^ n;
        shr_s := negb (M mod 2 ^ (n - 1) =? 0) |}, e + n).
Proof.
  intros HM Hn. destruct n as [|p|p]; try lia. unfold shr.
  rewrite iter_pos_nat.
  destruct (Pos.to_nat p) as [|k] eqn:Ek; [lia|].
  rewrite iter_shr_1 by exact HM.
  replace (Z.of_nat k + 1) with (Zpos p) by lia.
  replace (Z.of_nat k) with (Zpos p - 1) by lia. reflexivity.
Qed.

(** Rounding to nearest after a shift by [n] bits: the quotient or its
    successor, and the quotient when the remainder is below one half. *)
Lemma round_after_shift (M n : Z) :
  0 <= M -> 0 < n ->
  let mrs := {| shr_m := M / 2 ^ n;
                shr_r := 2 ^ (n - 1) <=? M mod 2 ^ n;
                shr_s := negb (M mod 2 ^ (n - 1) =? 0) |} in
  let m2 := round_nearest_even (shr_m mrs) (loc_of_shr_record mrs) in
  M / 2 ^ n <= m2 <= M / 2 ^ n + 1
  /\ (M mod 2 ^ n < 2 ^ (n - 1) -> m2 = M / 2 ^ n).
Proof.
  intros HM Hn mrs m2. unfold m2, mrs. cbn [shr_m loc_of_shr_record].
  destruct (Z.leb_spec (2 ^ (n - 1)) (M mod 2 ^ n)) as [Hr|Hr];
    destruct (negb (M mod 2 ^ (n - 1) =? 0)); cbn [round_nearest_even];
    try destruct (Z.even (M / 2 ^ n)); split; intros; lia.
Qed.

Lemma Zdigits2_le m k : 0 <= k -> 0 <= m < 2 ^ k -> Zdigits2 m <= k.
Proof.
  intros Hk Hm. destruct m as [|p|p]; try lia; cbn [Zdigits2]; [exact Hk|].
  apply digits2_le; lia.
Qed.

(** A mantissa that fits needs no second shift. *)
Lemma no_second_shift prec emax m2 g :
  0 < prec -> emin prec emax <= g -> 0 <= m2 < 2 ^ prec ->
  shr_fexp prec emax m2 g loc_Exact
  = ({| shr_m := m2; shr_r := false; shr_s := false |}, g).
Proof.
  intros Hp Hg Hm. unfold shr_fexp. cbn [shr_record_of_loc].
  pose proof (Zdigits2_le m2 prec ltac:(lia) Hm) as Hd.
  assert (Hn : fexp prec emax (Zdigits2 m2 + g) - g <= 0) by (unfold fexp; lia).
  unfold shr. destruct (fexp prec emax (Zdigits2 m2 + g) - g); try reflexivity. lia.
Qed.

(** A mantissa that rounding carried to [2^prec] is shifted once more. *)
Lemma carry_shift prec emax g :
  0 < prec -> emin prec emax <= g ->
  shr_fexp prec emax (2 ^ prec) g loc_Exact
  = ({| shr_m := 2 ^ (prec - 1); shr_r := false; shr_s := false |}, g + 1).
Proof.
  intros Hp Hg. unfold shr_fexp. cbn [shr_record_of_loc].
  assert (Hd : Zdigits2 (2 ^ prec) = prec + 1).
  { rewrite <- (Z.mul_1_l (2 ^ prec)). rewrite (Zdigits2_mul_pow2 1 prec) by lia.
    cbn [digits2_pos]. lia. }
  rewrite Hd.
  replace (fexp prec emax (prec + 1 + g) - g) with 1 by (unfold fexp; lia).
  assert (E : 2 ^ prec = 2 ^ (prec - 1) * 2 ^ 1).
  { rewrite <- Z.pow_add_r by lia. f_equal. lia. }
  rewrite E at 1. apply shr_exact; [apply pow2_pos; lia | lia].
Qed.

(** The result of rounding the integer [M * 2^E] when [n] low bits are
    dropped ([n >= 0]): the mantissa is [M / 2^n] or its successor, the
    former when the remainder is below one half; a carry to [2^prec]
    moves the exponent up by one. *)
Lemma binary_round_aux_shape prec emax s (M : positive) (E : Z) :
  0 < prec ->
  let g := fexp prec emax (Zpos (digits2_pos M) + E) in
  let n := g - E in
  0 <= n ->
  exists m2 : Z,
    Zpos M / 2 ^ n <= m2 <= Zpos M / 2 ^ n + 1
    /\ (2 * (Zpos M mod 2 ^ n) < 2 ^ n -> m2 = Zpos M / 2 ^ n)
    /\ m2 <= 2 ^ prec
    /\ binary_round_aux prec emax s (Zpos M) E loc_Exact
       = if m2 =? 0 then S754_zero s
         else if m2 <? 2 ^ prec then
           (if g <=? emax - prec then S754_finite s (Z.to_pos m2) g else S754_infinity s)
         else
           (if g + 1 <=? emax - prec then S754_finite s (Z.to_pos (2 ^ (prec - 1))) (g + 1)
            else S754_infinity s).
Proof.
  intros Hp g n Hn.
  assert (Hg : emin prec emax <= g) by (unfold g, fexp; lia).
  pose proof (digits2_bounds M) as HdM.
  set (d := Zpos (digits2_pos M)) in *.
  assert (Hd : 0 < d) by (unfold d; lia).
  assert (Hdn : d - prec <= n) by (unfold n, g, fexp; lia).
  assert (HP : 0 < 2 ^ n) by (apply pow2_pos; exact Hn).
  (* the quotient has at most [prec] bits *)
  assert (Hm1 : 0 <= Zpos M / 2 ^ n < 2 ^ prec).
  { split; [apply Z.div_pos; lia|].
    apply Z.div_lt_upper_bound; [exact HP|].
    rewrite <- Z.pow_add_r by lia.
    apply Z.lt_le_trans with (2 ^ d); [lia|].
    apply Z.pow_le_mono_r; lia. }
  assert (Hfin : forall m2 : Z,
    Zpos M / 2 ^ n <= m2 <= Zpos M / 2 ^ n + 1 ->
    (let '(mrs, e2) := shr_fexp prec emax m2 g loc_Exact in
     match shr_m mrs with
     | 0 => S754_zero s
     | Zpos m => if e2 <=? emax - prec then S754_finite s m e2 else S754_infinity s
     | Zneg _ => S754_nan
     end)
    = if m2 =? 0 then S754_zero s
      else if m2 <? 2 ^ prec then
        (if g <=? emax - prec then S754_finite s (Z.to_pos m2) g else S754_infinity s)
      else
        (if g + 1 <=? emax - prec then S754_finite s (Z.to_pos (2 ^ (prec - 1))) (g + 1)
         else S754_infinity s)).
  { intros m2 Hm2.
    destruct (Z.ltb_spec m2 (2 ^ prec)) as [Hlt|Hge].
    - rewrite no_second_shift by lia. cbn [shr_m].
      destruct m2 as [|p|p]; try lia; reflexivity.
    - assert (m2 = 2 ^ prec) as -> by lia.
      rewrite carry_shift by lia. cbn [shr_m].
      assert (H2 : 0 < 2 ^ (prec - 1)) by (apply pow2_pos; lia).
      assert (H3 : 0 < 2 ^ prec) by (apply pow2_pos; lia).
      replace (2 ^ prec =? 0) with false by (symmetry; apply Z.eqb_neq; lia).
      destruct (2 ^ (prec - 1)) as [|p|p]; try lia. reflexivity. }
  unfold binary_round_aux. unfold shr_fexp at 1. cbn [Zdigits2 shr_record_of_loc]. fold d. fold g. fold n.
  destruct (Z.eq_dec n 0) as [Hn0|Hn0].
  - (* nothing is dropped *)
    rewrite Hn0. cbn [shr shr_m loc_of_shr_record round_nearest_even].
    exists (Zpos M). change (2 ^ 0) with 1. rewrite Z.div_1_r, Z.mod_1_r.
    rewrite Hn0 in Hm1. change (2 ^ 0) with 1 in Hm1. rewrite Z.div_1_r in Hm1.
    split; [lia|]. split; [reflexivity|]. split; [lia|].
    assert (HE : g = E) by (unfold n in Hn0; lia).
    specialize (Hfin (Zpos M)). rewrite Hn0 in Hfin. change (2 ^ 0) with 1 in Hfin.
    rewrite Z.div_1_r in Hfin. rewrite HE in Hfin |- *. apply Hfin. lia.
  - rewrite (shr_inexact (Zpos M) E n) by lia.
    pose proof (round_after_shift (Zpos M) n ltac:(lia) ltac:(lia)) as Hr.
    cbv zeta in Hr.
    set (mrs := {| shr_m := Zpos M / 2 ^ n;
                   shr_r := 2 ^ (n - 1) <=? Zpos M mod 2 ^ n;
                   shr_s := negb (Zpos M mod 2 ^ (n - 1) =? 0) |}) in *.
    set (m2 := round_nearest_even (shr_m mrs) (loc_of_shr_record mrs)) in *.
    destruct Hr as [Hr1 Hr2].
    exists m2. split; [exact Hr1|]. split.
    { intros Hhalf. apply Hr2.
      assert (E2 : 2 ^ n = 2 ^ (n - 1) * 2).
      { replace n with (n - 1 + 1) at 1 by lia. rewrite Z.pow_add_r by lia. reflexivity. }
      lia. }
    split; [lia|].
    replace (E + n) with g by (unfold n; lia).
    apply Hfin. exact Hr1.
Qed.

(* ================================================================== *)
(** * Storing into a [Float32Array] *)
(* ================================================================== *)

Lemma shl_align_spec m e g :
  let '(mz, ez) := shl_align m e g in
  ez = Z.min e g /\ Zpos mz = Zpos m * 2 ^ (e - ez).
Proof.
  unfold shl_align. destruct (g - e) as [|k|k] eqn:Ek.
  - split; [lia|]. replace (e - e) with 0 by lia. lia.
  - split; [lia|]. replace (e - e) with 0 by lia. lia.
  - split; [lia|]. rewrite pos_iter_xO. f_equal. f_equal. lia.
Qed.

(** Whatever Number is stored, the element is in the range of binary32. *)
Lemma fround_inFloat32 (y : number) : inFloat32 (fround y).
Proof.
  destruct y as [s|s| |s m e]; try exact I.
  unfold fround, binary_round, prec32, emax32.
  pose proof (shl_align_spec m e (fexp 24 128 (Zpos (digits2_pos m) + e))) as Ha.
  destruct (shl_align m e (fexp 24 128 (Zpos (digits2_pos m) + e))) as [mz ez].
  destruct Ha as [Hez Hmz].
  assert (Hdz : Zpos (digits2_pos mz) = Zpos (digits2_pos m) + (e - ez)).
  { pose proof (Zdigits2_mul_pow2 m (e - ez) ltac:(lia)) as H.
    rewrite <- Hmz in H. exact H. }
  assert (Hg : fexp 24 128 (Zpos (digits2_pos mz) + ez)
               = fexp 24 128 (Zpos (digits2_pos m) + e)).
  { f_equal. lia. }
  destruct (binary_round_aux_shape 24 128 s mz ez ltac:(lia)) as (m2 & H1 & _ & H3 & ->).
  { rewrite Hg. lia. }
  rewrite Hg in *. set (g := fexp 24 128 (Zpos (digits2_pos m) + e)) in *.
  assert (Hge : -149 <= g) by (unfold g, fexp, emin; lia).
  assert (H0 : 0 <= m2).
  { apply Z.le_trans with (Zpos mz / 2 ^ (g - ez)); [|exact (proj1 H1)].
    apply Z.div_pos; [lia | apply pow2_pos; lia]. }
  destruct (Z.eqb_spec m2 0) as [?|Hne]; [exact I|].
  destruct (Z.ltb_spec m2 (2 ^ 24)) as [Hlt|Hge24].
  - destruct (Z.leb_spec g (128 - 24)) as [Hle|?]; [|exact I].
    cbn [inFloat32]. rewrite Z2Pos.id by lia. lia.
  - destruct (Z.leb_spec (g + 1) (128 - 24)) as [Hle|?]; [|exact I].
    cbn [inFloat32]. split; [reflexivity | lia].
Qed.

(** A binary64 number of magnitude at most 1 + 2^-51 is stored as an
    element of magnitude at most 1. *)
Lemma fround_unit s m e :
  Zpos (digits2_pos m) = 53 ->
  e <= -53 \/ (e = -52 /\ Zpos m <= 2 ^ 52 + 2) ->
  unitFloat32 (fround (S754_finite s m e)).
Proof.
  intros Hd Hv. unfold fround, binary_round, prec32, emax32.
  rewrite Hd.
  assert (Hsh : shl_align m e (fexp 24 128 (53 + e)) = (m, e)).
  { unfold shl_align. destruct (fexp 24 128 (53 + e) - e) eqn:E; try reflexivity.
    unfold fexp, emin in E. lia. }
  rewrite Hsh.
  destruct (binary_round_aux_shape 24 128 s m e ltac:(lia)) as (m2 & H1 & H2 & H3 & ->).
  { rewrite Hd. unfold fexp, emin. lia. }
  rewrite Hd in *. set (g := fexp 24 128 (53 + e)) in *.
  assert (Hge : -149 <= g) by (unfold g, fexp, emin; lia).
  assert (H0 : 0 <= m2).
  { apply Z.le_trans with (Zpos m / 2 ^ (g - e)); [|exact (proj1 H1)].
    apply Z.div_pos; [lia | apply pow2_pos; unfold g, fexp, emin; lia]. }
  destruct Hv as [Hv | [He Hm]].
  - assert (Hg24 : g <= -24) by (unfold g, fexp, emin; lia).
    destruct (Z.eqb_spec m2 0) as [?|Hne]; [exact I|].
    destruct (Z.ltb_spec m2 (2 ^ 24)) as [Hlt|Hge24].
    + replace (g <=? 128 - 24) with true by (symmetry; apply Z.leb_le; lia).
      cbn [unitFloat32]. rewrite Z2Pos.id by lia.
      split; [exact Hlt|]. split; [lia|]. left.
      pose proof (digits2_le (Z.to_pos m2) 24 ltac:(lia)) as Hdl.
      rewrite Z2Pos.id in Hdl by lia. specialize (Hdl Hlt). lia.
    + replace (g + 1 <=? 128 - 24) with true by (symmetry; apply Z.leb_le; lia).
      cbn [unitFloat32]. change (Z.to_pos (2 ^ (24 - 1))) with 8388608%positive.
      split; [reflexivity|]. split; [lia|].
      destruct (Z.eq_dec g (-24)) as [->|Hg]; [right; split; reflexivity|].
      left. change (Zpos (digits2_pos 8388608)) with 24. lia.
  - subst e. assert (Hg : g = -23) by reflexivity.
    rewrite Hg in *. change (-23 - -52) with 29 in *.
    pose proof (digits2_bounds m) as Hb. rewrite Hd in Hb. change (53 - 1) with 52 in Hb.
    assert (Hq : Zpos m / 2 ^ 29 = 2 ^ 23 /\ Zpos m mod 2 ^ 29 = Zpos m - 2 ^ 52).
    { assert (Ht : 0 <= Zpos m - 2 ^ 52 < 2 ^ 29).
      { split; [lia|]. apply Z.le_lt_trans with 2; [lia | reflexivity]. }
      assert (Em : Zpos m = 2 ^ 29 * 2 ^ 23 + (Zpos m - 2 ^ 52)).
      { change (2 ^ 29 * 2 ^ 23) with (2 ^ 52). ring. }
      split.
      - symmetry. apply (Z.div_unique_pos _ _ _ (Zpos m - 2 ^ 52)); assumption.
      - symmetry. apply (Z.mod_unique_pos _ _ (2 ^ 23)); assumption. }
    destruct Hq as [Hq Hr]. rewrite Hq, Hr in *.
    assert (m2 = 2 ^ 23) as ->.
    { apply H2. apply Z.le_lt_trans with 4; [lia | reflexivity]. }
    cbn [unitFloat32]. vm_compute. repeat split; try discriminate. right. split; reflexivity.
Qed.

(** An element of magnitude at most 1 is within full scale. *)
Lemma unitFloat32_withinFullScale x : unitFloat32 x -> withinFullScale x = true.
Proof.
  destruct x as [s|s| |s m e]; cbn [unitFloat32]; try contradiction.
  - intros _. destruct s; reflexivity.
  - intros (Hm & He & Hv). unfold withinFullScale.
    pose proof (digits2_le m 24 ltac:(lia) Hm) as Hd.
    unfold widen, prec64, emax64. rewrite binary_round_exact by lia.
    destruct Hv as [Hv | [Hm23 He23]].
    + unfold canon64. cbn [Math_abs SFabs].
      change one with (S754_finite false 4503599627370496 (-52)).
      unfold fle, SFleb, SFcompare.
      replace (e - (53 - Zpos (digits2_pos m)) ?= -52) with Lt
        by (symmetry; apply Z.compare_lt_iff; lia).
      reflexivity.
    + assert (m = 8388608%positive) as -> by (apply Pos2Z.inj; exact Hm23).
      subst e. destruct s; reflexivity.
Qed.

(* ================================================================== *)
(** * The product and the reciprocal, rounded *)
(* ================================================================== *)

Lemma digits2_53 (m : Z) : 2 ^ 52 <= m < 2 ^ 53 -> Zpos (digits2_pos (Z.to_pos m)) = 53.
Proof.
  intros Hm.
  assert (Hp : 0 < m) by (apply Z.lt_le_trans with (2 ^ 52); [reflexivity | apply Hm]).
  pose proof (digits2_le (Z.to_pos m) 53 ltac:(lia)) as H1.
  pose proof (digits2_ge (Z.to_pos m) 52) as H2.
  rewrite Z2Pos.id in H1, H2 by exact Hp.
  specialize (H1 (proj2 Hm)). specialize (H2 (proj1 Hm)). lia.
Qed.

(** Rounding a 53-bit mantissa whose position is known only up to a
    location: the mantissa or its successor. *)
Lemma binary_round_aux_fits s (q : positive) e l :
  2 ^ 52 <= Zpos q -> Zpos q + 1 < 2 ^ 53 -> -1074 <= e <= 971 ->
  exists m2 : positive,
    binary_round_aux 53 1024 s (Zpos q) e l = S754_finite s m2 e
    /\ Zpos q <= Zpos m2 <= Zpos q + 1.
Proof.
  intros Hlo Hhi He.
  assert (Hd : Zpos (digits2_pos q) = 53).
  { rewrite <- (digits2_53 (Zpos q)); [reflexivity|]. split; [exact Hlo|].
    apply Z.lt_trans with (Zpos q + 1); [lia | exact Hhi]. }
  unfold binary_round_aux. unfold shr_fexp at 1. cbn [Zdigits2]. rewrite Hd.
  replace (fexp 53 1024 (53 + e) - e) with 0 by (unfold fexp, emin; lia).
  cbn [shr].
  set (m2 := round_nearest_even (shr_m (shr_record_of_loc (Zpos q) l))
               (loc_of_shr_record (shr_record_of_loc (Zpos q) l))).
  assert (Hm2 : Zpos q <= m2 <= Zpos q + 1).
  { unfold m2. destruct l as [|[| |]]; cbn [shr_record_of_loc shr_m loc_of_shr_record round_nearest_even];
      try destruct (Z.even (Zpos q)); lia. }
  clearbody m2.
  rewrite no_second_shift; [| lia | unfold emin; lia |].
  - cbn [shr_m]. destruct m2 as [|p|p]; try lia.
    replace (e <=? 1024 - 53) with true by (symmetry; apply Z.leb_le; lia).
    exists p. split; [reflexivity | exact Hm2].
  - split; [lia|]. apply Z.le_lt_trans with (Zpos q + 1); [apply Hm2 | exact Hhi].
Qed.

(** The product of two binary64 numbers with full mantissas: the result
    has a full mantissa and exceeds the exact product by less than one
    unit of its last place. *)
Lemma fmul_rounded sx mx ex sk mk ek :
  Zpos (digits2_pos mx) = 53 -> Zpos (digits2_pos mk) = 53 ->
  -1000 <= ex + ek <= 800 ->
  exists (m : positive) (j : Z),
    fmul (S754_finite sx mx ex) (S754_finite sk mk ek)
    = S754_finite (xorb sx sk) m (ex + ek + j)
    /\ Zpos (digits2_pos m) = 53
    /\ 52 <= j <= 54
    /\ Zpos m * 2 ^ j <= Zpos mx * Zpos mk + 2 ^ j.
Proof.
  intros Hdx Hdk HE. unfold fmul, SFmul, prec64, emax64.
  pose proof (digits2_bounds mx) as Hbx. rewrite Hdx in Hbx.
  pose proof (digits2_bounds mk) as Hbk. rewrite Hdk in Hbk.
  change (53 - 1) with 52 in Hbx, Hbk.
  set (M := (mx * mk)%positive).
  assert (HM : Zpos M = Zpos mx * Zpos mk) by reflexivity.
  assert (HMb : 2 ^ 104 <= Zpos M < 2 ^ 106).
  { rewrite HM. change (2 ^ 104) with (2 ^ 52 * 2 ^ 52). change (2 ^ 106) with (2 ^ 53 * 2 ^ 53).
    split.
    - apply Z.mul_le_mono_nonneg; try apply Hbx; try apply Hbk; apply Z.pow_nonneg; lia.
    - apply Z.mul_lt_mono_nonneg; try apply Hbx; try apply Hbk; lia. }
  pose proof (digits2_bounds M) as HdM.
  assert (Hd : 105 <= Zpos (digits2_pos M) <= 106).
  { split.
    - pose proof (digits2_ge M 104 (proj1 HMb)). lia.
    - apply digits2_le; [lia | apply HMb]. }
  pose proof (binary_round_aux_shape 53 1024 (xorb sx sk) M (ex + ek) ltac:(lia)) as HG.
  cbv zeta in HG.
  set (d := Zpos (digits2_pos M)) in *. clearbody d.
  replace (fexp 53 1024 (d + (ex + ek))) with (ex + ek + (d - 53)) in HG
    by (unfold fexp, emin; lia).
  replace (ex + ek + (d - 53) - (ex + ek)) with (d - 53) in HG by lia.
  destruct HG as (m2 & H1 & _ & H3 & ->); [lia|].
  set (n := d - 53) in *.
  assert (Hn : 52 <= n <= 53) by (unfold n; lia).
  assert (HP : 0 < 2 ^ n) by (apply pow2_pos; lia).
  (* the quotient has 53 bits *)
  assert (Hq : 2 ^ 52 <= Zpos M / 2 ^ n).
  { apply Z.div_le_lower_bound; [exact HP|].
    rewrite <- Z.pow_add_r by lia. replace (n + 52) with (d - 1) by (unfold n; lia).
    apply HdM. }
  pose proof (Z.mul_div_le (Zpos M) (2 ^ n) HP) as Hfloor.
  assert (Hup : m2 * 2 ^ n <= Zpos M + 2 ^ n).
  { apply Z.le_trans with ((Zpos M / 2 ^ n + 1) * 2 ^ n).
    - apply Z.mul_le_mono_nonneg_r; [lia | apply H1].
    - rewrite Z.mul_add_distr_r, Z.mul_1_l, (Z.mul_comm (Zpos M / 2 ^ n)).
      apply Z.add_le_mono_r. exact Hfloor. }
  assert (Hm2 : 2 ^ 52 <= m2) by (apply Z.le_trans with (Zpos M / 2 ^ n); [exact Hq | apply H1]).
  assert (H0 : 0 < m2) by (apply Z.lt_le_trans with (2 ^ 52); [reflexivity | exact Hm2]).
  replace (m2 =? 0) with false by (symmetry; apply Z.eqb_neq; lia).
  destruct (Z.ltb_spec m2 (2 ^ 53)) as [Hlt|Hge].
  - replace (ex + ek + n <=? 1024 - 53) with true by (symmetry; apply Z.leb_le; lia).
    exists (Z.to_pos m2), n. split; [reflexivity|].
    split; [apply digits2_53; split; assumption|].
    split; [lia|]. rewrite Z2Pos.id by exact H0. rewrite <- HM. exact Hup.
  - assert (m2 = 2 ^ 53) as -> by (apply Z.le_antisymm; assumption).
    replace (ex + ek + n + 1 <=? 1024 - 53) with true by (symmetry; apply Z.leb_le; lia).
    exists (Z.to_pos (2 ^ (53 - 1))), (n + 1).
    split; [f_equal; lia|]. split; [reflexivity|]. split; [lia|].
    change (Zpos (Z.to_pos (2 ^ (53 - 1)))) with (2 ^ 52). rewrite <- HM.
    rewrite Z.pow_add_r by lia. change (2 ^ 1) with 2.
    change (2 ^ 53) with (2 ^ 52 * 2) in Hup.
    clear -Hup HP. revert Hup HP. generalize (Zpos M) (2 ^ n) (2 ^ 52). intros; lia.
Qed.

(** The reciprocal of a binary64 number with a full mantissa: the result
    has a full mantissa, and its product with the number exceeds 1 by
    less than 2^-52. *)
Lemma fdiv_one_rounded mp ep :
  Zpos (digits2_pos mp) = 53 -> -100 <= ep <= 100 ->
  exists (mk : positive) (j : Z),
    fdiv one (S754_finite false mp ep) = S754_finite false mk (-105 - ep + j)
    /\ Zpos (digits2_pos mk) = 53
    /\ 0 <= j <= 1
    /\ Zpos mk * Zpos mp * 2 ^ j <= 2 ^ 105 + 2 ^ 53.
Proof.
  intros Hd He.
  pose proof (digits2_bounds mp) as Hb. rewrite Hd in Hb. change (53 - 1) with 52 in Hb.
  change one with (S754_finite false 4503599627370496 (-52)).
  unfold fdiv, SFdiv, SFdiv_core_binary, prec64, emax64.
  change (Zdigits2 (Zpos 4503599627370496)) with 53. cbn [Zdigits2 xorb]. rewrite Hd.
  replace (Z.min (fexp 53 1024 (53 + -52 - (53 + ep))) (-52 - ep)) with (-105 - ep)
    by (unfold fexp, emin; lia).
  replace (-52 - ep - (-105 - ep)) with 53 by lia.
  cbv iota. rewrite Z.shiftl_mul_pow2 by lia.
  change (4503599627370496 * 2 ^ 53) with (2 ^ 105).
  pose proof (Z.div_eucl_eq (2 ^ 105) (Zpos mp) ltac:(lia)) as Heq.
  pose proof (Z.mod_pos_bound (2 ^ 105) (Zpos mp) ltac:(lia)) as Hr.
  unfold Z.modulo in Hr.
  destruct (Z.div_eucl (2 ^ 105) (Zpos mp)) as [q r].
  destruct (Z.eq_dec (Zpos mp) (2 ^ 52)) as [Hp|Hp].
  - (* a power of two: the quotient is exact *)
    assert (q = 2 ^ 53 /\ r = 0) as [-> ->].
    { rewrite Hp in Heq, Hr. change (2 ^ 105) with (2 ^ 52 * 2 ^ 53) in Heq.
      clear -Heq Hr. revert Heq Hr. generalize (2 ^ 52) (2 ^ 53). intros T U Heq Hr.
      assert (T * (U - q) = r) by lia.
      assert (U - q = 0) by nia. split; nia. }
    assert (Hl : new_location (Zpos mp) 0 = loc_Exact).
    { unfold new_location, new_location_even, new_location_odd.
      destruct (Z.even (Zpos mp)); reflexivity. }
    rewrite Hl. change (2 ^ 53) with (Zpos 4503599627370496 * 2 ^ 1).
    rewrite binary_round_aux_exact by (try reflexivity; lia).
    exists 4503599627370496%positive, 1. split; [reflexivity|]. split; [reflexivity|].
    split; [lia|]. rewrite Hp. vm_compute. discriminate.
  - generalize (new_location (Zpos mp) r). intros l.
    assert (Hq : 2 ^ 52 <= q /\ q + 1 < 2 ^ 53).
    { change (2 ^ 105) with (2 * 2 ^ 52 * 2 ^ 52) in Heq.
      change (2 ^ 53) with (2 * 2 ^ 52) in Hb |- *.
      assert (HT : 0 < 2 ^ 52) by reflexivity.
      clear -Heq Hr Hb Hp HT. revert Heq Hr Hb Hp HT.
      generalize (2 ^ 52) (Zpos mp). intros T p Heq Hr Hb Hp HT. split; nia. }
    destruct q as [|q|q]; try (exfalso; destruct Hq as [Hq _]; revert Hq; vm_compute; congruence).
    destruct (binary_round_aux_fits false q (-105 - ep) l (proj1 Hq) (proj2 Hq) ltac:(lia))
      as (m2 & -> & Hm2).
    exists m2, 0. split; [f_equal; lia|].
    split.
    { rewrite <- (digits2_53 (Zpos m2)); [reflexivity|].
      split; [apply Z.le_trans with (Zpos q); [apply Hq | apply Hm2]|].
      apply Z.le_lt_trans with (Zpos q + 1); [apply Hm2 | apply Hq]. }
    split; [lia|].
    change (2 ^ 0) with 1. rewrite Z.mul_1_r.
    apply Z.le_trans with ((Zpos q + 1) * Zpos mp).
    + apply Z.mul_le_mono_nonneg_r; [lia | apply Hm2].
    + clear -Heq Hr Hb. revert Heq Hr Hb.
      generalize (2 ^ 105) (2 ^ 53) (2 ^ 52) (Zpos q) (Zpos mp). intros; lia.
Qed.

(* ================================================================== *)
(** * The order of the non-negative Numbers *)
(* ================================================================== *)

Lemma flt_finite_iff m1 e1 m2 e2 :
  flt (S754_finite false m1 e1) (S754_finite false m2 e2) = true
  <-> e1 < e2 \/ (e1 = e2 /\ Zpos m1 < Zpos m2).
Proof.
  unfold flt, SFltb, SFcompare.
  destruct (Z.compare_spec e1 e2) as [He|He|He].
  - rewrite (Pos.compare_cont_spec m1 m2 Eq).
    destruct (Pos.compare_spec m1 m2) as [Hm|Hm|Hm]; cbn [Pos.switch_Eq]; split;
      try discriminate; try reflexivity.
    + subst m1. intros [H|[_ H]]; [lia | exfalso; exact (Z.lt_irrefl _ H)].
    + intros _. right. split; [exact He | exact Hm].
    + intros [H|[_ H]]; [lia|]. exfalso.
      pose proof (Pos2Z.pos_lt_pos _ _ Hm) as Hm'.
      exact (Z.lt_irrefl _ (Z.lt_trans _ _ _ H Hm')).
  - split; [intros _; left; exact He | reflexivity].
  - split; [discriminate | intros [H|[H _]]; lia].
Qed.

Lemma flt_finite_false m1 e1 m2 e2 :
  flt (S754_finite false m1 e1) (S754_finite false m2 e2) = false
  <-> e2 < e1 \/ (e1 = e2 /\ Zpos m2 <= Zpos m1).
Proof.
  rewrite <- not_true_iff_false, flt_finite_iff. split.
  - intros H. destruct (Z.lt_trichotomy e1 e2) as [?|[?|?]].
    + exfalso. apply H. left. assumption.
    + right. split; [assumption|].
      destruct (Z.le_gt_cases (Zpos m2) (Zpos m1)) as [?|?]; [assumption|].
      exfalso. apply H. right. split; assumption.
    + left. assumption.
  - intros [H|[H1 H2]] [H'|[H1' H2']]; lia.
Qed.

(** Among non-negative Numbers: if [y] is not below [x] and [z] is not
    below [y], then [z] is not below [x], unless [y] is NaN. *)
Lemma flt_false_trans x y z :
  signBit x = false -> signBit y = false -> signBit z = false ->
  isNaN y = false ->
  flt x y = false -> flt y z = false -> flt x z = false.
Proof.
  intros Hx Hy Hz Hn.
  destruct x as [sx|sx| |sx mx ex], y as [sy|sy| |sy my ey], z as [sz|sz| |sz mz ez];
    cbn [signBit isNaN] in *; subst; try discriminate; try reflexivity;
    try (intros H1 H2; first [discriminate H1 | discriminate H2]).
  rewrite !flt_finite_false. intros [H1|[H1 H1']] [H2|[H2 H2']].
  - left. lia.
  - left. lia.
  - left. lia.
  - right. split; [lia|]. exact (Z.le_trans _ _ _ H2' H1').
Qed.

Lemma flt_trans x y z :
  signBit x = false -> signBit y = false -> signBit z = false ->
  flt x y = true -> flt y z = true -> flt x z = true.
Proof.
  intros Hx Hy Hz.
  destruct x as [sx|sx| |sx mx ex], y as [sy|sy| |sy my ey], z as [sz|sz| |sz mz ez];
    cbn [signBit] in *; subst; try discriminate; try reflexivity;
    try (intros H1 H2; first [discriminate H1 | discriminate H2]).
  rewrite !flt_finite_iff. intros [H1|[H1 H1']] [H2|[H2 H2']].
  - left. lia.
  - left. lia.
  - left. lia.
  - right. split; [lia|]. exact (Z.lt_trans _ _ _ H1' H2').
Qed.

Lemma flt_irrefl x : flt x x = false.
Proof.
  destruct x as [s|s| |s m e]; try reflexivity; try (destruct s; reflexivity).
  unfold flt, SFltb, SFcompare. rewrite Z.compare_refl.
  rewrite (Pos.compare_cont_spec m m Eq), Pos.compare_refl.
  destruct s; reflexivity.
Qed.

Lemma fle_total a b : isNaN a = false -> isNaN b = false -> flt b a = false -> fle a b = true.
Proof.
  intros Ha Hb H. destruct (fle a b) eqn:E; [reflexivity|].
  rewrite (not_fle_flt a b Ha Hb E) in H. discriminate.
Qed.

Lemma fle_not_flt a b : fle a b = true -> flt b a = false.
Proof.
  unfold fle, flt, SFleb, SFltb. rewrite (SFcompare_antisym a b).
  destruct (SFcompare a b) as [[| |]|]; try discriminate; reflexivity.
Qed.

(* ================================================================== *)
(** * One sample through the guard *)
(* ================================================================== *)

(** The integer core of the guard: a sample not above the peak, times the
    rounded reciprocal of the peak, rounded, is at most 1 + 2^-51. *)
Lemma clip_arith (m mx mk mp j j0 dlt : Z) :
  2 ^ 52 <= m -> 0 <= mx -> 0 <= mk -> 0 < mp ->
  52 <= j <= 54 -> 0 <= j0 <= 1 -> 0 <= dlt ->
  mx <= mp * 2 ^ dlt ->
  mk * mp * 2 ^ j0 <= 2 ^ 105 + 2 ^ 53 ->
  m * 2 ^ j <= mx * mk + 2 ^ j ->
  j + j0 - dlt <= 52 \/ (j + j0 - dlt = 53 /\ m <= 2 ^ 52 + 2).
Proof.
  intros Hm Hmx Hmk Hmp Hj Hj0 Hd Hx Hk Hy.
  destruct (Z.le_gt_cases (j + j0 - dlt) 52) as [Ht|Ht]; [left; exact Ht | right].
  set (t := j + j0 - dlt) in *.
  assert (HD : 0 < 2 ^ dlt) by (apply pow2_pos; lia).
  assert (HJ0 : 0 < 2 ^ j0) by (apply pow2_pos; lia).
  assert (HT : 0 < 2 ^ t) by (apply pow2_pos; lia).
  assert (EJ : 2 ^ j * 2 ^ j0 = 2 ^ t * 2 ^ dlt).
  { rewrite <- !Z.pow_add_r by lia. f_equal. unfold t. lia. }
  (* m * 2^t <= 2^105 + 2^53 + 2^t *)
  assert (Hmain : m * 2 ^ t <= 2 ^ 105 + 2 ^ 53 + 2 ^ t).
  { apply (Z.mul_le_mono_pos_r _ _ (2 ^ dlt) HD).
    assert (H1 : mx * mk <= mp * 2 ^ dlt * mk)
      by (apply Z.mul_le_mono_nonneg_r; assumption).
    assert (H2 : mx * mk * 2 ^ j0 <= mp * 2 ^ dlt * mk * 2 ^ j0)
      by (apply Z.mul_le_mono_nonneg_r; [lia | exact H1]).
    assert (H3 : mk * mp * 2 ^ j0 * 2 ^ dlt <= (2 ^ 105 + 2 ^ 53) * 2 ^ dlt)
      by (apply Z.mul_le_mono_nonneg_r; [lia | exact Hk]).
    assert (H4 : m * 2 ^ j * 2 ^ j0 <= (mx * mk + 2 ^ j) * 2 ^ j0)
      by (apply Z.mul_le_mono_nonneg_r; [lia | exact Hy]).
    replace (m * 2 ^ t * 2 ^ dlt) with (m * (2 ^ t * 2 ^ dlt)) by ring.
    rewrite <- EJ.
    replace ((2 ^ 105 + 2 ^ 53 + 2 ^ t) * 2 ^ dlt)
      with ((2 ^ 105 + 2 ^ 53) * 2 ^ dlt + 2 ^ t * 2 ^ dlt) by ring.
    rewrite <- EJ.
    clear -H2 H3 H4. revert H2 H3 H4.
    generalize (2 ^ 105 + 2 ^ 53) (2 ^ j) (2 ^ j0) (2 ^ dlt). intros C a b c H2 H3 H4.
    replace (m * (a * b)) with (m * a * b) by ring.
    replace (mp * c * mk * b) with (mk * mp * b * c) in H2 by ring.
    replace ((mx * mk + a) * b) with (mx * mk * b + a * b) in H4 by ring.
    lia. }
  assert (Ht55 : t <= 55) by (unfold t; lia).
  assert (Hcase : t = 53 \/ t = 54 \/ t = 55) by lia.
  clearbody t.
  destruct Hcase as [-> | [-> | ->]].
  - split; [reflexivity|].
    change (2 ^ 105) with (2 ^ 52 * 2 ^ 53) in Hmain.
    clear -Hmain. revert Hmain. 
    assert (HU : 0 < 2 ^ 53) by reflexivity. revert HU.
    generalize (2 ^ 52) (2 ^ 53). intros T U HU Hmain. nia.
  - exfalso.
    change (2 ^ 105) with (2 * 2 ^ 52 * 2 ^ 52) in Hmain.
    change (2 ^ 53) with (2 * 2 ^ 52) in Hmain.
    change (2 ^ 54) with (4 * 2 ^ 52) in Hmain.
    assert (HT4 : 4 <= 2 ^ 52) by (vm_compute; discriminate).
    clear -Hmain Hm HT4. revert Hmain Hm HT4.
    generalize (2 ^ 52). intros T Hmain Hm HT4. nia.
  - exfalso.
    change (2 ^ 105) with (2 * 2 ^ 52 * 2 ^ 52) in Hmain.
    change (2 ^ 53) with (2 * 2 ^ 52) in Hmain.
    change (2 ^ 55) with (8 * 2 ^ 52) in Hmain.
    assert (HT4 : 4 <= 2 ^ 52) by (vm_compute; discriminate).
    clear -Hmain Hm HT4. revert Hmain Hm HT4.
    generalize (2 ^ 52). intros T Hmain Hm HT4. nia.
Qed.

Lemma widen_inFloat32 s m e :
  inFloat32 (S754_finite s m e) ->
  exists M E, widen (S754_finite s m e) = S754_finite s M E
              /\ Zpos (digits2_pos M) = 53 /\ -201 <= E <= 75.
Proof.
  cbn [inFloat32]. intros [Hm He].
  pose proof (digits2_le m 24 ltac:(lia) Hm) as Hd.
  assert (Hd1 : 1 <= Zpos (digits2_pos m)) by lia.
  unfold widen, prec64, emax64. rewrite binary_round_exact by lia.
  destruct (canon64 s m e) as [| | |s' M E] eqn:Ec; try discriminate.
  assert (s' = s) by (unfold canon64 in Ec; congruence). subst s'.
  destruct (canon64_digits s m e M E ltac:(lia) Ec) as (HdM & _ & HE).
  exists M, E. split; [reflexivity|]. split; [exact HdM | lia].
Qed.

(** A finite sample not above a finite peak greater than 1, multiplied
    by the reciprocal of the peak and stored, is at most 1 in magnitude. *)
Lemma scaled_by_reciprocal sx mx ex mp ep :
  Zpos (digits2_pos mx) = 53 -> Zpos (digits2_pos mp) = 53 ->
  -201 <= ex <= 75 -> -201 <= ep <= 75 ->
  flt one (S754_finite false mp ep) = true ->
  flt (S754_finite false mp ep) (S754_finite false mx ex) = false ->
  unitFloat32 (fround (fmul (S754_finite sx mx ex) (fdiv one (S754_finite false mp ep)))).
Proof.
  intros Hdx Hdp Hex Hep H1 Hle.
  change one with (S754_finite false 4503599627370496 (-52)) in H1.
  apply flt_finite_iff in H1. apply flt_finite_false in Hle.
  pose proof (digits2_bounds mx) as Hbx. rewrite Hdx in Hbx.
  pose proof (digits2_bounds mp) as Hbp. rewrite Hdp in Hbp.
  change (53 - 1) with 52 in Hbx, Hbp.
  assert (Hep' : -52 <= ep) by (destruct H1 as [?|[? _]]; lia).
  destruct (fdiv_one_rounded mp ep Hdp ltac:(lia)) as (mk & j0 & -> & Hdk & Hj0 & Hk).
  pose proof (digits2_bounds mk) as Hbk. rewrite Hdk in Hbk. change (53 - 1) with 52 in Hbk.
  destruct (fmul_rounded sx mx ex false mk (-105 - ep + j0) Hdx Hdk ltac:(lia))
    as (m & j & -> & Hdm & Hj & Hy).
  pose proof (digits2_bounds m) as Hbm. rewrite Hdm in Hbm. change (53 - 1) with 52 in Hbm.
  apply fround_unit; [exact Hdm|].
  assert (Hdlt : 0 <= ep - ex) by (destruct Hle as [?|[? _]]; lia).
  assert (Hx : Zpos mx <= Zpos mp * 2 ^ (ep - ex)).
  { destruct Hle as [Hlt|[He Hm]].
    - apply Z.le_trans with (2 ^ 52 * 2 ^ 1).
      + change (2 ^ 52 * 2 ^ 1) with (2 ^ 53). apply Z.lt_le_incl. apply Hbx.
      + apply Z.mul_le_mono_nonneg; [apply Z.pow_nonneg; lia | apply Hbp | lia |].
        apply Z.pow_le_mono_r; lia.
    - replace (ep - ex) with 0 by lia. change (2 ^ 0) with 1. rewrite Z.mul_1_r. exact Hm. }
  assert (H0mx : 0 <= Zpos mx) by lia.
  assert (H0mk : 0 <= Zpos mk) by lia.
  assert (H0mp : 0 < Zpos mp) by lia.
  destruct (clip_arith (Zpos m) (Zpos mx) (Zpos mk) (Zpos mp) j j0 (ep - ex)
              (proj1 Hbm) H0mx H0mk H0mp Hj Hj0 Hdlt Hx Hk Hy) as [Ht|[Ht Hm]].
  - left. lia.
  - right. split; [lia | exact Hm].
Qed.

(** One sample through the rescaling of the guard. *)
Lemma guarded_sample (x y : float32) :
  inFloat32 x -> inFloat32 y ->
  flt one (Math_abs (widen y)) = true ->
  flt (Math_abs (widen y)) (Math_abs (widen x)) = false ->
  let r := fround (fmul (widen x) (fdiv one (Math_abs (widen y)))) in
  notAboveFullScale r
  /\ (Number_isFinite x = true -> Number_isFinite y = true -> withinFullScale r = true).
Proof.
  intros Hx Hy H1 Hle r. unfold r, notAboveFullScale.
  destruct y as [sy|sy| |sy my ey].
  - discriminate H1.
  - (* an infinite peak: the reciprocal is +0 *)
    cbn [widen Math_abs SFabs].
    change (fdiv one (S754_infinity false)) with (S754_zero false).
    destruct x as [sx|sx| |sx mx ex].
    + split; [right|intros _ Hf; discriminate Hf]. destruct sx; reflexivity.
    + split; [left; reflexivity | intros Hf; discriminate Hf].
    + split; [left; reflexivity | intros Hf; discriminate Hf].
    + destruct (widen_inFloat32 sx mx ex Hx) as (M & E & -> & _ & _).
      split; [right|intros _ Hf; discriminate Hf]. destruct sx; reflexivity.
  - discriminate H1.
  - destruct (widen_inFloat32 sy my ey Hy) as (Mp & Ep & Hwy & Hdp & HEp).
    rewrite Hwy in *. cbn [Math_abs SFabs] in *.
    destruct x as [sx|sx| |sx mx ex].
    + (* a zero *)
      assert (Hep' : -52 <= Ep).
      { change one with (S754_finite false 4503599627370496 (-52)) in H1.
        apply flt_finite_iff in H1. destruct H1 as [?|[? _]]; lia. }
      destruct (fdiv_one_rounded Mp Ep Hdp ltac:(lia)) as (mk & j0 & -> & _).
      assert (Hz : withinFullScale (fround (fmul (widen (S754_zero sx)) (S754_finite false mk (-105 - Ep + j0)))) = true)
        by (destruct sx; reflexivity).
      split; [right; exact Hz | intros _ _; exact Hz].
    + discriminate Hle.
    + split; [left; reflexivity | intros Hf; discriminate Hf].
    + destruct (widen_inFloat32 sx mx ex Hx) as (Mx & Ex & Hwx & Hdx & HEx).
      rewrite Hwx in *. cbn [Math_abs SFabs] in Hle.
      pose proof (scaled_by_reciprocal sx Mx Ex Mp Ep Hdx Hdp HEx HEp H1 Hle) as Hu.
      apply unitFloat32_withinFullScale in Hu.
      split; [right; exact Hu | intros _ _; exact Hu].
Qed.

(* ================================================================== *)
(** * The guard against clipping (step 5) *)
(* ================================================================== *)

Lemma abs_signBit z : signBit (Math_abs z) = false.
Proof. destruct z; reflexivity. Qed.

Lemma flt_true_not_nan a b : flt a b = true -> isNaN b = false.
Proof. destruct a, b; try discriminate; reflexivity. Qed.

(** The search of the peak: the result is the initial value or the
    magnitude of an element, and no magnitude is above it. *)
Lemma peak_fold (L : list float32) : forall P0,
  signBit P0 = false -> isNaN P0 = false ->
  let P := fold_left (fun peak x =>
                        let ax := Math_abs (widen x) in
                        if flt peak ax then ax else peak) L P0 in
  (P = P0 \/ exists y, y ∈ L /\ P = Math_abs (widen y))
  /\ signBit P = false /\ isNaN P = false
  /\ flt P P0 = false
  /\ Forall (fun x => flt P (Math_abs (widen x)) = false) L.
Proof.
  induction L as [|x L IH]; intros P0 Hs Hn; cbn [fold_left].
  - split; [left; reflexivity|]. split; [exact Hs|]. split; [exact Hn|].
    split; [apply flt_irrefl | constructor].
  - cbv zeta.
    set (ax := Math_abs (widen x)).
    set (P1 := if flt P0 ax then ax else P0).
    assert (Hs1 : signBit P1 = false).
    { unfold P1. destruct (flt P0 ax); [apply abs_signBit | exact Hs]. }
    assert (Hn1 : isNaN P1 = false).
    { unfold P1. destruct (flt P0 ax) eqn:E; [exact (flt_true_not_nan _ _ E) | exact Hn]. }
    specialize (IH P1 Hs1 Hn1). cbv zeta in IH.
    set (P := fold_left _ L P1) in *.
    destruct IH as (Hsrc & HsP & HnP & HP1 & Hall).
    assert (Hax : flt P ax = false /\ flt P P0 = false).
    { unfold P1 in HP1. destruct (flt P0 ax) eqn:E.
      - split; [exact HP1|].
        destruct (flt P P0) eqn:E2; [|reflexivity].
        rewrite (flt_trans P P0 ax HsP Hs (abs_signBit _) E2 E) in HP1. discriminate.
      - split; [|exact HP1].
        exact (flt_false_trans P P0 ax HsP Hs (abs_signBit _) Hn HP1 E). }
    split.
    { destruct Hsrc as [HP|(y & Hy & HPy)].
      - unfold P1 in HP. destruct (flt P0 ax).
        + right. exists x. split; [apply list_elem_of_here | exact HP].
        + left. exact HP.
      - right. exists y. split; [apply list_elem_of_further; exact Hy | exact HPy]. }
    split; [exact HsP|]. split; [exact HnP|]. split; [apply Hax|].
    constructor; [apply Hax | exact Hall].
Qed.

Lemma widen_not_nan x : inFloat32 x -> isNaN x = false -> isNaN (Math_abs (widen x)) = false.
Proof.
  intros Hx Hn. destruct x as [s|s| |s m e]; try reflexivity; [discriminate|].
  destruct (widen_inFloat32 s m e Hx) as (M & E & -> & _). reflexivity.
Qed.


(** After the guard no sample is above full scale; and when the samples
    it receives are finite, every sample is within full scale. *)
Lemma clipGuard_spec (L : list float32) :
  Forall inFloat32 L ->
  Forall notAboveFullScale (clipGuard L)
  /\ (Forall (fun x => Number_isFinite x = true) L ->
      Forall (fun x => withinFullScale x = true) (clipGuard L)).
Proof.
  intros HL. unfold clipGuard. cbv zeta.
  destruct (peak_fold L zero eq_refl eq_refl) as (Hsrc & HsP & HnP & _ & Hall).
  cbv zeta in Hsrc, HsP, HnP, Hall. fold (peakOf L) in Hsrc, HsP, HnP, Hall.
  rewrite Forall_forall in HL. rewrite Forall_forall in Hall.
  destruct (flt one (peakOf L)) eqn:H1.
  - destruct Hsrc as [Hz|(y & Hy & HP)]; [rewrite Hz in H1; discriminate H1|].
    rewrite HP in *.
    split.
    + apply Forall_fmap, Forall_forall. intros x Hx.
      apply (guarded_sample x y (HL x Hx) (HL y Hy) H1 (Hall x Hx)).
    + intros Hfin. rewrite Forall_forall in Hfin.
      apply Forall_fmap, Forall_forall. intros x Hx.
      apply (guarded_sample x y (HL x Hx) (HL y Hy) H1 (Hall x Hx)); apply Hfin; assumption.
  - assert (Hin : forall x, x ∈ L -> isNaN x = false -> withinFullScale x = true).
    { intros x Hx Hnx. unfold withinFullScale.
      apply fle_total; [apply widen_not_nan; [apply HL; exact Hx | exact Hnx] | reflexivity |].
      apply (flt_false_trans one (peakOf L) (Math_abs (widen x)));
        [reflexivity | exact HsP | apply abs_signBit | exact HnP | exact H1 | apply Hall; exact Hx]. }
    split.
    + apply Forall_forall. intros x Hx. unfold notAboveFullScale.
      destruct (isNaN x) eqn:Hnx; [left; reflexivity | right; apply Hin; assumption].
    + intros Hfin. rewrite Forall_forall in Hfin.
      apply Forall_forall. intros x Hx. apply Hin; [exact Hx|].
      specialize (Hfin x Hx). destruct x; try discriminate; reflexivity.
Qed.

Lemma scaleToTargetRms_inFloat32 m opts out : Forall inFloat32 (scaleToTargetRms m opts out).
Proof.
  unfold scaleToTargetRms. cbv zeta.
  destruct (flt zero (rms out) && Number_isFinite (rms out));
    apply Forall_fmap, Forall_forall; intros x _; [apply fround_inFloat32 | exact I].
Qed.

(** [normalize] is step 4, then step 5, then the assignment of the
    endpoints. *)
Lemma normalize_steps m opts out :
  normalize m opts out
  = let n := length out in
    let guarded := clipGuard (scaleToTargetRms m opts out) in
    if default true (zeroEndpoints opts) && (1 <=? n)%nat then
      let o := <[0%nat := zero]> guarded in
      if (1 <? n)%nat then <[(n - 1)%nat := zero]> o else o
    else guarded.
Proof. reflexivity. Qed.

Lemma zeroed_endpoints (Q : float32 -> Prop) (b : bool) (n : nat) (l : list float32) :
  Q zero -> Forall Q l ->
  Forall Q (if b && (1 <=? n)%nat then
              let o := <[0%nat := zero]> l in
              if (1 <? n)%nat then <[(n - 1)%nat := zero]> o else o
            else l).
Proof.
  intros Hz Hl. destruct (b && (1 <=? n)%nat); [|exact Hl]. cbv zeta.
  destruct (1 <? n)%nat; repeat apply Forall_insert; assumption.
Qed.

Lemma forallb_of_Forall {A : Type} (f : A -> bool) (l : list A) :
  Forall (fun x => f x = true) l -> forallb f l = true.
Proof.
  induction 1 as [|x l Hx _ IH]; [reflexivity|]. cbn [forallb]. rewrite Hx, IH. reflexivity.
Qed.

Lemma notAboveFullScale_flt x :
  notAboveFullScale x -> flt one (Math_abs (widen x)) = false.
Proof.
  intros [Hn|Hw].
  - destruct x; try discriminate. reflexivity.
  - apply fle_not_flt. exact Hw.
Qed.

(** C3.  No sample of a returned buffer exceeds full scale, whatever the
    request, the host and the random source: every sample is within
    [-1, 1] or is NaN, so that [Math.abs(x) > 1] holds for none.  A NaN
    can only come from a sample that is not a finite number after the
    scaling to the target level (step 4): when these are all finite, the
    magnitude of every sample of the result is at most 1.  The guard
    divides by the peak in binary64 and stores in binary32; the proof
    follows the three roundings. *)
Theorem C3_no_sample_exceeds_full_scale m entropy fuel (opts : NoiseOptions)
    (buf : list float32) :
  generateEndpointConstrainedWhiteNoise m entropy fuel opts = Returned buf ->
  Forall (fun x => flt one (Math_abs (widen x)) = false
                   /\ (isNaN x = true \/ withinFullScale x = true)) buf
  /\ (forall n out,
        requestedLength opts = Some n ->
        rawNoise m entropy fuel n opts = Some out ->
        Forall (fun x => Number_isFinite x = true) (scaleToTargetRms m opts out) ->
        forallb withinFullScale buf = true).
Proof.
  unfold generateEndpointConstrainedWhiteNoise, requestedLength.
  destruct (negb (Number_isFinite (sampleRate opts)) || fle (sampleRate opts) zero);
    [discriminate|].
  destruct (ToIndex (Math_max0 (Math_floor (sampleCount opts)))) as [n|]; [|discriminate].
  destruct (rawNoise m entropy fuel n opts) as [out|] eqn:Hraw; [|discriminate].
  intros H. injection H as <-.
  rewrite normalize_steps. cbv zeta.
  destruct (clipGuard_spec (scaleToTargetRms m opts out) (scaleToTargetRms_inFloat32 m opts out))
    as [Hany Hfin].
  split.
  - apply (Forall_impl notAboveFullScale).
    + apply (zeroed_endpoints notAboveFullScale); [right; reflexivity | exact Hany].
    + intros x Hx. split; [apply notAboveFullScale_flt; exact Hx | exact Hx].
  - intros n' out' Hn' Hout' Hf. injection Hn' as <-.
    rewrite Hraw in Hout'. injection Hout' as <-.
    apply forallb_of_Forall.
    apply (zeroed_endpoints (fun x => withinFullScale x = true)); [reflexivity|].
    apply Hfin. exact Hf.
Qed.

Lemma C3_witness :
  Forall (fun x => flt one (Math_abs (widen x)) = false
                   /\ (isNaN x = true \/ withinFullScale x = true)) guardedExample
  /\ forallb withinFullScale guardedExample = true
  /\ flt one (peakOf (scaleToTargetRms coarseLibm (request 5 uniform)
                        (default [] (rawNoise coarseLibm halves 0 5 (request 5 uniform)))))
     = true.
Proof.
  destruct (C3_no_sample_exceeds_full_scale coarseLibm halves 0 (request 5 uniform)
              guardedExample) as [H1 H2]; [vm_compute; reflexivity|].
  split; [exact H1|]. split; [|vm_compute; reflexivity].
  apply (H2 5%nat (default [] (rawNoise coarseLibm halves 0 5 (request 5 uniform))));
    [vm_compute; reflexivity | vm_compute; reflexivity |].
  vm_compute. repeat constructor.
Defined.

(** The alternative of a NaN cannot be dropped for arbitrary Numbers: with
    the level NaN, which is no level in dBFS, the gain is NaN, the search of
    the peak skips NaN (no comparison with it holds) and the inner sample
    stays NaN. *)
Lemma nan_level_gives_nan_sample m entropy fuel :
  generateEndpointConstrainedWhiteNoise m entropy fuel
    (withTarget S754_nan (request 3 uniform)) = Returned [zero; S754_nan; zero]
  /\ forallb withinFullScale [zero; S754_nan; zero] = false.
Proof.
  split; [|reflexivity].
  unfold generateEndpointConstrainedWhiteNoise. 
  change (negb (Number_isFinite (sampleRate (withTarget S754_nan (request 3 uniform))))
          || fle (sampleRate (withTarget S754_nan (request 3 uniform))) zero) with false.
  cbv iota.
  change (ToIndex (Math_max0 (Math_floor (sampleCount (withTarget S754_nan (request 3 uniform))))))
    with (Some 3%nat).
  cbv iota. vm_compute. reflexivity.
Qed.
